(** * The MCP connection manager of smart-assistant

    A shallow embedding of [server/src/services/mcpService.ts] (class
    [MCPService]) and of the parts of [server/src/types/index.ts] it
    uses, with the properties its specification states about it.

    Conventions of the embedding.
    - A JavaScript string is a [string] holding its UTF-8 encoding; the
      strings the service handles come out of [Buffer.toString()] and of
      JSON documents, so they are well-formed.  Lengths are counted in
      bytes: the service only uses a length to cut a buffer where the
      lengths of its own lines add up to.
    - A [Buffer] is a [list byte].
    - [Map<string, MCPServer>] keeps insertion order and is iterated, so
      it is an association list; [Map<string, ChildProcess | WebSocket>]
      and the environment objects are only looked up, so they are
      [gmap]s.
    - [MCPServer] objects are mutable and shared between the map and the
      callbacks of a child process: they live in a store and are named
      by their index.
    - Promises, event listeners and timers are explicit state; the
      runtime's events (a process spawned, a chunk on stdout, time
      passing) are the steps of a transition system.  A timer runs
      when the clock reaches its deadline.
    - Values have the types their TypeScript declarations give them,
      except where the service stores JSON it received as it is.

    The development also covers the callers [executeToolCall] of
    [server/src/routes/chat.ts] and [formatMCPTools] of
    [server/src/services/openRouterService.ts].  [initialize],
    [autoStartEnabledServers] and [getConfig] are not part of it. *)

From Stdlib Require Import ZArith NArith Strings.Ascii Strings.String Strings.Byte DecimalString Lia.
From stdpp Require Import base option list gmap strings.

Local Open Scope Z_scope.
Set Warnings "-register-all".

(** ** Strings *)

Module JsString.

Definition LF : ascii := "010"%char.
Definition DQUOTE : ascii := ascii_of_N 34.
Definition SQUOTE : ascii := ascii_of_N 39.

(** JSON text is written with single quotes in this file; [dq] puts
    the double quotes back. *)
Fixpoint dq (s : string) : string :=
  match s with
  | EmptyString => EmptyString
  | String c r => String (if Ascii.eqb c SQUOTE then DQUOTE else c) (dq r)
  end.

(** [s.split('\n')]: never empty, [""] for the empty string. *)
Fixpoint split_nl (s : string) : list string :=
  match s with
  | EmptyString => [EmptyString]
  | String c r =>
      if Ascii.eqb c LF then EmptyString :: split_nl r
      else match split_nl r with
           | hd :: tl => String c hd :: tl
           | [] => [String c EmptyString]
           end
  end.

(** [s.substring(n)] for [0 <= n]. *)
Fixpoint substring_from (n : nat) (s : string) : string :=
  match n, s with
  | O, _ => s
  | S k, EmptyString => EmptyString
  | S k, String _ r => substring_from k r
  end.

Fixpoint strip_prefix (p s : string) : option string :=
  match p, s with
  | EmptyString, _ => Some s
  | String a p', String b s' =>
      if Ascii.eqb a b then strip_prefix p' s' else None
  | String _ _, EmptyString => None
  end.

Definition bs (l : list byte) : string := string_of_list_byte l.

(** The code points [String.prototype.trim] removes (WhiteSpace and
    LineTerminator of ECMA-262), in UTF-8. *)
Definition white_space : list string :=
  [ bs [x09]; bs [x0a]; bs [x0b]; bs [x0c]; bs [x0d]; bs [x20];
    bs [xc2; xa0]; bs [xe1; x9a; x80];
    bs [xe2; x80; x80]; bs [xe2; x80; x81]; bs [xe2; x80; x82];
    bs [xe2; x80; x83]; bs [xe2; x80; x84]; bs [xe2; x80; x85];
    bs [xe2; x80; x86]; bs [xe2; x80; x87]; bs [xe2; x80; x88];
    bs [xe2; x80; x89]; bs [xe2; x80; x8a];
    bs [xe2; x80; xa8]; bs [xe2; x80; xa9]; bs [xe2; x80; xaf];
    bs [xe2; x81; x9f]; bs [xe3; x80; x80]; bs [xef; xbb; xbf] ].

Fixpoint strip_any (ps : list string) (s : string) : option string :=
  match ps with
  | [] => None
  | p :: ps' =>
      match strip_prefix p s with
      | Some r => Some r
      | None => strip_any ps' s
      end
  end.

Fixpoint trim_start_fuel (fuel : nat) (ws : list string) (s : string) : string :=
  match fuel with
  | O => s
  | S f =>
      match strip_any ws s with
      | Some r => trim_start_fuel f ws r
      | None => s
      end
  end.

Definition trim_start (ws : list string) (s : string) : string :=
  trim_start_fuel (String.length s) ws s.

Fixpoint rev_string (s : string) : string :=
  match s with
  | EmptyString => EmptyString
  | String c r => rev_string r +:+ String c EmptyString
  end.

(** [s.trim()]. *)
Definition trim (s : string) : string :=
  let s1 := trim_start white_space s in
  rev_string (trim_start (map rev_string white_space) (rev_string s1)).

Definition is_empty (s : string) : bool :=
  match s with EmptyString => true | _ => false end.

(** The concatenation of the chunks of a stream. *)
Fixpoint join (l : list string) : string :=
  match l with
  | [] => EmptyString
  | s :: r => s +:+ join r
  end.

(** What the loop of the handler adds up over [lines]. *)
Definition total_length (lines : list string) : nat :=
  foldr (fun l n => S (String.length l + n)) 0%nat lines.

(** Decimal rendering of an index, as a template literal does. *)
Definition of_nat (n : nat) : string :=
  NilZero.string_of_uint (Nat.to_uint n).

End JsString.

(** ** [Buffer.prototype.toString()]: UTF-8 decoding with replacement *)

Module Utf8.

Record dstate := {
  needed : nat;              (* continuation bytes still expected *)
  lower : N;                 (* bounds on the next continuation byte *)
  upper : N;
  pending : list byte        (* bytes of the sequence read so far *)
}.

Definition init : dstate :=
  {| needed := 0; lower := 128; upper := 191; pending := [] |}.

(** U+FFFD. *)
Definition replacement : list byte := [xef; xbf; xbd].

Definition between (lo hi n : N) : bool := ((lo <=? n) && (n <=? hi))%N.

Definition start (b : byte) : list byte * dstate :=
  let n := Byte.to_N b in
  if (n <=? 127)%N then ([b], init)
  else if between 194 223 n then
    ([], {| needed := 1; lower := 128; upper := 191; pending := [b] |})
  else if between 224 239 n then
    ([], {| needed := 2;
            lower := if (n =? 224)%N then 160%N else 128%N;
            upper := if (n =? 237)%N then 159%N else 191%N;
            pending := [b] |})
  else if between 240 244 n then
    ([], {| needed := 3;
            lower := if (n =? 240)%N then 144%N else 128%N;
            upper := if (n =? 244)%N then 143%N else 191%N;
            pending := [b] |})
  else (replacement, init).

Definition step (st : dstate) (b : byte) : list byte * dstate :=
  match needed st with
  | O => start b
  | S k =>
      if between (lower st) (upper st) (Byte.to_N b) then
        match k with
        | O => (pending st ++ [b], init)
        | S _ => ([], {| needed := k; lower := 128; upper := 191;
                         pending := pending st ++ [b] |})
        end
      else
        let '(out, st') := start b in (replacement ++ out, st')
  end.

Fixpoint decode (st : dstate) (data : list byte) : list byte :=
  match data with
  | [] => match needed st with O => [] | S _ => replacement end
  | b :: r => let '(out, st') := step st b in out ++ decode st' r
  end.

Definition Buffer_toString (data : list byte) : string :=
  string_of_list_byte (decode init data).

End Utf8.

(** ** JSON values *)

(** What [JSON.parse] returns.  Numbers are the integers (request ids
    are integers); [undefined] is the [None] of an [option Json]. *)
Inductive Json : Type :=
| JNull
| JBool (b : bool)
| JNum (n : Z)
| JStr (s : string)
| JArr (items : list Json)
| JObj (fields : list (string * Json)).

Module JsValue.

Fixpoint assoc {A} (k : string) (l : list (string * A)) : option A :=
  match l with
  | [] => None
  | (k', v) :: r => if String.eqb k k' then Some v else assoc k r
  end.

(** [v.k] for the keys the service reads ([id], [result], [tools],
    [resources]): [None] is the TypeError of reading a property of
    [null], [Some None] is [undefined]. *)
Definition get (k : string) (v : Json) : option (option Json) :=
  match v with
  | JNull => None
  | JObj fields => Some (assoc k fields)
  | _ => Some None
  end.

(** ToBoolean. *)
Definition truthy (v : option Json) : bool :=
  match v with
  | None | Some JNull | Some (JBool false) | Some (JNum 0) => false
  | Some (JStr s) => negb (JsString.is_empty s)
  | Some _ => true
  end.

(** [v === n] for a number [n]. *)
Definition is_number (n : Z) (v : option Json) : bool :=
  match v with
  | Some (JNum m) => Z.eqb m n
  | _ => false
  end.

(** Assignment to a property of an object under construction: an
    existing key keeps its place. *)
Fixpoint obj_set (k : string) (v : Json) (l : list (string * Json))
  : list (string * Json) :=
  match l with
  | [] => [(k, v)]
  | (k', v') :: r =>
      if String.eqb k k' then (k', v) :: r else (k', v') :: obj_set k v r
  end.

End JsValue.

(** ** A reader for JSON text

    The functions of the service are parametric in [JSON.parse]; this
    reader is the instance the examples run on.  It covers the grammar
    of RFC 8259 apart from fractions, exponents, integers beyond
    [Number.MAX_SAFE_INTEGER] and [\u] escapes, which it rejects. *)

Module JsonText.
Import JsString.

Definition is_ws (c : ascii) : bool :=
  match N_of_ascii c with
  | 32%N | 9%N | 10%N | 13%N => true
  | _ => false
  end.

Fixpoint skip_ws (s : string) : string :=
  match s with
  | String c r => if is_ws c then skip_ws r else s
  | EmptyString => s
  end.

Definition digit (c : ascii) : option Z :=
  let n := N_of_ascii c in
  if ((48 <=? n) && (n <=? 57))%N then Some (Z.of_N n - 48) else None.

Fixpoint digits (acc : Z) (s : string) : Z * string :=
  match s with
  | String c r =>
      match digit c with
      | Some d => digits (10 * acc + d) r
      | None => (acc, s)
      end
  | EmptyString => (acc, s)
  end.

Definition max_safe_integer : Z := 9007199254740991.

Definition number_end (s : string) : bool :=
  match s with
  | String c _ =>
      match N_of_ascii c with
      | 46%N | 101%N | 69%N => false     (* . e E *)
      | _ => true
      end
  | EmptyString => true
  end.

(** An optional minus sign, then 0 or a digit string without a leading 0. *)
Definition parse_number (s : string) : option (Json * string) :=
  let '(neg, s1) :=
    match s with
    | String "-"%char r => (true, r)
    | _ => (false, s)
    end in
  match s1 with
  | String c r =>
      match digit c with
      | Some 0 =>
          if number_end r then Some (JNum 0, r) else None
      | Some d =>
          let '(n, r') := digits d r in
          if number_end r' && (n <=? max_safe_integer)
          then Some (JNum (if neg then - n else n), r')
          else None
      | None => None
      end
  | EmptyString => None
  end.

Definition escape (c : ascii) : option ascii :=
  match N_of_ascii c with
  | 34%N | 92%N | 47%N => Some c        (* quote, backslash, slash *)
  | 98%N => Some (ascii_of_N 8)         (* b *)
  | 102%N => Some (ascii_of_N 12)       (* f *)
  | 110%N => Some (ascii_of_N 10)       (* n *)
  | 114%N => Some (ascii_of_N 13)       (* r *)
  | 116%N => Some (ascii_of_N 9)        (* t *)
  | _ => None
  end.

(** The characters after an opening quote, up to the closing one. *)
Fixpoint parse_string (s : string) : option (string * string) :=
  match s with
  | EmptyString => None
  | String c r =>
      match N_of_ascii c with
      | 34%N => Some (EmptyString, r)
      | 92%N =>
          match r with
          | String e r' =>
              match escape e, parse_string r' with
              | Some c', Some (t, rest) => Some (String c' t, rest)
              | _, _ => None
              end
          | EmptyString => None
          end
      | n =>
          if (n <? 32)%N then None
          else match parse_string r with
               | Some (t, rest) => Some (String c t, rest)
               | None => None
               end
      end
  end.

Definition literal (word : string) (v : Json) (s : string)
  : option (Json * string) :=
  match strip_prefix word s with
  | Some r => Some (v, r)
  | None => None
  end.

Fixpoint parse_value (fuel : nat) (s : string) : option (Json * string) :=
  match fuel with
  | O => None
  | S f =>
      match skip_ws s with
      | String c r =>
          match N_of_ascii c with
          | 110%N => literal "ull" JNull r
          | 116%N => literal "rue" (JBool true) r
          | 102%N => literal "alse" (JBool false) r
          | 34%N =>
              match parse_string r with
              | Some (t, rest) => Some (JStr t, rest)
              | None => None
              end
          | 91%N =>
              match skip_ws r with
              | String "]"%char r' => Some (JArr [], r')
              | r1 =>
                  match parse_elements f r1 with
                  | Some (vs, rest) => Some (JArr vs, rest)
                  | None => None
                  end
              end
          | 123%N =>
              match skip_ws r with
              | String "}"%char r' => Some (JObj [], r')
              | r1 =>
                  match parse_members f r1 with
                  | Some (kvs, rest) =>
                      Some (JObj (fold_left (fun o kv => JsValue.obj_set kv.1 kv.2 o) kvs []), rest)
                  | None => None
                  end
              end
          | _ => parse_number (String c r)
          end
      | EmptyString => None
      end
  end
with parse_elements (fuel : nat) (s : string) : option (list Json * string) :=
  match fuel with
  | O => None
  | S f =>
      match parse_value f s with
      | Some (v, r) =>
          match skip_ws r with
          | String ","%char r' =>
              match parse_elements f r' with
              | Some (vs, rest) => Some (v :: vs, rest)
              | None => None
              end
          | String "]"%char r' => Some ([v], r')
          | _ => None
          end
      | None => None
      end
  end
with parse_members (fuel : nat) (s : string)
  : option (list (string * Json) * string) :=
  match fuel with
  | O => None
  | S f =>
      match strip_prefix (String DQUOTE EmptyString) (skip_ws s) with
      | Some r =>
          match parse_string r with
          | Some (k, r1) =>
              match skip_ws r1 with
              | String ":"%char r2 =>
                  match parse_value f r2 with
                  | Some (v, r3) =>
                      match skip_ws r3 with
                      | String ","%char r4 =>
                          match parse_members f r4 with
                          | Some (kvs, rest) => Some ((k, v) :: kvs, rest)
                          | None => None
                          end
                      | String "}"%char r4 => Some ([(k, v)], r4)
                      | _ => None
                      end
                  | None => None
                  end
              | _ => None
              end
          | None => None
          end
      | None => None
      end
  end.

(** [None] is the SyntaxError. *)
Definition parse (s : string) : option Json :=
  match parse_value (2 * String.length s + 2) s with
  | Some (v, r) => if is_empty (skip_ws r) then Some v else None
  | None => None
  end.

End JsonText.

(** ** The stdio response handler ([sendMessage], the closure
    [responseHandler] and its [responseBuffer]) *)

Section FrameCodec.

(** [JSON.parse]; [None] when it throws. *)
Variable JSON_parse : string -> option Json.

(** How the [for] loop over the complete lines ends. *)
Inductive Scan : Type :=
| Matched (response : Json) (frames : list Json)
    (* [resolve(response); return] *)
| Finished (processedLength : nat) (frames : list Json).

(** The loop body, for [lines[i]] with [i < lines.length - 1].
    [frames] collects the lines that parsed, in order. *)
Fixpoint scan_lines (id : Z) (lines : list string)
    (processedLength : nat) (frames : list Json) : Scan :=
  match lines with
  | [] => Finished processedLength frames
  | l :: rest =>
      let line := JsString.trim l in
      let processedLength := (processedLength + (String.length l + 1))%nat in
      if JsString.is_empty line then
        scan_lines id rest processedLength frames
      else
        match JSON_parse line with
        | Some response =>
            match JsValue.get "id" response with
            | Some rid =>
                if JsValue.is_number id rid
                then Matched response (frames ++ [response])
                else scan_lines id rest processedLength (frames ++ [response])
            | None =>
                (* reading [response.id] of [null] throws into the catch *)
                scan_lines id rest processedLength (frames ++ [response])
            end
        | None => scan_lines id rest processedLength frames
        end
  end.

Record Handled := {
  h_frames : list Json;        (* the lines that parsed *)
  h_resolved : option Json;    (* the argument of [resolve], if called *)
  h_buffer : string            (* [responseBuffer] afterwards *)
}.

(** The handler on the decoded chunk [rawData]. *)
Definition handle_raw (id : Z) (responseBuffer rawData : string) : Handled :=
  let responseBuffer := responseBuffer +:+ rawData in
  let lines := JsString.split_nl responseBuffer in
  match scan_lines id (removelast lines) 0 [] with
  | Matched response frames =>
      {| h_frames := frames; h_resolved := Some response;
         h_buffer := responseBuffer |}
  | Finished processedLength frames =>
      {| h_frames := frames; h_resolved := None;
         h_buffer := if (0 <? processedLength)%nat
                     then JsString.substring_from processedLength responseBuffer
                     else responseBuffer |}
  end.

(** [responseHandler(data)]. *)
Definition responseHandler (id : Z) (responseBuffer : string)
    (data : list byte) : Handled :=
  handle_raw id responseBuffer (Utf8.Buffer_toString data).

(** The handler over the successive chunks of a stream; after
    [resolve] it is unregistered and sees no further chunk. *)
Fixpoint feed_raw (id : Z) (responseBuffer : string) (chunks : list string)
  : list Json * option Json :=
  match chunks with
  | [] => ([], None)
  | c :: cs =>
      let h := handle_raw id responseBuffer c in
      match h_resolved h with
      | Some r => (h_frames h, Some r)
      | None =>
          let '(fs, r) := feed_raw id (h_buffer h) cs in
          (h_frames h ++ fs, r)
      end
  end.

Definition feed (id : Z) (responseBuffer : string) (chunks : list (list byte))
  : list Json * option Json :=
  feed_raw id responseBuffer (map Utf8.Buffer_toString chunks).

(** The WebSocket handler: the whole buffer is parsed at each
    message, and is never emptied. *)
Definition wsResponseHandler (id : Z) (wsResponseBuffer data : string)
  : Handled :=
  let wsResponseBuffer := wsResponseBuffer +:+ data in
  match JSON_parse wsResponseBuffer with
  | Some response =>
      match JsValue.get "id" response with
      | Some rid =>
          if JsValue.is_number id rid
          then {| h_frames := [response]; h_resolved := Some response;
                  h_buffer := wsResponseBuffer |}
          else {| h_frames := [response]; h_resolved := None;
                  h_buffer := wsResponseBuffer |}
      | None => {| h_frames := [response]; h_resolved := None;
                   h_buffer := wsResponseBuffer |}
      end
  | None => {| h_frames := []; h_resolved := None;
               h_buffer := wsResponseBuffer |}
  end.

End FrameCodec.

(** ** The types of [types/index.ts] *)

(** [MCPTool].  The fields hold what the runtime puts there: a tool
    read from a [tools/list] answer carries whatever JSON values the
    provider sent. *)
Module MCPTool.
Record t := {
  name : option Json;
  description : option Json;
  inputSchema : option Json
}.
End MCPTool.

(** [MCPToolCall]; [result] and [error] are not read by the service. *)
Module MCPToolCall.
Record t := {
  id : string;
  name : string;
  arguments : Json
}.
End MCPToolCall.

Inductive Status : Type := connected | disconnected | error.

Definition Status_eqb (a b : Status) : bool :=
  match a, b with
  | connected, connected | disconnected, disconnected | error, error => true
  | _, _ => false
  end.

(** [MCPServer]. *)
Module MCPServer.
Record t := {
  id : string;
  name : string;
  url : string;
  transport : string;
  command : option string;
  args : option (list string);
  env : option (gmap string string);
  status : Status;
  tools : list MCPTool.t;
  resources : Json;
  disabled : option bool
}.

Definition set_status (v : Status) (s : t) : t :=
  {| id := id s; name := name s; url := url s; transport := transport s;
     command := command s; args := args s; env := env s; status := v;
     tools := tools s; resources := resources s; disabled := disabled s |}.

Definition set_tools (v : list MCPTool.t) (s : t) : t :=
  {| id := id s; name := name s; url := url s; transport := transport s;
     command := command s; args := args s; env := env s; status := status s;
     tools := v; resources := resources s; disabled := disabled s |}.

Definition set_resources (v : Json) (s : t) : t :=
  {| id := id s; name := name s; url := url s; transport := transport s;
     command := command s; args := args s; env := env s; status := status s;
     tools := tools s; resources := v; disabled := disabled s |}.
End MCPServer.

(** ** Configuration documents

    One entry of a configuration document, at the shape the
    specification and [MCPServer] give it; an absent key is [None]. *)
Module ServerConfig.
Record t := {
  id : option string;            (* read in the array format only *)
  name : option string;
  url : option string;
  transport : option string;
  command : option string;
  args : option (list string);
  env : option (gmap string string);
  tools : option (list MCPTool.t);
  resources : option Json;
  disabled : option bool
}.
End ServerConfig.

(** The parsed document.  An entry that is [null] is [None]. *)
Inductive ConfigDoc : Type :=
| ClaudeDesktop (mcpServers : list (string * option ServerConfig.t))
    (* [{"mcpServers": {...}}], in the order of [Object.entries] *)
| DirectArray (items : list (option ServerConfig.t))
| OtherDocument      (* any other value but [null] *)
| NullDocument.

(** ** JavaScript's [||] and an insertion-ordered [Map] *)

Module Js.

(** [v || d] on an optional string: the empty string is falsy. *)
Definition or_string (v : option string) (d : string) : string :=
  match v with
  | Some s => if JsString.is_empty s then d else s
  | None => d
  end.

Definition truthy_string (v : option string) : bool :=
  match v with
  | Some s => negb (JsString.is_empty s)
  | None => false
  end.

(** [Map.prototype.get]. *)
Definition map_get {V} (k : string) (m : list (string * V)) : option V :=
  JsValue.assoc k m.

(** [Map.prototype.set]: a key already present keeps its place. *)
Fixpoint map_set {V} (k : string) (v : V) (m : list (string * V))
  : list (string * V) :=
  match m with
  | [] => [(k, v)]
  | (k', v') :: r =>
      if String.eqb k k' then (k', v) :: r else (k', v') :: map_set k v r
  end.

(** ToString, as a template literal applies it. *)
Definition to_string_prim (v : Json) : option string :=
  match v with
  | JNull => Some "null"
  | JBool true => Some "true"
  | JBool false => Some "false"
  | JNum n =>
      Some (if n <? 0 then "-" +:+ JsString.of_nat (Z.to_nat (- n))
            else JsString.of_nat (Z.to_nat n))
  | JStr s => Some s
  | JObj _ => Some "[object Object]"
  | JArr _ => None
  end.

Fixpoint join_with (sep : string) (l : list string) : string :=
  match l with
  | [] => ""
  | [s] => s
  | s :: r => s +:+ sep +:+ join_with sep r
  end.

Fixpoint to_string (v : Json) : string :=
  match v with
  | JArr items =>
      join_with ","
        (map (fun x => match x with JNull => "" | _ => to_string x end) items)
  | _ => default "" (to_string_prim v)
  end.

Definition to_string_opt (v : option Json) : string :=
  match v with
  | None => "undefined"
  | Some x => to_string x
  end.

End Js.

(** ** Reading a configuration document

    [JSON.parse] gives the service an untyped value; these functions
    view it at the shape of [ConfigDoc], for documents of the two
    shapes the service accepts (keys that are not array indices, values
    of the declared types; a value of another type counts as absent). *)

Module ReadConfig.

Definition string_of (v : option Json) : option string :=
  match v with Some (JStr s) => Some s | _ => None end.

Definition bool_of (v : option Json) : option bool :=
  match v with Some (JBool b) => Some b | _ => None end.

Definition strings_of (v : option Json) : option (list string) :=
  match v with
  | Some (JArr l) => mapM (fun x => string_of (Some x)) l
  | _ => None
  end.

Definition env_of (v : option Json) : option (gmap string string) :=
  match v with
  | Some (JObj kvs) =>
      list_to_map <$> mapM (fun kv => pair kv.1 <$> string_of (Some kv.2)) kvs
  | _ => None
  end.

Definition tool_of (v : Json) : option MCPTool.t :=
  match v with
  | JObj o => Some {| MCPTool.name := JsValue.assoc "name" o;
                      MCPTool.description := JsValue.assoc "description" o;
                      MCPTool.inputSchema := JsValue.assoc "inputSchema" o |}
  | _ => None
  end.

Definition tools_of (v : option Json) : option (list MCPTool.t) :=
  match v with
  | Some (JArr l) => mapM tool_of l
  | _ => None
  end.

Definition fields (v : Json) : list (string * Json) :=
  match v with JObj o => o | _ => [] end.

(** One entry; [null] is [None]. *)
Definition entry_of (v : Json) : option ServerConfig.t :=
  match v with
  | JNull => None
  | _ =>
      let o := fields v in
      Some {| ServerConfig.id := string_of (JsValue.assoc "id" o);
              ServerConfig.name := string_of (JsValue.assoc "name" o);
              ServerConfig.url := string_of (JsValue.assoc "url" o);
              ServerConfig.transport := string_of (JsValue.assoc "transport" o);
              ServerConfig.command := string_of (JsValue.assoc "command" o);
              ServerConfig.args := strings_of (JsValue.assoc "args" o);
              ServerConfig.env := env_of (JsValue.assoc "env" o);
              ServerConfig.tools := tools_of (JsValue.assoc "tools" o);
              ServerConfig.resources := JsValue.assoc "resources" o;
              ServerConfig.disabled := bool_of (JsValue.assoc "disabled" o) |}
  end.

Definition document_of (v : Json) : ConfigDoc :=
  match v with
  | JNull => NullDocument
  | JArr items => DirectArray (map entry_of items)
  | JObj o =>
      match JsValue.assoc "mcpServers" o with
      | Some (JObj entries) =>
          ClaudeDesktop (map (fun kv => (kv.1, entry_of kv.2)) entries)
      | _ => OtherDocument
      end
  | _ => OtherDocument
  end.

End ReadConfig.

(** ** The configuration loader *)

Definition empty_schema : Json :=
  JObj [("type", JStr "object"); ("properties", JObj []); ("required", JArr [])].

(** The placeholder of [parseServerConfig]. *)
Definition placeholder_tool (id name : string) : MCPTool.t :=
  {| MCPTool.name := Some (JStr (id +:+ "_tool"));
     MCPTool.description := Some (JStr ("Tool from " +:+ name));
     MCPTool.inputSchema := Some empty_schema |}.

(** [parseServerConfig(id, config)]; it returns [null] when [config]
    is [null], through its [catch]. *)
Definition parseServerConfig (id : string) (config : option ServerConfig.t)
  : option MCPServer.t :=
  match config with
  | None => None
  | Some config =>
      let name := Js.or_string (ServerConfig.name config) id in
      let tools := default [] (ServerConfig.tools config) in
      let command := ServerConfig.command config in
      Some
        {| MCPServer.id := id;
           MCPServer.name := name;
           MCPServer.url := Js.or_string (ServerConfig.url config) ("stdio://" +:+ id);
           MCPServer.transport := Js.or_string (ServerConfig.transport config) "stdio";
           MCPServer.command := command;
           MCPServer.args := Some (default [] (ServerConfig.args config));
           MCPServer.env := Some (default ∅ (ServerConfig.env config));
           MCPServer.status := disconnected;
           MCPServer.tools :=
             if (length tools =? 0)%nat && Js.truthy_string command
             then [placeholder_tool id name]
             else tools;
           MCPServer.resources :=
             match ServerConfig.resources config with
             | Some r => if JsValue.truthy (Some r) then r else JArr []
             | None => JArr []
             end;
           MCPServer.disabled := Some (default false (ServerConfig.disabled config)) |}
  end.

Definition string_property (description : string) : Json :=
  JObj [("type", JStr "string"); ("description", JStr description)].

Definition read_file_tool : MCPTool.t :=
  {| MCPTool.name := Some (JStr "read_file");
     MCPTool.description := Some (JStr "Read the contents of a file");
     MCPTool.inputSchema := Some (JObj
       [("type", JStr "object");
        ("properties", JObj [("path", string_property "Path to the file")]);
        ("required", JArr [JStr "path"])]) |}.

Definition write_file_tool : MCPTool.t :=
  {| MCPTool.name := Some (JStr "write_file");
     MCPTool.description := Some (JStr "Write content to a file");
     MCPTool.inputSchema := Some (JObj
       [("type", JStr "object");
        ("properties", JObj [("path", string_property "Path to the file");
                              ("content", string_property "Content to write")]);
        ("required", JArr [JStr "path"; JStr "content"])]) |}.

Definition search_web_tool : MCPTool.t :=
  {| MCPTool.name := Some (JStr "search_web");
     MCPTool.description := Some (JStr "Search the web for information");
     MCPTool.inputSchema := Some (JObj
       [("type", JStr "object");
        ("properties", JObj
           [("query", string_property "Search query");
            ("limit", JObj [("type", JStr "number");
                            ("description", JStr "Maximum number of results")])]);
        ("required", JArr [JStr "query"])]) |}.

Definition filesystem_server : MCPServer.t :=
  {| MCPServer.id := "filesystem";
     MCPServer.name := "File System Tools";
     MCPServer.url := "stdio://filesystem";
     MCPServer.transport := "stdio";
     MCPServer.command := None;
     MCPServer.args := None;
     MCPServer.env := None;
     MCPServer.status := disconnected;
     MCPServer.tools := [read_file_tool; write_file_tool];
     MCPServer.resources := JArr [];
     MCPServer.disabled := None |}.

Definition web_search_server : MCPServer.t :=
  {| MCPServer.id := "web-search";
     MCPServer.name := "Web Search Tools";
     MCPServer.url := "stdio://web-search";
     MCPServer.transport := "stdio";
     MCPServer.command := None;
     MCPServer.args := None;
     MCPServer.env := None;
     MCPServer.status := disconnected;
     MCPServer.tools := [search_web_tool];
     MCPServer.resources := JArr [];
     MCPServer.disabled := None |}.

Definition exampleServers : list MCPServer.t :=
  [filesystem_server; web_search_server].

(** The first loop of [loadServersFromConfig]. *)
Definition parse_entries (entries : list (string * option ServerConfig.t))
  : list MCPServer.t :=
  omap (fun e => parseServerConfig e.1 e.2) entries.

(** The [forEach] of its second loop, from index [index]; reading
    [serverConfig.id] of a [null] item throws, which is [None]. *)
Fixpoint parse_items (index : nat) (items : list (option ServerConfig.t))
  : option (list MCPServer.t) :=
  match items with
  | [] => Some []
  | None :: _ => None
  | Some serverConfig :: rest =>
      let id := Js.or_string (ServerConfig.id serverConfig)
                  ("server-" +:+ JsString.of_nat index) in
      match parse_items (S index) rest with
      | Some servers =>
          Some (match parseServerConfig id (Some serverConfig) with
                | Some server => server :: servers
                | None => servers
                end)
      | None => None
      end
  end.

(** The local [servers] array of [loadServersFromConfig]; [None] when
    building it throws. *)
Definition config_servers (config : ConfigDoc) : option (list MCPServer.t) :=
  match config with
  | ClaudeDesktop mcpServers => Some (parse_entries mcpServers)
  | DirectArray items => parse_items 0 items
  | OtherDocument => Some []
  | NullDocument => None
  end.

(** ** The state of the service and of what it drives *)

(** A value of [ChildProcess | WebSocket]: which process, which socket. *)
Inductive Connection : Type :=
| ChildProcess (pid : nat)
| WebSocket (wid : nat).

Definition Connection_eqb (a b : Connection) : bool :=
  match a, b with
  | ChildProcess p, ChildProcess q => (p =? q)%nat
  | WebSocket p, WebSocket q => (p =? q)%nat
  | _, _ => false
  end.

(** The protocol messages the service writes: requests, which carry an
    [id], and notifications, which do not. *)
Record Request := {
  req_id : Z;
  req_method : string;
  req_params : option Json
}.

Record Notification := {
  ntf_method : string;
  ntf_params : option Json
}.

Inductive Message : Type :=
| Req (r : Request)
| Ntf (n : Notification).

(** The host process: [process.env], [os.homedir()] and
    [os.userInfo().username]. *)
Record Host := {
  process_env : gmap string string;
  homedir : string;
  username : string
}.

(** A child process as the service sees it. *)
Record Child := {
  cp_server : nat;                    (* the [server] its listeners close over *)
  cp_command : string;
  cp_args : list string;
  cp_env : gmap string string;
  cp_stdin : list Message;            (* written to [stdin], oldest first *)
  cp_killed : bool;                   (* [kill()] was called *)
  cp_connect : option bool            (* the promise of [connectStdioServer] *)
}.

Record Socket := {
  ws_server : nat;
  ws_url : string;
  ws_sent : list Message;
  ws_closed : bool;                   (* [close()] was called *)
  ws_connect : option bool            (* the promise of [connectWebSocketServer] *)
}.

(** How a promise of [sendMessage] was settled. *)
Inductive Settled : Type :=
| Resolved (response : Json)
| Rejected (message : string).

(** Who awaits a promise of [sendMessage]: [executeTool], or one of the
    three requests of [initializeServerConnection] for the [server]
    object it was given. *)
Inductive Caller : Type :=
| FromExecuteTool
| FromInitialize (server : nat)
| FromToolsList (server : nat)
| FromResourcesList (server : nat).

(** One call of [sendMessage] that reached [new Promise]: its closure
    variables, its listener and its timer. *)
Record PendingCall := {
  pc_connection : Connection;
  pc_serverName : string;
  pc_message : Request;
  pc_buffer : string;                 (* [responseBuffer] / [wsResponseBuffer] *)
  pc_listening : bool;                (* [responseHandler] is registered *)
  pc_settled : option Settled;
  pc_deadline : Z;                    (* when the [setTimeout] callback runs *)
  pc_timer : bool;                    (* that callback has not run yet *)
  pc_caller : Caller
}.

Record State := {
  servers : list (string * nat);      (* [this.servers], values are store indices *)
  store : list MCPServer.t;           (* the [MCPServer] objects *)
  connections : gmap string Connection;   (* [this.connections] *)
  children : list Child;              (* every process spawned, by pid *)
  sockets : list Socket;
  calls : list PendingCall;
  host : Host;
  Date_now : Z;                       (* [Date.now()] *)
  clock : Z;                          (* the timers' clock, in ms *)
  config_file : option string         (* what [writeFile] last wrote *)
}.

Module Upd.

Definition on_servers (f : list (string * nat) -> list (string * nat)) (st : State) : State :=
  {| servers := f (servers st); store := store st; connections := connections st;
     children := children st; sockets := sockets st; calls := calls st;
     host := host st; Date_now := Date_now st; clock := clock st;
     config_file := config_file st |}.

Definition on_store (f : list MCPServer.t -> list MCPServer.t) (st : State) : State :=
  {| servers := servers st; store := f (store st); connections := connections st;
     children := children st; sockets := sockets st; calls := calls st;
     host := host st; Date_now := Date_now st; clock := clock st;
     config_file := config_file st |}.

Definition on_connections (f : gmap string Connection -> gmap string Connection)
    (st : State) : State :=
  {| servers := servers st; store := store st; connections := f (connections st);
     children := children st; sockets := sockets st; calls := calls st;
     host := host st; Date_now := Date_now st; clock := clock st;
     config_file := config_file st |}.

Definition on_children (f : list Child -> list Child) (st : State) : State :=
  {| servers := servers st; store := store st; connections := connections st;
     children := f (children st); sockets := sockets st; calls := calls st;
     host := host st; Date_now := Date_now st; clock := clock st;
     config_file := config_file st |}.

Definition on_sockets (f : list Socket -> list Socket) (st : State) : State :=
  {| servers := servers st; store := store st; connections := connections st;
     children := children st; sockets := f (sockets st); calls := calls st;
     host := host st; Date_now := Date_now st; clock := clock st;
     config_file := config_file st |}.

Definition on_calls (f : list PendingCall -> list PendingCall) (st : State) : State :=
  {| servers := servers st; store := store st; connections := connections st;
     children := children st; sockets := sockets st; calls := f (calls st);
     host := host st; Date_now := Date_now st; clock := clock st;
     config_file := config_file st |}.

Definition set_time (now mono : Z) (st : State) : State :=
  {| servers := servers st; store := store st; connections := connections st;
     children := children st; sockets := sockets st; calls := calls st;
     host := host st; Date_now := now; clock := mono;
     config_file := config_file st |}.

Definition set_config_file (content : string) (st : State) : State :=
  {| servers := servers st; store := store st; connections := connections st;
     children := children st; sockets := sockets st; calls := calls st;
     host := host st; Date_now := Date_now st; clock := clock st;
     config_file := Some content |}.

(** [server.status = v] on the object at [ref]. *)
Definition status (ref : nat) (v : Status) : State -> State :=
  on_store (alter (MCPServer.set_status v) ref).

Definition child (pid : nat) (f : Child -> Child) : State -> State :=
  on_children (alter f pid).

Definition socket (wid : nat) (f : Socket -> Socket) : State -> State :=
  on_sockets (alter f wid).

Definition write (m : Message) (c : Child) : Child :=
  {| cp_server := cp_server c; cp_command := cp_command c; cp_args := cp_args c;
     cp_env := cp_env c; cp_stdin := cp_stdin c ++ [m]; cp_killed := cp_killed c;
     cp_connect := cp_connect c |}.

Definition kill (c : Child) : Child :=
  {| cp_server := cp_server c; cp_command := cp_command c; cp_args := cp_args c;
     cp_env := cp_env c; cp_stdin := cp_stdin c; cp_killed := true;
     cp_connect := cp_connect c |}.

(** [resolve(v)] of [connectStdioServer]: only the first call counts. *)
Definition child_resolve (v : bool) (c : Child) : Child :=
  {| cp_server := cp_server c; cp_command := cp_command c; cp_args := cp_args c;
     cp_env := cp_env c; cp_stdin := cp_stdin c; cp_killed := cp_killed c;
     cp_connect := match cp_connect c with Some b => Some b | None => Some v end |}.

Definition send (m : Message) (s : Socket) : Socket :=
  {| ws_server := ws_server s; ws_url := ws_url s; ws_sent := ws_sent s ++ [m];
     ws_closed := ws_closed s; ws_connect := ws_connect s |}.

Definition close (s : Socket) : Socket :=
  {| ws_server := ws_server s; ws_url := ws_url s; ws_sent := ws_sent s;
     ws_closed := true; ws_connect := ws_connect s |}.

Definition socket_resolve (v : bool) (s : Socket) : Socket :=
  {| ws_server := ws_server s; ws_url := ws_url s; ws_sent := ws_sent s;
     ws_closed := ws_closed s;
     ws_connect := match ws_connect s with Some b => Some b | None => Some v end |}.

End Upd.

(** ** [MCPService]: connecting *)

Definition default_PATH : string := "/usr/local/bin:/usr/bin:/bin:/usr/sbin:/sbin".
Definition default_SHELL : string := "/bin/zsh".

(** The [mergedEnv] of [connectStdioServer]:
    [{...process.env, ...server.env, PATH: ..., SHELL: ..., HOME: ..., USER: ...}]. *)
Definition mergedEnv (h : Host) (server_env : option (gmap string string))
  : gmap string string :=
  let penv := process_env h in
  <["USER" := Js.or_string (penv !! "USER") (username h)]>
    (<["HOME" := Js.or_string (penv !! "HOME") (homedir h)]>
      (<["SHELL" := Js.or_string (penv !! "SHELL") default_SHELL]>
        (<["PATH" := Js.or_string (penv !! "PATH") default_PATH]>
          (default ∅ server_env ∪ penv)))).

(** [this.servers.get(serverId)], with the object it designates. *)
Definition get_server (serverId : string) (st : State) : option (nat * MCPServer.t) :=
  match Js.map_get serverId (servers st) with
  | Some ref =>
      match store st !! ref with
      | Some server => Some (ref, server)
      | None => None
      end
  | None => None
  end.

(** What [await connectToServer(id)] gives: an exception, a value at
    once, or the value a later event of the transport decides. *)
Inductive Connecting : Type :=
| ConnectThrows (message : string)
| ConnectReturns (success : bool)
| ConnectAwaits (transport : Connection).

Definition connectStdioServer (ref : nat) (server : MCPServer.t) (st : State)
  : Connecting * State :=
  match MCPServer.command server with
  | Some command =>
      if JsString.is_empty command then
        (ConnectReturns true, Upd.status ref connected st)
      else
        let childProcess :=
          {| cp_server := ref;
             cp_command := command;
             cp_args := default [] (MCPServer.args server);
             cp_env := mergedEnv (host st) (MCPServer.env server);
             cp_stdin := [];
             cp_killed := false;
             cp_connect := None |} in
        (ConnectAwaits (ChildProcess (length (children st))),
         Upd.on_children (fun l => l ++ [childProcess]) st)
  | None => (ConnectReturns true, Upd.status ref connected st)
  end.

Section Connect.

(** Whether [new WebSocket(url)] accepts the address. *)
Variable valid_url : string -> bool.

Definition connectWebSocketServer (ref : nat) (server : MCPServer.t) (st : State)
  : Connecting * State :=
  if valid_url (MCPServer.url server) then
    let ws :=
      {| ws_server := ref; ws_url := MCPServer.url server; ws_sent := [];
         ws_closed := false; ws_connect := None |} in
    (ConnectAwaits (WebSocket (length (sockets st))),
     Upd.on_sockets (fun l => l ++ [ws]) st)
  else (ConnectReturns false, st).

Definition connectSSEServer (st : State) : Connecting * State :=
  (ConnectReturns false, st).

Definition connectToServer (serverId : string) (st : State) : Connecting * State :=
  match get_server serverId st with
  | None => (ConnectThrows ("Server " +:+ serverId +:+ " not found"), st)
  | Some (ref, server) =>
      if String.eqb (MCPServer.transport server) "stdio" then
        connectStdioServer ref server st
      else if String.eqb (MCPServer.transport server) "websocket" then
        connectWebSocketServer ref server st
      else if String.eqb (MCPServer.transport server) "sse" then
        connectSSEServer st
      else
        (* [throw new Error('Unsupported transport')], caught *)
        (ConnectReturns false, Upd.status ref error st)
  end.

End Connect.

(** ** Sending *)

Definition timeoutMs : Z := 120000.

(** What a call of [sendMessage] gives at once: an exception, or the
    promise numbered [call]. *)
Inductive Sending : Type :=
| SendThrows (message : string)
| SendPending (call : nat).

Definition serverName_of (serverId : string) (st : State) : string :=
  match get_server serverId st with
  | Some (_, server) => Js.or_string (Some (MCPServer.name server)) serverId
  | None => serverId
  end.

Definition sendMessage (serverId : string) (message : Request) (caller : Caller)
    (st : State) : Sending * State :=
  match connections st !! serverId with
  | None => (SendThrows ("No connection found for server " +:+ serverId), st)
  | Some connection =>
      let call :=
        {| pc_connection := connection;
           pc_serverName := serverName_of serverId st;
           pc_message := message;
           pc_buffer := "";
           pc_listening := true;
           pc_settled := None;
           pc_deadline := clock st + timeoutMs;
           pc_timer := true;
           pc_caller := caller |} in
      let st1 :=
        match connection with
        | ChildProcess pid => Upd.child pid (Upd.write (Req message)) st
        | WebSocket wid => Upd.socket wid (Upd.send (Req message)) st
        end in
      (SendPending (length (calls st)), Upd.on_calls (fun l => l ++ [call]) st1)
  end.

Definition sendNotification (serverId : string) (message : Notification)
    (st : State) : State :=
  match connections st !! serverId with
  | None => st
  | Some (ChildProcess pid) => Upd.child pid (Upd.write (Ntf message)) st
  | Some (WebSocket wid) => Upd.socket wid (Upd.send (Ntf message)) st
  end.

(** ** [executeTool] *)

Definition has_name (n : string) (t : MCPTool.t) : bool :=
  match MCPTool.name t with
  | Some (JStr s) => String.eqb s n
  | _ => false
  end.

Definition tools_call (now : Z) (toolCall : MCPToolCall.t) : Request :=
  {| req_id := now;
     req_method := "tools/call";
     req_params := Some (JObj [("name", JStr (MCPToolCall.name toolCall));
                               ("arguments", MCPToolCall.arguments toolCall)]) |}.

(** Up to the [await]: an exception at once, or the promise whose
    settlement decides the result. *)
Definition executeTool (serverId : string) (toolCall : MCPToolCall.t) (st : State)
  : Sending * State :=
  match get_server serverId st with
  | None => (SendThrows ("Server " +:+ serverId +:+ " is not connected"), st)
  | Some (_, server) =>
      if negb (Status_eqb (MCPServer.status server) connected) then
        (SendThrows ("Server " +:+ serverId +:+ " is not connected"), st)
      else
        match find (has_name (MCPToolCall.name toolCall)) (MCPServer.tools server) with
        | None =>
            (SendThrows ("Tool " +:+ MCPToolCall.name toolCall +:+
                         " not found on server " +:+ serverId), st)
        | Some _ =>
            sendMessage serverId (tools_call (Date_now st) toolCall) FromExecuteTool st
        end
  end.


(** ** Listing and disconnecting *)

Definition getAvailableServers (st : State) : list MCPServer.t :=
  omap (fun e => store st !! e.2) (servers st).

Definition getAvailableTools (st : State) : list MCPTool.t :=
  concat (map (fun server =>
                 if Status_eqb (MCPServer.status server) connected
                 then MCPServer.tools server else [])
              (getAvailableServers st)).

Definition disconnectServer (serverId : string) (st : State) : State :=
  let st1 :=
    match connections st !! serverId with
    | Some (ChildProcess pid) =>
        Upd.on_connections (delete serverId) (Upd.child pid Upd.kill st)
    | Some (WebSocket wid) =>
        Upd.on_connections (delete serverId) (Upd.socket wid Upd.close st)
    | None => st
    end in
  match Js.map_get serverId (servers st1) with
  | Some ref => Upd.status ref disconnected st1
  | None => st1
  end.

Definition disconnectAll (st : State) : State :=
  foldl (fun s serverId => disconnectServer serverId s) st (map fst (servers st)).

(** ** Loading and updating the configuration *)

(** [this.servers.set(server.id, server)] for a new object. *)
Definition set_server (server : MCPServer.t) (st : State) : State :=
  Upd.on_servers (Js.map_set (MCPServer.id server) (length (store st)))
    (Upd.on_store (fun l => l ++ [server]) st).

Definition set_servers (l : list MCPServer.t) (st : State) : State :=
  foldl (fun s server => set_server server s) st l.

Definition initializeExampleServers (st : State) : State :=
  set_servers exampleServers st.

(** [None] when it throws. *)
Definition loadServersFromConfig (config : ConfigDoc) (st : State) : option State :=
  match config_servers config with
  | Some [] => Some (initializeExampleServers st)
  | Some servers => Some (set_servers servers st)
  | None => None
  end.

Inductive Updating : Type := UpdateDone | UpdateThrows.

Section UpdateConfig.

(** [JSON.parse(configContent)], the value seen at the shape of
    [ConfigDoc]; [None] when it throws. *)
Variable read_config : string -> option ConfigDoc.

(** [write_ok]: whether [fs.writeFile] succeeds. *)
Definition updateConfig (configContent : string) (write_ok : bool) (st : State)
  : Updating * State :=
  match read_config configContent with
  | None => (UpdateThrows, st)
  | Some config =>
      if write_ok then
        let st1 := Upd.set_config_file configContent st in
        match loadServersFromConfig config st1 with
        | Some st2 => (UpdateDone, st2)
        | None => (UpdateThrows, st1)
        end
      else (UpdateThrows, st)
  end.

End UpdateConfig.

(** The service after its constructor has run [loadServerConfigurations]
    on the document [config] of the configuration file, [None] if the
    file cannot be read or parsed. *)
Definition new_MCPService (h : Host) (now : Z) (config : option ConfigDoc) : State :=
  let st :=
    {| servers := []; store := []; connections := ∅; children := [];
       sockets := []; calls := []; host := h; Date_now := now; clock := 0;
       config_file := None |} in
  match config with
  | Some doc => default (initializeExampleServers st) (loadServersFromConfig doc st)
  | None => initializeExampleServers st
  end.

(** ** The handshake of [initializeServerConnection] *)

Definition initialize_request : Request :=
  {| req_id := 1;
     req_method := "initialize";
     req_params := Some (JObj
       [("protocolVersion", JStr "2024-11-05");
        ("capabilities", JObj [("tools", JObj []); ("resources", JObj [])]);
        ("clientInfo", JObj [("name", JStr "webchat-ui"); ("version", JStr "1.0.0")])]) |}.

Definition initialized_notification : Notification :=
  {| ntf_method := "notifications/initialized"; ntf_params := None |}.

Definition tools_list_request : Request :=
  {| req_id := 2; req_method := "tools/list"; req_params := None |}.

Definition resources_list_request : Request :=
  {| req_id := 3; req_method := "resources/list"; req_params := None |}.

(** [response.result && response.result[key]]. *)
Definition result_field (key : string) (response : Json) : option Json :=
  match JsValue.get "result" response with
  | Some result =>
      if JsValue.truthy result then
        match result with
        | Some r => default None (JsValue.get key r)
        | None => None
        end
      else result
  | None => None
  end.

(** The callback of [toolsResponse.result.tools.map]; [None] when
    [tool] is [null]. *)
Definition parsedTool (serverName : string) (tool : Json) : option MCPTool.t :=
  match JsValue.get "name" tool, JsValue.get "description" tool,
        JsValue.get "inputSchema" tool with
  | Some name, Some description, Some inputSchema =>
      Some {| MCPTool.name := name;
              MCPTool.description :=
                if JsValue.truthy description then description
                else Some (JStr ("Tool " +:+ Js.to_string_opt name +:+
                                 " from " +:+ serverName));
              MCPTool.inputSchema :=
                if JsValue.truthy inputSchema then inputSchema
                else Some empty_schema |}
  | _, _, _ => None
  end.

(** Step 4 of the handshake on the answer to [tools/list]. *)
Inductive Discovery : Type :=
| DiscoveryThrows
| KeepTools                             (* "keeping existing tools" *)
| ReplaceTools (tools : list MCPTool.t).

Definition discover (serverName : string) (toolsResponse : Json) : Discovery :=
  let tools := result_field "tools" toolsResponse in
  if JsValue.truthy tools then
    match tools with
    | Some (JArr items) =>
        match mapM (parsedTool serverName) items with
        | Some l => ReplaceTools l
        | None => DiscoveryThrows
        end
    | _ => DiscoveryThrows              (* no [map] on this value *)
    end
  else KeepTools.

(** What [initializeServerConnection] does once the promise it awaits
    is resolved with [response]. *)
Definition resume (caller : Caller) (response : Json) (st : State) : State :=
  match caller with
  | FromExecuteTool => st
  | FromInitialize ref =>
      match store st !! ref with
      | Some server =>
          let st1 := sendNotification (MCPServer.id server) initialized_notification st in
          (sendMessage (MCPServer.id server) tools_list_request (FromToolsList ref) st1).2
      | None => st
      end
  | FromToolsList ref =>
      match store st !! ref with
      | Some server =>
          match discover (MCPServer.name server) response with
          | DiscoveryThrows => st
          | KeepTools =>
              (sendMessage (MCPServer.id server) resources_list_request
                 (FromResourcesList ref) st).2
          | ReplaceTools l =>
              (sendMessage (MCPServer.id server) resources_list_request
                 (FromResourcesList ref)
                 (Upd.on_store (alter (MCPServer.set_tools l) ref) st)).2
          end
      | None => st
      end
  | FromResourcesList ref =>
      let resources := result_field "resources" response in
      if JsValue.truthy resources then
        match resources with
        | Some r => Upd.on_store (alter (MCPServer.set_resources r) ref) st
        | None => st
        end
      else st
  end.

Definition initializeServerConnection (ref : nat) (st : State) : State :=
  match store st !! ref with
  | Some server =>
      (sendMessage (MCPServer.id server) initialize_request (FromInitialize ref) st).2
  | None => st
  end.

(** ** The events of the runtime *)

Definition on_spawn (pid : nat) (st : State) : State :=
  match children st !! pid with
  | Some child =>
      let ref := cp_server child in
      match store st !! ref with
      | Some server =>
          let st1 := Upd.status ref connected st in
          let st2 := Upd.on_connections (insert (MCPServer.id server) (ChildProcess pid)) st1 in
          let st3 := initializeServerConnection ref st2 in
          Upd.child pid (Upd.child_resolve true) st3
      | None => st
      end
  | None => st
  end.

Definition on_error (pid : nat) (st : State) : State :=
  match children st !! pid with
  | Some child =>
      Upd.child pid (Upd.child_resolve false) (Upd.status (cp_server child) error st)
  | None => st
  end.

Definition on_exit (pid : nat) (st : State) : State :=
  match children st !! pid with
  | Some child =>
      let ref := cp_server child in
      match store st !! ref with
      | Some server =>
          Upd.on_connections (delete (MCPServer.id server))
            (Upd.status ref disconnected st)
      | None => st
      end
  | None => st
  end.

Definition on_open (wid : nat) (st : State) : State :=
  match sockets st !! wid with
  | Some ws =>
      let ref := ws_server ws in
      match store st !! ref with
      | Some server =>
          Upd.socket wid (Upd.socket_resolve true)
            (Upd.on_connections (insert (MCPServer.id server) (WebSocket wid))
               (Upd.status ref connected st))
      | None => st
      end
  | None => st
  end.

Definition on_ws_error (wid : nat) (st : State) : State :=
  match sockets st !! wid with
  | Some ws =>
      Upd.socket wid (Upd.socket_resolve false) (Upd.status (ws_server ws) error st)
  | None => st
  end.

Definition on_close (wid : nat) (st : State) : State :=
  match sockets st !! wid with
  | Some ws =>
      let ref := ws_server ws in
      match store st !! ref with
      | Some server =>
          Upd.on_connections (delete (MCPServer.id server))
            (Upd.status ref disconnected st)
      | None => st
      end
  | None => st
  end.

(** A listener after its handler ran: [resolve] settles the promise
    only if it is still pending, and the handler unregisters itself. *)
Definition handled (h : Handled) (c : PendingCall) : PendingCall :=
  {| pc_connection := pc_connection c;
     pc_serverName := pc_serverName c;
     pc_message := pc_message c;
     pc_buffer := h_buffer h;
     pc_listening := match h_resolved h with Some _ => false | None => pc_listening c end;
     pc_settled :=
       match h_resolved h, pc_settled c with
       | Some response, None => Some (Resolved response)
       | _, s => s
       end;
     pc_deadline := pc_deadline c;
     pc_timer := pc_timer c;
     pc_caller := pc_caller c |}.

(** The callback of [setTimeout]: unregister the handler, [reject]. *)
Definition timeout_message (c : PendingCall) : string :=
  match pc_connection c with
  | ChildProcess _ => "MCP request timeout after 120s for server " +:+ pc_serverName c
  | WebSocket _ => "MCP WebSocket request timeout after 120s for server " +:+ pc_serverName c
  end.

Definition timed_out (c : PendingCall) : PendingCall :=
  {| pc_connection := pc_connection c;
     pc_serverName := pc_serverName c;
     pc_message := pc_message c;
     pc_buffer := pc_buffer c;
     pc_listening := false;
     pc_settled :=
       match pc_settled c with
       | None => Some (Rejected (timeout_message c))
       | s => s
       end;
     pc_deadline := pc_deadline c;
     pc_timer := false;
     pc_caller := pc_caller c |}.

Section Events.

Variable JSON_parse : string -> option Json.

(** One listener of [stdout] of [pid] on a chunk. *)
Definition hear_stdout (pid : nat) (data : list byte) (c : PendingCall) : PendingCall :=
  if pc_listening c && Connection_eqb (pc_connection c) (ChildProcess pid) then
    handled (responseHandler JSON_parse (req_id (pc_message c)) (pc_buffer c) data) c
  else c.

Definition hear_message (wid : nat) (data : string) (c : PendingCall) : PendingCall :=
  if pc_listening c && Connection_eqb (pc_connection c) (WebSocket wid) then
    handled (wsResponseHandler JSON_parse (req_id (pc_message c)) (pc_buffer c) data) c
  else c.

(** The promises an event resolved, oldest first: they were pending
    before and are resolved after. *)
Definition newly_resolved (before after : list PendingCall) : list (Caller * Json) :=
  omap (fun p =>
          match pc_settled p.1, pc_settled p.2 with
          | None, Some (Resolved response) => Some (pc_caller p.2, response)
          | _, _ => None
          end)
       (zip before after).

(** An event delivered to every listener, then the continuations of
    the promises it resolved. *)
Definition emit (hear : PendingCall -> PendingCall) (st : State) : State :=
  let after := map hear (calls st) in
  foldl (fun s r => resume r.1 r.2 s)
        (Upd.on_calls (fun _ => after) st)
        (newly_resolved (calls st) after).

Definition on_stdout (pid : nat) (data : list byte) : State -> State :=
  emit (hear_stdout pid data).

Definition on_message (wid : nat) (data : string) : State -> State :=
  emit (hear_message wid data).

End Events.

(** Time passing: [dt] milliseconds on the timers' clock, [Date.now()]
    then reading [now]; the timers that are due run. *)
Definition expire (t : Z) (c : PendingCall) : PendingCall :=
  if pc_timer c && (pc_deadline c <=? t) then timed_out c else c.

Definition elapse (dt now : Z) (st : State) : State :=
  let t := clock st + Z.max 0 dt in
  Upd.set_time now t (Upd.on_calls (map (expire t)) st).

(** ** The service as a transition system *)

Inductive Action : Type :=
| ConnectToServer (serverId : string)
| DisconnectServer (serverId : string)
| DisconnectAll
| ExecuteTool (serverId : string) (toolCall : MCPToolCall.t)
| UpdateConfig (configContent : string) (write_ok : bool)
| Spawn (pid : nat)
| Error (pid : nat)
| Exit (pid : nat)
| Stdout (pid : nat) (data : list byte)
| Open (wid : nat)
| WsError (wid : nat)
| Close (wid : nat)
| WsMessage (wid : nat) (data : string)
| Elapse (dt now : Z).

Section Run.

Variable JSON_parse : string -> option Json.
Variable read_config : string -> option ConfigDoc.
Variable valid_url : string -> bool.

Definition step (a : Action) (st : State) : State :=
  match a with
  | ConnectToServer serverId => (connectToServer valid_url serverId st).2
  | DisconnectServer serverId => disconnectServer serverId st
  | DisconnectAll => disconnectAll st
  | ExecuteTool serverId toolCall => (executeTool serverId toolCall st).2
  | UpdateConfig configContent write_ok =>
      (updateConfig read_config configContent write_ok st).2
  | Spawn pid => on_spawn pid st
  | Error pid => on_error pid st
  | Exit pid => on_exit pid st
  | Stdout pid data => on_stdout JSON_parse pid data st
  | Open wid => on_open wid st
  | WsError wid => on_ws_error wid st
  | Close wid => on_close wid st
  | WsMessage wid data => on_message JSON_parse wid data st
  | Elapse dt now => elapse dt now st
  end.

Definition run (actions : list Action) (st : State) : State :=
  foldl (fun s a => step a s) st actions.

End Run.

(** ** Notions used in the statements *)

(** The environment the specification describes for a child: the
    host's, overlaid with the configured one, plus the four defaults
    for the keys the host lacks. *)
Definition spec_env (h : Host) (server_env : gmap string string)
  : gmap string string :=
  (server_env ∪ process_env h)
    ∪ {[ "PATH" := default_PATH ]} ∪ {[ "SHELL" := default_SHELL ]}
    ∪ {[ "HOME" := homedir h ]} ∪ {[ "USER" := username h ]}.

(** The keys [connectStdioServer] sets itself. *)
Definition pinned (k : string) : bool :=
  String.eqb k "PATH" || String.eqb k "SHELL" || String.eqb k "HOME"
  || String.eqb k "USER".

Definition pinned_default (h : Host) (k : string) : string :=
  if String.eqb k "PATH" then default_PATH
  else if String.eqb k "SHELL" then default_SHELL
  else if String.eqb k "HOME" then homedir h
  else username h.

(** The servers [loadServersFromConfig] installs for the parsed list
    [l]: the built-in ones when it is empty. *)
Definition installed (l : list MCPServer.t) : list MCPServer.t :=
  match l with
  | [] => exampleServers
  | _ => l
  end.

(** What never changes in a call. *)
Definition same_call (c c' : PendingCall) : Prop :=
  pc_connection c' = pc_connection c /\ pc_serverName c' = pc_serverName c /\
  pc_message c' = pc_message c /\ pc_deadline c' = pc_deadline c /\
  pc_caller c' = pc_caller c.

(** A call against the timers' clock [t]: its timer has run exactly
    when its deadline has come; only the timer rejects; a settled call
    has no listener. *)
Record call_ok (t : Z) (c : PendingCall) : Prop := {
  ok_waiting : pc_timer c = true -> t < pc_deadline c;
  ok_fired : pc_timer c = false ->
             pc_deadline c <= t /\ pc_settled c <> None;
  ok_rejected : forall m, pc_settled c = Some (Rejected m) ->
                pc_timer c = false /\ m = timeout_message c;
  ok_settled : pc_settled c <> None -> pc_listening c = false
}.

(** How a server object may differ from an earlier state of it: its
    tool list is the same, or is the one read from a [tools/list]
    answer. *)
Definition tools_evolve (server server' : MCPServer.t) : Prop :=
  MCPServer.id server' = MCPServer.id server /\
  MCPServer.name server' = MCPServer.name server /\
  (MCPServer.tools server' = MCPServer.tools server \/
   exists response l,
     discover (MCPServer.name server) response = ReplaceTools l /\
     MCPServer.tools server' = l).

(** What every transition keeps: the clock does not go back, the calls
    stay in place and in order against it, the server objects stay in
    place. *)
Record advances (st st' : State) : Prop := {
  adv_clock : clock st <= clock st';
  adv_calls : forall k c,
    calls st !! k = Some c -> call_ok (clock st) c ->
    exists c', calls st' !! k = Some c' /\ same_call c c' /\
               call_ok (clock st') c';
  adv_store : forall ref server,
    store st !! ref = Some server ->
    exists server', store st' !! ref = Some server' /\
                    tools_evolve server server'
}.

Definition is_resolved (c : PendingCall) : Prop :=
  exists response, pc_settled c = Some (Resolved response).

(** The ids of the requests in what was written to a child. *)
Definition request_ids (l : list Message) : list Z :=
  omap (fun m => match m with Req r => Some (req_id r) | Ntf _ => None end) l.


(** ** Concrete hosts, documents and runs for the examples *)

Module Examples.

Definition bytes (s : string) : list byte := list_byte_of_string (JsString.dq s).
Definition line (s : string) : list byte := bytes s ++ [x0a].

Definition host0 : Host :=
  {| process_env := {[ "PATH" := "/bin" ]}; homedir := "/root"; username := "root" |}.

(** The document of the specification's scenario, and one with a
    second provider. *)
Definition fs_json : string :=
  JsString.dq "{'mcpServers':{'fs':{'name':'FS','command':'echo','args':[]}}}".

Definition two_json : string :=
  JsString.dq ("{'mcpServers':{'fs':{'name':'FS','command':'echo','args':[]}," +:+
               "'git':{'name':'Git','command':'git-mcp','args':[]}}}").

Definition read_config (content : string) : option ConfigDoc :=
  ReadConfig.document_of <$> JsonText.parse content.

(** The entry of [fs] in both documents. *)
Definition fs_entry : ServerConfig.t :=
  {| ServerConfig.id := None; ServerConfig.name := Some "FS";
     ServerConfig.url := None; ServerConfig.transport := None;
     ServerConfig.command := Some "echo"; ServerConfig.args := Some [];
     ServerConfig.env := None; ServerConfig.tools := None;
     ServerConfig.resources := None; ServerConfig.disabled := None |}.


Definition go : list Action -> State -> State :=
  run JsonText.parse read_config (fun _ => true).

Definition call (name : string) : MCPToolCall.t :=
  {| MCPToolCall.id := "call-1"; MCPToolCall.name := name;
     MCPToolCall.arguments := JObj [] |}.

(** [fs] loaded from [fs_json] at [Date.now() = 1000]. *)
Definition loaded : State := new_MCPService host0 1000 (read_config fs_json).

(** ... then connected: the child 0 has spawned and the handshake
    has sent [initialize]. *)
Definition spawned : State := go [ConnectToServer "fs"; Spawn 0] loaded.

(** ... then the handshake answered, with one tool [ls]. *)
Definition ready : State :=
  go [Stdout 0 (line "{'jsonrpc':'2.0','id':1,'result':{}}");
      Stdout 0 (line "{'jsonrpc':'2.0','id':2,'result':{'tools':[{'name':'ls'}]}}");
      Stdout 0 (line "{'jsonrpc':'2.0','id':3,'result':{'resources':[]}}")]
     spawned.

(** [fs] and [git] loaded and connected, before the document is
    replaced by [fs_json]. *)
Definition both_connected : State :=
  go [ConnectToServer "fs"; Spawn 0; ConnectToServer "git"; Spawn 1]
     (new_MCPService host0 1000 (read_config two_json)).

(** A provider that configures its own PATH. *)
Definition custom_json : string :=
  JsString.dq ("{'mcpServers':{'fs':{'name':'FS','command':'echo','args':[]," +:+
               "'env':{'PATH':'/custom','TOKEN':'t0'}}}}").

Definition custom : State := new_MCPService host0 1000 (read_config custom_json).

(** The built-in providers, when there is no configuration file. *)
Definition builtin : State := new_MCPService host0 1000 None.

(** A response cut inside the two bytes of an e with acute accent. *)
Definition cut_head : list byte := bytes "{'id':7,'result':'" ++ [xc3].
Definition cut_tail : list byte := [xa9] ++ line "'}".

End Examples.

(** ** Further notions on the response handler *)

Fixpoint contains_LF (s : string) : bool :=
  match s with
  | EmptyString => false
  | String c r => Ascii.eqb c JsString.LF || contains_LF r
  end.

Section Answers.

Variable JSON_parse : string -> option Json.

(** A line that is blank or that [JSON.parse] rejects. *)
Definition noise (l : string) : bool :=
  JsString.is_empty (JsString.trim l)
  || match JSON_parse (JsString.trim l) with Some _ => false | None => true end.

(** A line that parses to a value whose [id] is the request's. *)
Definition answers (id : Z) (l : string) : bool :=
  negb (JsString.is_empty (JsString.trim l))
  && match JSON_parse (JsString.trim l) with
     | Some response =>
         match JsValue.get "id" response with
         | Some rid => JsValue.is_number id rid
         | None => false
         end
     | None => false
     end.

(** A text that parses to a value whose [id] is the request's. *)
Definition ws_answers (id : Z) (text : string) : bool :=
  match JSON_parse text with
  | Some response =>
      match JsValue.get "id" response with
      | Some rid => JsValue.is_number id rid
      | None => false
      end
  | None => false
  end.

(** The WebSocket handler over the successive messages of a socket. *)
Fixpoint ws_feed (id : Z) (wsResponseBuffer : string) (messages : list string)
  : option Json :=
  match messages with
  | [] => None
  | m :: ms =>
      let h := wsResponseHandler JSON_parse id wsResponseBuffer m in
      match h_resolved h with
      | Some r => Some r
      | None => ws_feed id (h_buffer h) ms
      end
  end.

End Answers.

(** ** Further notions on the state *)

(** A change of state that leaves the table of servers, the clocks and
    the existing calls as they are, and may add pending calls. *)
Record frames (st st' : State) : Prop := {
  fr_servers : servers st' = servers st;
  fr_calls : exists extra,
    calls st' = calls st ++ extra /\ Forall (fun c => pc_settled c = None) extra;
  fr_clock : clock st' = clock st;
  fr_now : Date_now st' = Date_now st
}.

(** A call and a later state of it: a settlement stays, a handler that
    was unregistered stays so, a timer that has run stays spent. *)
Definition keeps_settlement (c c' : PendingCall) : Prop :=
  pc_message c' = pc_message c /\
  (pc_settled c <> None -> pc_settled c' = pc_settled c) /\
  (pc_listening c = false -> pc_listening c' = false) /\
  (pc_timer c = false -> pc_timer c' = false).

(** The table of servers is in order: one entry per id, each naming an
    object of the store that carries that id. *)
Definition table_ok (st : State) : Prop :=
  NoDup (map fst (servers st)) /\
  forall serverId ref,
    (serverId, ref) ∈ servers st ->
    exists server, store st !! ref = Some server /\ MCPServer.id server = serverId.

(** Whether a response carries the id [id]: [response.id === id]. *)
Definition carries_id (id : Z) (response : Json) : bool :=
  match JsValue.get "id" response with
  | Some rid => JsValue.is_number id rid
  | None => false
  end.

(** A call that is settled as the code settles one: resolved with a
    response that carries its request's id, or rejected with the
    message of its timer. *)
Definition settled_ok (c : PendingCall) : Prop :=
  match pc_settled c with
  | Some (Resolved response) => carries_id (req_id (pc_message c)) response = true
  | Some (Rejected message) => message = timeout_message c
  | None => True
  end.

(** ** Further notions on the tools of a server *)

(** A change of state that leaves every server object in place, with
    its name and its tools. *)
Definition keeps_tools (st st' : State) : Prop :=
  forall ref server,
    store st !! ref = Some server ->
    exists server',
      store st' !! ref = Some server' /\
      MCPServer.name server' = MCPServer.name server /\
      MCPServer.tools server' = MCPServer.tools server.

(** Between [st] and [st'] a [tools/list] request of the handshake of
    the server object [ref] was answered, by a response from which
    [discover] reads a new tool list for a server of that name: the
    call is resolved in [st'], and it was not in [st]. *)
Definition discovered_since (st st' : State) (ref : nat) (name : string) : Prop :=
  exists k c response l,
    calls st' !! k = Some c /\
    pc_caller c = FromToolsList ref /\
    pc_settled c = Some (Resolved response) /\
    (forall c0, calls st !! k = Some c0 -> pc_settled c0 = None) /\
    discover name response = ReplaceTools l.

(** What every transition keeps of the calls and of the server
    objects: a call stays in place with its caller, a settlement
    stays, and the tools of a server object stay unless a
    discovery took place for it. *)
Record history (st st' : State) : Prop := {
  hist_calls : forall k c,
    calls st !! k = Some c ->
    exists c',
      calls st' !! k = Some c' /\ pc_caller c' = pc_caller c /\
      (pc_settled c <> None -> pc_settled c' = pc_settled c);
  hist_store : forall ref server,
    store st !! ref = Some server ->
    exists server',
      store st' !! ref = Some server' /\
      MCPServer.name server' = MCPServer.name server /\
      (MCPServer.tools server' = MCPServer.tools server \/
       discovered_since st st' ref (MCPServer.name server))
}.

(** ** The callers of the service

    [executeToolCall] of [server/src/routes/chat.ts], [formatMCPTools]
    of [server/src/services/openRouterService.ts], and the auto-start
    test [shouldAutoStart] of the service itself. *)

(** The two regular expressions of [executeToolCall] and
    [String.prototype.includes], on the strings of this development.
    Neither expression can match across a cut character: each of its
    characters is a single byte, and none is a byte of a longer
    character. *)
Module JsRegExp.

(** [s.includes(sub)]. *)
Fixpoint includes (sub s : string) : bool :=
  match JsString.strip_prefix sub s with
  | Some _ => true
  | None =>
      match s with
      | EmptyString => false
      | String _ r => includes sub r
      end
  end.

(** What a greedy white-space star leaves of [s]. *)
Definition skip_space (s : string) : string :=
  JsString.trim_start JsString.white_space s.

Definition workingDir_brace : string := JsString.dq "'workingDir'}".

(** A string of white space only. *)
Definition is_white (w : string) : bool := JsString.is_empty (skip_space w).

(** Whether the character [c] occurs in [s]. *)
Fixpoint occurs (c : ascii) (s : string) : bool :=
  match s with
  | EmptyString => false
  | String a r => Ascii.eqb a c || occurs c r
  end.

(** Whether the rest of the first expression, after its comma,
    matches all of [s]: white space, the key and the brace, white
    space, the end. *)
Definition workingDir_tail (s : string) : bool :=
  match JsString.strip_prefix workingDir_brace (skip_space s) with
  | Some r => JsString.is_empty (skip_space r)
  | None => false
  end.

(** [s.replace(re, '}')] for the first expression: the leftmost
    match runs to the end of [s]. *)
Fixpoint replace_workingDir (s : string) : string :=
  match s with
  | EmptyString => EmptyString
  | String c r =>
      if Ascii.eqb c ","%char && workingDir_tail r then "}"
      else String c (replace_workingDir r)
  end.

(** The characters of [s] before its first double quote; [None]
    when it has none. *)
Fixpoint until_quote (s : string) : option string :=
  match s with
  | EmptyString => None
  | String c r =>
      if Ascii.eqb c JsString.DQUOTE then Some EmptyString
      else String c <$> until_quote r
  end.

(** Group 1 of a match of the second expression at the head of [s]. *)
Definition command_at (s : string) : option string :=
  match JsString.strip_prefix (JsString.dq "'command':") s with
  | Some r =>
      match JsString.strip_prefix (JsString.dq "'") (skip_space r) with
      | Some body =>
          match until_quote body with
          | Some c => if JsString.is_empty c then None else Some c
          | None => None
          end
      | None => None
      end
  | None => None
  end.

(** Group 1 of [s.match(re)] for the second expression: the leftmost
    match. *)
Fixpoint match_command (s : string) : option string :=
  match command_at s with
  | Some c => Some c
  | None =>
      match s with
      | EmptyString => None
      | String _ r => match_command r
      end
  end.

End JsRegExp.

(** A tool call of the chat completion: [toolCall.id],
    [toolCall.function.name] and [toolCall.function.arguments], a
    string of JSON text or a value. *)
Module ToolCall.
Record t := {
  id : string;
  name : string;
  arguments : Json
}.
End ToolCall.

Section ExecuteToolCall.

Variable JSON_parse : string -> option Json.

(** The [try] and [catch] of [executeToolCall]: the arguments, or
    the message of the error thrown. *)
Definition parsedArguments (arguments : Json) : Json + string :=
  match arguments with
  | JStr s =>
      let argsString :=
        if JsRegExp.includes JsRegExp.workingDir_brace s
        then JsRegExp.replace_workingDir s else s in
      match JSON_parse argsString with
      | Some v => inl v
      | None =>
          match JsRegExp.match_command s with
          | Some c => inl (JObj [("command", JStr c)])
          | None => inr ("Invalid tool arguments format: " +:+ s)
          end
      end
  | v => inl v
  end.

(** The test of the loop: a connected server with a tool of that name. *)
Definition offers (toolName : string) (server : MCPServer.t) : bool :=
  Status_eqb (MCPServer.status server) connected
  && match find (has_name toolName) (MCPServer.tools server) with
     | Some _ => true
     | None => false
     end.

(** Up to the [await] of [executeTool]. *)
Definition executeToolCall (toolCall : ToolCall.t) (st : State)
  : Sending * State :=
  match find (offers (ToolCall.name toolCall)) (getAvailableServers st) with
  | Some server =>
      match parsedArguments (ToolCall.arguments toolCall) with
      | inl parsed =>
          executeTool (MCPServer.id server)
            {| MCPToolCall.id := ToolCall.id toolCall;
               MCPToolCall.name := ToolCall.name toolCall;
               MCPToolCall.arguments := parsed |} st
      | inr message => (SendThrows message, st)
      end
  | None =>
      (SendThrows ("Tool " +:+ ToolCall.name toolCall +:+
                   " not found on any connected server"), st)
  end.

End ExecuteToolCall.

(** The [function] member of an element of what [formatMCPTools]
    returns; its [type] is always ['function']. *)
Module FunctionTool.
Record t := {
  name : option Json;
  description : option Json;
  parameters : option Json
}.
End FunctionTool.

Definition fallback_tool (toolName : string) : FunctionTool.t :=
  {| FunctionTool.name := Some (JStr toolName);
     FunctionTool.description := Some (JStr ("MCP tool: " +:+ toolName));
     FunctionTool.parameters := Some empty_schema |}.

Definition formatted (tool : MCPTool.t) : FunctionTool.t :=
  {| FunctionTool.name := MCPTool.name tool;
     FunctionTool.description := MCPTool.description tool;
     FunctionTool.parameters :=
       if JsValue.truthy (MCPTool.inputSchema tool) then MCPTool.inputSchema tool
       else Some empty_schema |}.

(** [formatMCPTools(toolNames, mcpService)]; [mcpService] is the
    service in its current state, or absent. *)
Definition formatMCPTools (toolNames : list string) (mcpService : option State)
  : list FunctionTool.t :=
  match mcpService with
  | None => map fallback_tool toolNames
  | Some st =>
      let availableTools := getAvailableTools st in
      omap (fun toolName => formatted <$> find (has_name toolName) availableTools)
           toolNames
  end.

(** [shouldAutoStart(server)].  [settings] is the list
    [activatedMCPServers] that [settingsService.loadSettings] gives,
    [None] when loading it throws; [update_ok] tells whether
    [settingsService.updateSettings] succeeds.  The result comes with
    the list handed to [updateSettings], if it is called. *)
Definition shouldAutoStart (server : MCPServer.t) (settings : option (list string))
    (update_ok : bool) : bool * option (list string) :=
  if bool_decide (MCPServer.disabled server = Some true) then (false, None)
  else
    match settings with
    | None => (false, None)
    | Some activatedMCPServers =>
        let isActivatedById :=
          existsb (String.eqb (MCPServer.id server)) activatedMCPServers in
        let isActivatedByName :=
          existsb (String.eqb (MCPServer.name server)) activatedMCPServers in
        if isActivatedById || isActivatedByName then
          if isActivatedByName && negb isActivatedById then
            let updatedServers :=
              filter (fun s => s <> MCPServer.name server) activatedMCPServers
              ++ [MCPServer.id server] in
            (update_ok, Some updatedServers)
          else (true, None)
        else (false, None)
    end.

(** ** Further examples *)

Module MoreExamples.

(** The arguments of the comment in [executeToolCall]. *)
Definition cut_arguments : string :=
  JsString.dq "{'command': 'ls -la', 'workingDir'}".

Definition repaired_arguments : string :=
  JsString.dq "{'command': 'ls -la'}".

Definition no_call : PendingCall :=
  {| pc_connection := ChildProcess 0;
     pc_serverName := "";
     pc_message := tools_list_request;
     pc_buffer := "";
     pc_listening := false;
     pc_settled := None;
     pc_deadline := 0;
     pc_timer := false;
     pc_caller := FromExecuteTool |}.

End MoreExamples.

(** * Properties *)

(** ** Splitting and joining strings *)

Module JsStringFacts.
Import JsString.

Lemma append_cons (c : ascii) (s t : string) :
  String c s +:+ t = String c (s +:+ t).
Proof. reflexivity. Qed.

Lemma append_empty_r (s : string) : s +:+ EmptyString = s.
Proof. induction s as [|c s IH]; [done | by rewrite append_cons, IH]. Qed.

Lemma append_assoc (a b c : string) : (a +:+ b) +:+ c = a +:+ (b +:+ c).
Proof. induction a as [|x a IH]; [done | by rewrite !append_cons, IH]. Qed.

Lemma split_nl_nonempty (s : string) : split_nl s <> [].
Proof.
  induction s as [|c s IH]; simpl; [done|].
  destruct (Ascii.eqb c LF); [done|]. by destruct (split_nl s).
Qed.

(** Splitting a concatenation: the complete lines of the first part
    stay, its unfinished line is continued by the second part. *)
Lemma split_nl_app (a b : string) :
  split_nl (a +:+ b) =
  removelast (split_nl a) ++ split_nl (List.last (split_nl a) EmptyString +:+ b).
Proof.
  induction a as [|c a IH]; [done|]. rewrite append_cons. simpl.
  destruct (Ascii.eqb c LF) eqn:E.
  - rewrite IH. pose proof (split_nl_nonempty a) as Hne.
    destruct (split_nl a) as [|h t] eqn:Ea; [done|]. reflexivity.
  - rewrite IH. pose proof (split_nl_nonempty a) as Hne.
    destruct (split_nl a) as [|h t] eqn:Ea; [done|].
    destruct t as [|h' t'].
    + simpl. by rewrite E.
    + reflexivity.
Qed.

Lemma removelast_cons2 {A} (x y : A) (l : list A) :
  removelast (x :: y :: l) = x :: removelast (y :: l).
Proof. reflexivity. Qed.

Lemma last_cons2 {A} (x y : A) (l : list A) (d : A) :
  List.last (x :: y :: l) d = List.last (y :: l) d.
Proof. reflexivity. Qed.

Lemma last_app_ne {A} (l1 l2 : list A) (d : A) :
  l2 <> [] -> List.last (l1 ++ l2) d = List.last l2 d.
Proof.
  intros Hne. induction l1 as [|x l1 IH]; [done|].
  cbn [app]. destruct (l1 ++ l2) eqn:E; [|exact IH].
  by destruct l1, l2.
Qed.

Lemma total_length_cons (l : string) (r : list string) :
  total_length (l :: r) = S (String.length l + total_length r).
Proof. unfold total_length. simpl. lia. Qed.

(** Dropping the complete lines leaves the unfinished one. *)
Lemma substring_from_total (s : string) :
  substring_from (total_length (removelast (split_nl s))) s
  = List.last (split_nl s) EmptyString.
Proof.
  induction s as [|c s IH]; [done|].
  pose proof (split_nl_nonempty s) as Hne.
  cbn [split_nl].
  destruct (split_nl s) as [|h t] eqn:Es; [done|].
  destruct (Ascii.eqb c LF) eqn:E.
  - rewrite removelast_cons2, last_cons2, total_length_cons.
    cbn [substring_from String.length Nat.add]. exact IH.
  - destruct t as [|h' t'].
    + cbn in IH. cbn. by rewrite IH.
    + rewrite removelast_cons2, last_cons2, total_length_cons.
      rewrite removelast_cons2, last_cons2, total_length_cons in IH.
      cbn [substring_from String.length Nat.add]. exact IH.
Qed.

Example split_nl_example :
  split_nl (bs [x61; x0a; x0a; x62]) = [bs [x61]; EmptyString; bs [x62]].
Proof. reflexivity. Qed.

Example trim_example :
  trim (bs [x20; x09; x61; x20; x62; x0d; xc2; xa0]) = bs [x61; x20; x62].
Proof. reflexivity. Qed.

End JsStringFacts.

(** ** Decoding ASCII *)

Module Utf8Facts.
Import Utf8.

Lemma string_of_list_byte_app (a b : list byte) :
  string_of_list_byte (a ++ b) = string_of_list_byte a +:+ string_of_list_byte b.
Proof.
  unfold string_of_list_byte. induction a as [|x a IH]; [done|].
  cbn [map app string_of_list_ascii]. by rewrite IH.
Qed.

(** ASCII bytes are decoded to themselves. *)
Lemma decode_ascii (data : list byte) :
  Forall (fun b => (Byte.to_N b <= 127)%N) data -> decode init data = data.
Proof.
  induction 1 as [|b data Hb _ IH]; [done|].
  cbn [decode]. unfold step. cbn [needed init]. unfold start.
  apply N.leb_le in Hb. rewrite Hb. cbn. by rewrite IH.
Qed.

End Utf8Facts.

(** ** Properties of the response handler *)

Section FrameCodecFacts.

Variable JSON_parse : string -> option Json.
Import JsString JsStringFacts.

Local Abbreviation scan := (scan_lines JSON_parse).

(** Scanning from a running count and frame list only shifts the
    result. *)
Lemma scan_lines_shift id lines n fs :
  scan id lines n fs =
  match scan id lines 0 [] with
  | Matched r fs' => Matched r (fs ++ fs')
  | Finished m fs' => Finished (n + m) (fs ++ fs')
  end.
Proof.
  revert n fs. induction lines as [|l rest IH]; intros n fs.
  - cbn. by rewrite Nat.add_0_r, app_nil_r.
  - cbn [scan_lines].
    destruct (is_empty (trim l)).
    { rewrite (IH (n + _)%nat fs), (IH (0 + _)%nat []).
      destruct (scan id rest 0 []); f_equal; simpl; first [lia | done]. }
    destruct (JSON_parse (trim l)) as [response|].
    2:{ rewrite (IH (n + _)%nat fs), (IH (0 + _)%nat []).
        destruct (scan id rest 0 []); f_equal; simpl; first [lia | done]. }
    assert (Hk : scan id rest (n + (String.length l + 1)) (fs ++ [response]) =
                 match scan id rest (0 + (String.length l + 1)) ([] ++ [response]) with
                 | Matched r fs' => Matched r (fs ++ fs')
                 | Finished m fs' => Finished (n + m) (fs ++ fs')
                 end).
    { rewrite (IH (n + _)%nat (fs ++ [response])), (IH (0 + _)%nat ([] ++ [response])).
      destruct (scan id rest 0 []); rewrite <- ?(assoc_L (++)); f_equal; simpl; first [lia | done]. }
    destruct (JsValue.get "id" response) as [rid|]; [|exact Hk].
    destruct (JsValue.is_number id rid); [reflexivity | exact Hk].
Qed.

Lemma scan_lines_app id l1 l2 n fs :
  scan id (l1 ++ l2) n fs =
  match scan id l1 n fs with
  | Matched r fs' => Matched r fs'
  | Finished m fs' => scan id l2 m fs'
  end.
Proof.
  revert n fs. induction l1 as [|l rest IH]; intros n fs; [done|].
  cbn [app scan_lines].
  destruct (is_empty (trim l)); [apply IH|].
  destruct (JSON_parse (trim l)) as [response|]; [|apply IH].
  destruct (JsValue.get "id" response) as [rid|]; [|apply IH].
  destruct (JsValue.is_number id rid); [reflexivity | apply IH].
Qed.

Lemma scan_lines_total id lines m fs :
  scan id lines 0 [] = Finished m fs -> m = total_length lines.
Proof.
  revert m fs. induction lines as [|l rest IH]; intros m fs.
  - cbn. by intros [= <- _].
  - rewrite total_length_cons. cbn [scan_lines].
    assert (Hk : forall fs0, scan id rest (0 + (String.length l + 1)) fs0 = Finished m fs ->
                 m = S (String.length l + total_length rest)).
    { intros fs0. rewrite scan_lines_shift.
      destruct (scan id rest 0 []) as [|m' fs'] eqn:E; [done|].
      intros [= <- _]. rewrite (IH _ _ eq_refl). lia. }
    destruct (is_empty (trim l)); [apply Hk|].
    destruct (JSON_parse (trim l)) as [response|]; [|apply Hk].
    destruct (JsValue.get "id" response) as [rid|]; [|apply Hk].
    destruct (JsValue.is_number id rid); [done | apply Hk].
Qed.

(** The handler in terms of the scan: when no line matches, the
    buffer it keeps is the unfinished last line. *)
Lemma handle_raw_eq id buf raw :
  handle_raw JSON_parse id buf raw =
  match scan id (removelast (split_nl (buf +:+ raw))) 0 [] with
  | Matched r fs =>
      {| h_frames := fs; h_resolved := Some r; h_buffer := buf +:+ raw |}
  | Finished _ fs =>
      {| h_frames := fs; h_resolved := None;
         h_buffer := List.last (split_nl (buf +:+ raw)) EmptyString |}
  end.
Proof.
  unfold handle_raw.
  destruct (scan id _ 0 []) as [|m fs] eqn:E; [done|]. f_equal.
  apply scan_lines_total in E. subst m.
  rewrite <- (substring_from_total (buf +:+ raw)).
  by destruct (total_length (removelast (split_nl (buf +:+ raw)))).
Qed.

(** The handler on [b +:+ c +:+ rest] continues the scan of
    [b +:+ c] with the lines completed by [rest]. *)
Lemma handle_raw_app id b c rest :
  handle_raw JSON_parse id b (c +:+ rest) =
  let h := handle_raw JSON_parse id b c in
  match h_resolved h with
  | Some r =>
      {| h_frames := h_frames h; h_resolved := Some r;
         h_buffer := b +:+ (c +:+ rest) |}
  | None =>
      let h' := handle_raw JSON_parse id (h_buffer h) rest in
      {| h_frames := h_frames h ++ h_frames h';
         h_resolved := h_resolved h';
         h_buffer :=
           match h_resolved h' with
           | Some _ => b +:+ (c +:+ rest)
           | None => h_buffer h'
           end |}
  end.
Proof.
  cbn zeta. rewrite (handle_raw_eq id b (c +:+ rest)), (handle_raw_eq id b c).
  rewrite <- (append_assoc b c rest), (split_nl_app (b +:+ c) rest).
  rewrite removelast_app by apply split_nl_nonempty.
  rewrite scan_lines_app.
  rewrite last_app_ne by apply split_nl_nonempty.
  destruct (scan id (removelast (split_nl (b +:+ c))) 0 []) as [r fs|m fs];
    cbn [h_frames h_resolved h_buffer]; [reflexivity|].
  rewrite handle_raw_eq, scan_lines_shift.
  destruct (scan id (removelast (split_nl (List.last (split_nl (b +:+ c)) "" +:+ rest))) 0 [])
    as [r2 fs2|m2 fs2]; reflexivity.
Qed.

(** Chunk-boundary invariance on decoded text: however the text is
    cut into chunks, the handler parses the same frames and resolves
    with the same response as on the whole text. *)
Lemma feed_raw_cons id buf c cs :
  feed_raw JSON_parse id buf (c :: cs)
  = feed_raw JSON_parse id buf [c +:+ join cs].
Proof.
  revert buf c. induction cs as [|c1 cs IH]; intros buf c.
  - cbn [join]. by rewrite append_empty_r.
  - cbn [join]. change (feed_raw JSON_parse id buf (c :: c1 :: cs)) with
      (let h := handle_raw JSON_parse id buf c in
       match h_resolved h with
       | Some r => (h_frames h, Some r)
       | None =>
           let '(fs, r) := feed_raw JSON_parse id (h_buffer h) (c1 :: cs) in
           (h_frames h ++ fs, r)
       end).
    cbn zeta. rewrite IH. cbn [feed_raw].
    rewrite (handle_raw_app id buf c (c1 +:+ join cs)). cbn zeta.
    destruct (h_resolved (handle_raw JSON_parse id buf c)) as [r|] eqn:Hres.
    + reflexivity.
    + cbn [h_resolved h_frames].
      destruct (h_resolved (handle_raw JSON_parse id _ (c1 +:+ join cs)));
        by rewrite ?app_nil_r.
Qed.

(** Chunk-boundary invariance on decoded text: however the text is
    cut into chunks, a fresh handler parses the same frames and
    resolves with the same response as on the whole text. *)
Theorem feed_raw_chunk_invariant id chunks :
  feed_raw JSON_parse id EmptyString chunks
  = feed_raw JSON_parse id EmptyString [join chunks].
Proof.
  destruct chunks as [|c cs]; [reflexivity|]. apply feed_raw_cons.
Qed.

(** The same on bytes, for the cuts over which decoding distributes
    (no multi-byte character is split). *)
Corollary feed_chunk_invariant id (chunks : list (list byte)) :
  Utf8.Buffer_toString (concat chunks)
    = join (map Utf8.Buffer_toString chunks) ->
  feed JSON_parse id EmptyString chunks
  = feed JSON_parse id EmptyString [concat chunks].
Proof.
  intros Hd. unfold feed. cbn [map]. rewrite Hd.
  apply feed_raw_chunk_invariant.
Qed.

(** In particular on streams of ASCII bytes, however they are cut. *)
Corollary feed_chunk_invariant_ascii id (chunks : list (list byte)) :
  Forall (Forall (fun b => (Byte.to_N b <= 127)%N)) chunks ->
  feed JSON_parse id EmptyString chunks
  = feed JSON_parse id EmptyString [concat chunks].
Proof.
  intros Hascii. apply feed_chunk_invariant.
  unfold Utf8.Buffer_toString.
  rewrite Utf8Facts.decode_ascii by by apply Forall_concat.
  induction Hascii as [|c cs Hc _ IH]; [done|].
  cbn [concat map join]. rewrite Utf8Facts.string_of_list_byte_app, IH.
  by rewrite Utf8Facts.decode_ascii.
Qed.

End FrameCodecFacts.

(** The handler on a stream cut inside a line and between lines: the
    text that is not JSON is dropped, the frame of another request is
    parsed and passed over, the answer to request 7 resolves it. *)
Example feed_example :
  feed JsonText.parse 7 ""
    [Examples.line "{'id':3,'result':0}" ++ Examples.line "starting up" ++ Examples.bytes "{'id':";
     Examples.line "7,'result':'ok'}" ++ Examples.line "{'id':9}"]
  = ([JObj [("id", JNum 3); ("result", JNum 0)];
      JObj [("id", JNum 7); ("result", JStr "ok")]],
     Some (JObj [("id", JNum 7); ("result", JStr "ok")])).
Proof. reflexivity. Qed.

(** ** Looking servers up *)

Lemma get_server_inv serverId st ref server :
  get_server serverId st = Some (ref, server) ->
  Js.map_get serverId (servers st) = Some ref /\ store st !! ref = Some server.
Proof.
  unfold get_server. intros H.
  destruct (Js.map_get serverId (servers st)) as [r|]; [|done].
  destruct (store st !! r) as [s|] eqn:E; [|done].
  by injection H as -> ->.
Qed.

Lemma get_server_intro serverId st ref server :
  Js.map_get serverId (servers st) = Some ref -> store st !! ref = Some server ->
  get_server serverId st = Some (ref, server).
Proof. unfold get_server. by intros -> ->. Qed.

Lemma get_server_status serverId st ref server v :
  get_server serverId st = Some (ref, server) ->
  get_server serverId (Upd.status ref v st)
  = Some (ref, MCPServer.set_status v server).
Proof.
  intros [Hm Hs]%get_server_inv. apply get_server_intro; [done|].
  cbn. by rewrite list_lookup_alter_eq, Hs.
Qed.

Lemma find_some_of_elem {A} (p : A -> bool) (l : list A) (x : A) :
  x ∈ l -> p x = true -> exists y, find p l = Some y.
Proof.
  induction 1 as [x l|x y l _ IH]; intros Hp; cbn.
  - rewrite Hp. eauto.
  - destruct (p y); eauto.
Qed.

(** ** A provider without a command *)

(** C10, as amended.  For a stdio provider configured without a
    command, [connectToServer] returns [true] and sets the status to
    [connected] without spawning a process, opening a socket or
    registering a connection.  A subsequent [executeTool] naming one of
    its tools passes both checks; it throws "No connection found for
    server <id>" when no connection is registered under the id, and
    otherwise writes its request to the connection that is registered
    there and awaits the answer. *)
Theorem demo_server_connects_without_transport valid_url serverId ref server st :
  get_server serverId st = Some (ref, server) ->
  MCPServer.transport server = "stdio" ->
  Js.truthy_string (MCPServer.command server) = false ->
  exists st1,
    connectToServer valid_url serverId st = (ConnectReturns true, st1) /\
    get_server serverId st1 = Some (ref, MCPServer.set_status connected server) /\
    children st1 = children st /\ sockets st1 = sockets st /\
    connections st1 = connections st /\ calls st1 = calls st /\
    forall toolCall tool,
      tool ∈ MCPServer.tools server ->
      has_name (MCPToolCall.name toolCall) tool = true ->
      (connections st !! serverId = None ->
       executeTool serverId toolCall st1
       = (SendThrows ("No connection found for server " +:+ serverId), st1)) /\
      (forall connection,
         connections st !! serverId = Some connection ->
         exists st2 c,
           executeTool serverId toolCall st1 = (SendPending (length (calls st)), st2) /\
           calls st2 = calls st ++ [c] /\
           pc_connection c = connection /\
           pc_message c = tools_call (Date_now st) toolCall /\
           pc_settled c = None /\
           match connection with
           | ChildProcess pid =>
               children st2
               = alter (Upd.write (Req (tools_call (Date_now st) toolCall))) pid
                       (children st)
           | WebSocket wid =>
               sockets st2
               = alter (Upd.send (Req (tools_call (Date_now st) toolCall))) wid
                       (sockets st)
           end).
Proof.
  intros Hs Ht Hc. exists (Upd.status ref connected st).
  split; [|split; [by apply get_server_status|]].
  - unfold connectToServer. rewrite Hs, Ht. cbn [String.eqb Ascii.eqb Bool.eqb].
    change (("stdio" =? "stdio")%string) with true. cbn iota.
    unfold connectStdioServer.
    destruct (MCPServer.command server) as [c|]; [|done].
    cbn in Hc. by destruct (JsString.is_empty c).
  - split; [done|]. split; [done|]. split; [done|]. split; [done|].
    intros toolCall tool Hin Hname.
    assert (executeTool serverId toolCall (Upd.status ref connected st)
            = sendMessage serverId (tools_call (Date_now st) toolCall) FromExecuteTool
                (Upd.status ref connected st)) as ->.
    { unfold executeTool. rewrite (get_server_status _ _ _ _ connected Hs).
      cbn [MCPServer.set_status MCPServer.status Status_eqb negb MCPServer.tools].
      by destruct (find_some_of_elem _ _ _ Hin Hname) as [y ->]. }
    unfold sendMessage. cbn [connections Upd.status Upd.on_store]. split.
    + by intros ->.
    + intros connection ->. eexists _, _. split; [reflexivity|].
      by destruct connection.
Qed.

Lemma demo_server_connects_without_transport_witness :
  exists st1,
    connectToServer (fun _ => true) "filesystem" Examples.builtin
    = (ConnectReturns true, st1) /\
    MCPServer.status <$> (snd <$> get_server "filesystem" st1) = Some connected /\
    executeTool "filesystem" (Examples.call "read_file") st1
    = (SendThrows "No connection found for server filesystem", st1).
Proof.
  destruct (demo_server_connects_without_transport (fun _ => true) "filesystem" 0%nat
              filesystem_server Examples.builtin)
    as (st1 & Hc & Hg & _ & _ & _ & _ & He);
    [reflexivity | reflexivity | reflexivity |].
  exists st1. split; [exact Hc|]. split; [by rewrite Hg|].
  apply (He (Examples.call "read_file") read_file_tool).
  - vm_compute. left.
  - reflexivity.
  - reflexivity.
Defined.

(** C10 as stated fails when a connection is still registered under
    the id.  The provider [filesystem] is first configured with a
    command and connected; an update to a document that declares no
    server installs the built-in [filesystem], which has no command,
    and leaves the connection registered.  Connecting it returns
    [true] without spawning, and the tool call is then written to the
    process of the former configuration instead of failing. *)
Lemma demo_call_is_written_to_a_stale_connection :
  let st0 := new_MCPService Examples.host0 1000
               (Examples.read_config
                  (JsString.dq "{'mcpServers':{'filesystem':{'command':'mcp-fs'}}}")) in
  let st := Examples.go [ConnectToServer "filesystem"; Spawn 0;
                         UpdateConfig (JsString.dq "{'mcpServers':{}}") true] st0 in
  snd <$> get_server "filesystem" st = Some filesystem_server /\
  MCPServer.transport filesystem_server = "stdio" /\
  MCPServer.command filesystem_server = None /\
  connections st !! "filesystem" = Some (ChildProcess 0) /\
  (connectToServer (fun _ => true) "filesystem" st).1 = ConnectReturns true /\
  let st1 := (connectToServer (fun _ => true) "filesystem" st).2 in
  length (children st1) = 1%nat /\
  MCPServer.status <$> (snd <$> get_server "filesystem" st1) = Some connected /\
  (executeTool "filesystem" (Examples.call "read_file") st1).1 = SendPending 1 /\
  let st2 := (executeTool "filesystem" (Examples.call "read_file") st1).2 in
  (fun child => (cp_command child, request_ids (cp_stdin child))) <$> children st2 !! 0%nat
  = Some ("mcp-fs", [1; 1000]).
Proof. by vm_compute. Qed.

(** ** The insertion-ordered map *)



Lemma map_get_elem {V} k (v : V) m : Js.map_get k m = Some v -> (k, v) ∈ m.
Proof.
  unfold Js.map_get. induction m as [|[k' v'] m IH]; cbn; [done|].
  destruct (String.eqb k k') eqn:E.
  - apply String.eqb_eq in E as <-. intros [= <-]. left.
  - intros H. right. by apply IH.
Qed.

(** ** Installing servers *)



Lemma set_servers_cons server l st :
  set_servers (server :: l) st = set_servers l (set_server server st).
Proof. reflexivity. Qed.

Lemma set_servers_frame l st :
  connections (set_servers l st) = connections st /\
  children (set_servers l st) = children st /\
  sockets (set_servers l st) = sockets st /\
  calls (set_servers l st) = calls st /\
  clock (set_servers l st) = clock st /\
  (length (store st) <= length (store (set_servers l st)))%nat.
Proof.
  revert st. induction l as [|server l IH]; intros st; [done|].
  rewrite set_servers_cons.
  destruct (IH (set_server server st)) as (-> & -> & -> & -> & -> & Hlen).
  cbn in *. rewrite length_app in Hlen. cbn in Hlen. repeat split; try done. lia.
Qed.



Lemma get_server_listed serverId st ref server :
  get_server serverId st = Some (ref, server) -> server ∈ getAvailableServers st.
Proof.
  intros [Hm Hs]%get_server_inv. unfold getAvailableServers.
  apply list_elem_of_omap. exists (serverId, ref). split; [|done].
  by apply map_get_elem.
Qed.

Lemma loadServersFromConfig_installs doc l st :
  config_servers doc = Some l ->
  loadServersFromConfig doc st = Some (set_servers (installed l) st).
Proof. unfold loadServersFromConfig. intros ->. by destruct l. Qed.

Lemma parseServerConfig_disconnected id config server :
  parseServerConfig id config = Some server ->
  MCPServer.status server = disconnected /\ MCPServer.id server = id.
Proof. destruct config; [|done]. by intros [= <-]. Qed.

Lemma parse_items_disconnected items : forall index l,
  parse_items index items = Some l ->
  Forall (fun s => MCPServer.status s = disconnected) l.
Proof.
  induction items as [|[c|] items IH]; intros index l; cbn; [by intros [= <-] | | done].
  destruct (parse_items (S index) items) as [l'|] eqn:E; [|done].
  intros [= <-]. by constructor; [|eapply IH].
Qed.

(** Every server the loader installs is in the [disconnected] status. *)
Lemma installed_disconnected doc l :
  config_servers doc = Some l ->
  Forall (fun s => MCPServer.status s = disconnected) (installed l).
Proof.
  intros H.
  assert (Forall (fun s => MCPServer.status s = disconnected) l) as Hl.
  { destruct doc; cbn in H.
    - injection H as <-. apply Forall_forall. intros s Hs.
      apply list_elem_of_omap in Hs as ([k c] & _ & Hp).
      by apply parseServerConfig_disconnected in Hp as [? _].
    - by eapply parse_items_disconnected.
    - by injection H as <-.
    - done. }
  destruct l; [|done]. cbn. by repeat constructor.
Qed.

(** ** Updating the configuration *)




(** ** What every transition keeps *)

Lemma same_call_refl c : same_call c c.
Proof. by repeat split. Qed.

Lemma same_call_trans c1 c2 c3 : same_call c1 c2 -> same_call c2 c3 -> same_call c1 c3.
Proof. unfold same_call. intros (?&?&?&?&?) (?&?&?&?&?). repeat split; congruence. Qed.

Lemma tools_evolve_refl s : tools_evolve s s.
Proof. repeat split. by left. Qed.

Lemma tools_evolve_trans s1 s2 s3 :
  tools_evolve s1 s2 -> tools_evolve s2 s3 -> tools_evolve s1 s3.
Proof.
  intros (Hi & Hn & H12) (Hi' & Hn' & H23). repeat split; [congruence..|].
  destruct H23 as [H23 | (r & l & Hd & Hl)].
  - destruct H12 as [H12 | (r & l & Hd & Hl)]; [left; congruence|].
    right. exists r, l. split; [done | congruence].
  - right. exists r, l. split; [congruence | done].
Qed.

Lemma advances_refl st : advances st st.
Proof.
  split; [lia | |].
  - intros k c Hk Hok. exists c. eauto using same_call_refl.
  - intros ref s Hs. exists s. eauto using tools_evolve_refl.
Qed.

Lemma advances_trans st1 st2 st3 :
  advances st1 st2 -> advances st2 st3 -> advances st1 st3.
Proof.
  intros [Hc1 Hk1 Hs1] [Hc2 Hk2 Hs2]. split; [lia | |].
  - intros k c Hk Hok.
    destruct (Hk1 k c Hk Hok) as (c' & Hk' & Hsame & Hok').
    destruct (Hk2 k c' Hk' Hok') as (c'' & Hk'' & Hsame' & Hok'').
    exists c''. eauto using same_call_trans.
  - intros ref s Hs.
    destruct (Hs1 ref s Hs) as (s' & Hs' & He).
    destruct (Hs2 ref s' Hs') as (s'' & Hs'' & He').
    exists s''. eauto using tools_evolve_trans.
Qed.

(** A change that touches neither the clock, nor the calls, nor the
    store. *)
Lemma advances_frame st st' :
  clock st' = clock st -> calls st' = calls st -> store st' = store st ->
  advances st st'.
Proof.
  intros Hc Hk Hs. split; [lia | |].
  - intros k c Hl Hok. exists c. rewrite Hk, Hc. eauto using same_call_refl.
  - intros ref s Hl. exists s. rewrite Hs. eauto using tools_evolve_refl.
Qed.

Lemma advances_alter f ref st :
  (forall s, tools_evolve s (f s)) ->
  advances st (Upd.on_store (alter f ref) st).
Proof.
  intros Hf. split; [cbn; lia | |].
  - intros k c Hl Hok. exists c. eauto using same_call_refl.
  - intros r s Hl. cbn. destruct (decide (ref = r)) as [->|Hne].
    + exists (f s). by rewrite list_lookup_alter_eq, Hl.
    + exists s. rewrite list_lookup_alter_ne by done. eauto using tools_evolve_refl.
Qed.

Lemma advances_status ref v st : advances st (Upd.status ref v st).
Proof. apply advances_alter. intros s. repeat split. by left. Qed.

Lemma advances_new_object server st :
  advances st (Upd.on_store (fun l => l ++ [server]) st).
Proof.
  split; [cbn; lia | |].
  - intros k c Hl Hok. exists c. eauto using same_call_refl.
  - intros r s Hl. exists s. cbn. split; [by apply lookup_app_l_Some|].
    apply tools_evolve_refl.
Qed.

Lemma advances_new_call c st :
  advances st (Upd.on_calls (fun l => l ++ [c]) st).
Proof.
  split; [cbn; lia | |].
  - intros k c0 Hl Hok. exists c0. cbn.
    split; [by apply lookup_app_l_Some|]. eauto using same_call_refl.
  - intros r s Hl. exists s. eauto using tools_evolve_refl.
Qed.

Lemma advances_child pid f st : advances st (Upd.child pid f st).
Proof. by apply advances_frame. Qed.

Lemma advances_socket wid f st : advances st (Upd.socket wid f st).
Proof. by apply advances_frame. Qed.

Lemma advances_connections f st : advances st (Upd.on_connections f st).
Proof. by apply advances_frame. Qed.

Lemma advances_sendMessage serverId message caller st :
  advances st (sendMessage serverId message caller st).2.
Proof.
  unfold sendMessage. destruct (connections st !! serverId) as [[pid|wid]|]; cbn [snd].
  - eapply advances_trans; [apply (advances_child pid)|apply advances_new_call].
  - eapply advances_trans; [apply (advances_socket wid)|apply advances_new_call].
  - apply advances_refl.
Qed.

Lemma advances_sendNotification serverId message st :
  advances st (sendNotification serverId message st).
Proof.
  unfold sendNotification. destruct (connections st !! serverId) as [[pid|wid]|].
  - apply advances_child.
  - apply advances_socket.
  - apply advances_refl.
Qed.

Lemma advances_connectToServer valid_url serverId st :
  advances st (connectToServer valid_url serverId st).2.
Proof.
  unfold connectToServer.
  destruct (get_server serverId st) as [[ref server]|]; [|apply advances_refl].
  destruct (String.eqb _ "stdio").
  { unfold connectStdioServer. destruct (MCPServer.command server) as [c|].
    - destruct (JsString.is_empty c); [apply advances_status | by apply advances_frame].
    - apply advances_status. }
  destruct (String.eqb _ "websocket").
  { unfold connectWebSocketServer. destruct (valid_url _); [by apply advances_frame|].
    apply advances_refl. }
  destruct (String.eqb _ "sse"); [apply advances_refl | apply advances_status].
Qed.

Lemma advances_disconnectServer serverId st :
  advances st (disconnectServer serverId st).
Proof.
  unfold disconnectServer.
  set (st1 := match connections st !! serverId with Some _ => _ | None => _ end).
  assert (advances st st1) as H1.
  { subst st1. destruct (connections st !! serverId) as [[pid|wid]|];
      [by apply advances_frame.. | apply advances_refl]. }
  destruct (Js.map_get serverId (servers st1)); [|done].
  eapply advances_trans; [exact H1 | apply advances_status].
Qed.

Lemma advances_foldl {A} (f : State -> A -> State) (l : list A) st :
  (forall s a, advances s (f s a)) -> advances st (foldl f st l).
Proof.
  intros Hf. revert st. induction l as [|a l IH]; intros st; [apply advances_refl|].
  cbn. eapply advances_trans; [apply Hf | apply IH].
Qed.

Lemma advances_disconnectAll st : advances st (disconnectAll st).
Proof. apply advances_foldl. intros. apply advances_disconnectServer. Qed.

Lemma advances_executeTool serverId toolCall st :
  advances st (executeTool serverId toolCall st).2.
Proof.
  unfold executeTool.
  destruct (get_server serverId st) as [[ref server]|]; [|apply advances_refl].
  destruct (negb _); [apply advances_refl|].
  destruct (find _ _); [apply advances_sendMessage | apply advances_refl].
Qed.

Lemma advances_set_server server st : advances st (set_server server st).
Proof.
  unfold set_server. eapply advances_trans; [apply advances_new_object|].
  by apply advances_frame.
Qed.

Lemma advances_set_servers l st : advances st (set_servers l st).
Proof. apply advances_foldl. intros. apply advances_set_server. Qed.

Lemma advances_updateConfig read_config configContent write_ok st :
  advances st (updateConfig read_config configContent write_ok st).2.
Proof.
  unfold updateConfig. destruct (read_config configContent) as [doc|]; [|apply advances_refl].
  destruct write_ok; [|apply advances_refl].
  assert (advances st (Upd.set_config_file configContent st)) as H0 by by apply advances_frame.
  unfold loadServersFromConfig.
  destruct (config_servers doc) as [[|s l]|]; cbn [snd]; [| |done];
    (eapply advances_trans; [exact H0 | apply advances_set_servers]).
Qed.

Lemma advances_initializeServerConnection ref st :
  advances st (initializeServerConnection ref st).
Proof.
  unfold initializeServerConnection.
  destruct (store st !! ref); [apply advances_sendMessage | apply advances_refl].
Qed.

Lemma advances_on_spawn pid st : advances st (on_spawn pid st).
Proof.
  unfold on_spawn. destruct (children st !! pid) as [child|]; [|apply advances_refl].
  destruct (store st !! cp_server child) as [server|]; [|apply advances_refl].
  eapply advances_trans; [apply advances_status|].
  eapply advances_trans; [apply advances_connections|].
  eapply advances_trans; [apply advances_initializeServerConnection|].
  apply advances_child.
Qed.

Lemma advances_on_error pid st : advances st (on_error pid st).
Proof.
  unfold on_error. destruct (children st !! pid) as [child|]; [|apply advances_refl].
  eapply advances_trans; [apply advances_status | apply advances_child].
Qed.

Lemma advances_on_exit pid st : advances st (on_exit pid st).
Proof.
  unfold on_exit. destruct (children st !! pid) as [child|]; [|apply advances_refl].
  destruct (store st !! cp_server child) as [server|]; [|apply advances_refl].
  eapply advances_trans; [apply advances_status | apply advances_connections].
Qed.

Lemma advances_on_open wid st : advances st (on_open wid st).
Proof.
  unfold on_open. destruct (sockets st !! wid) as [ws|]; [|apply advances_refl].
  destruct (store st !! ws_server ws) as [server|]; [|apply advances_refl].
  eapply advances_trans; [apply advances_status|].
  eapply advances_trans; [apply advances_connections | apply advances_socket].
Qed.

Lemma advances_on_ws_error wid st : advances st (on_ws_error wid st).
Proof.
  unfold on_ws_error. destruct (sockets st !! wid) as [ws|]; [|apply advances_refl].
  eapply advances_trans; [apply advances_status | apply advances_socket].
Qed.

Lemma advances_on_close wid st : advances st (on_close wid st).
Proof.
  unfold on_close. destruct (sockets st !! wid) as [ws|]; [|apply advances_refl].
  destruct (store st !! ws_server ws) as [server|]; [|apply advances_refl].
  eapply advances_trans; [apply advances_status | apply advances_connections].
Qed.

(** The continuation of a resolved promise changes a tool list only by
    installing what a [tools/list] answer carried. *)
Lemma advances_resume caller response st :
  advances st (resume caller response st).
Proof.
  destruct caller as [|ref|ref|ref]; cbn [resume].
  - apply advances_refl.
  - destruct (store st !! ref) as [server|]; [|apply advances_refl].
    eapply advances_trans; [apply advances_sendNotification | apply advances_sendMessage].
  - destruct (store st !! ref) as [server|] eqn:Hs; [|apply advances_refl].
    destruct (discover (MCPServer.name server) response) as [| |l] eqn:Hd.
    + apply advances_refl.
    + apply advances_sendMessage.
    + eapply advances_trans; [|apply advances_sendMessage].
      split; [cbn; lia | |].
      * intros k c Hl Hok. exists c. eauto using same_call_refl.
      * intros r s Hl. cbn. destruct (decide (ref = r)) as [<-|Hne].
        -- exists (MCPServer.set_tools l s). rewrite list_lookup_alter_eq, Hl.
           split; [done|]. repeat split. right. exists response, l.
           split; [congruence | done].
        -- exists s. rewrite list_lookup_alter_ne by done.
           eauto using tools_evolve_refl.
  - destruct (JsValue.truthy _); [|apply advances_refl].
    destruct (result_field "resources" response); [|apply advances_refl].
    apply advances_alter. intros s. repeat split. by left.
Qed.

(** A listener keeps its call in order. *)
Lemma handled_ok t h c : call_ok t c -> call_ok t (handled h c).
Proof.
  intros [Hw Hf Hr Hs]. split; cbn.
  - exact Hw.
  - intros Ht. destruct (Hf Ht) as [Hd Hn]. split; [done|].
    destruct (h_resolved h), (pc_settled c); done.
  - intros m. destruct (h_resolved h), (pc_settled c) eqn:E; try done; apply Hr.
  - destruct (h_resolved h); [done|]. exact Hs.
Qed.

Lemma handled_same h c : same_call c (handled h c).
Proof. by repeat split. Qed.

Lemma timed_out_same c : same_call c (timed_out c).
Proof. by repeat split. Qed.

Lemma expire_ok t t' c : t <= t' -> call_ok t c -> call_ok t' (expire t' c).
Proof.
  intros Ht [Hw Hf Hr Hs]. unfold expire.
  destruct (Z.leb_spec (pc_deadline c) t') as [Hd|Hd];
    [destruct (bool_decide_reflect (pc_timer c = true)) as [Htimer|Htimer]|].
  - rewrite Htimer. cbn [andb]. split; cbn; [done | | | done].
    + intros _. split; [done|]. by destruct (pc_settled c).
    + intros m Hm. split; [done|].
      destruct (pc_settled c) as [s|] eqn:E.
      * injection Hm as ->. by destruct (Hr m eq_refl).
      * by injection Hm as <-.
  - apply not_true_is_false in Htimer. rewrite Htimer. cbn [andb].
    split; [congruence | | done | done].
    intros _. destruct (Hf Htimer). split; [lia | done].
  - rewrite andb_false_r. split; [intros _; lia | | done | done].
    intros Htimer. destruct (Hf Htimer). split; [lia | done].
Qed.

Lemma expire_same t c : same_call c (expire t c).
Proof. unfold expire. destruct (_ && _); [apply timed_out_same | apply same_call_refl]. Qed.

Lemma advances_hear (hear : PendingCall -> PendingCall) st :
  (forall t c, call_ok t c -> call_ok t (hear c)) ->
  (forall c, same_call c (hear c)) ->
  advances st (Upd.on_calls (fun _ => map hear (calls st)) st).
Proof.
  intros Hok Hsame. split; [cbn; lia | |].
  - intros k c Hl Hc. exists (hear c). cbn.
    rewrite list_lookup_fmap, Hl. eauto.
  - intros r s Hl. exists s. eauto using tools_evolve_refl.
Qed.

Lemma advances_emit hear st :
  (forall t c, call_ok t c -> call_ok t (hear c)) ->
  (forall c, same_call c (hear c)) ->
  advances st (emit hear st).
Proof.
  intros Hok Hsame. unfold emit.
  eapply advances_trans; [by apply advances_hear|].
  apply advances_foldl. intros. apply advances_resume.
Qed.

Lemma advances_elapse dt now st : advances st (elapse dt now st).
Proof.
  unfold elapse. split; [cbn; lia | |].
  - intros k c Hl Hc. exists (expire (clock st + Z.max 0 dt) c). cbn.
    rewrite list_lookup_fmap, Hl. split; [done|].
    split; [apply expire_same | apply (expire_ok (clock st)); [lia | done]].
  - intros r s Hl. exists s. eauto using tools_evolve_refl.
Qed.

Section RunFacts.

Variable JSON_parse : string -> option Json.
Variable read_config : string -> option ConfigDoc.
Variable valid_url : string -> bool.

Lemma advances_step a st :
  advances st (step JSON_parse read_config valid_url a st).
Proof.
  destruct a; cbn [step].
  - apply advances_connectToServer.
  - apply advances_disconnectServer.
  - apply advances_disconnectAll.
  - apply advances_executeTool.
  - apply advances_updateConfig.
  - apply advances_on_spawn.
  - apply advances_on_error.
  - apply advances_on_exit.
  - apply advances_emit.
    + intros t c Hc. unfold hear_stdout. destruct (_ && _); [by apply handled_ok | done].
    + intros c. unfold hear_stdout.
      destruct (_ && _); [apply handled_same | apply same_call_refl].
  - apply advances_on_open.
  - apply advances_on_ws_error.
  - apply advances_on_close.
  - apply advances_emit.
    + intros t c Hc. unfold hear_message. destruct (_ && _); [by apply handled_ok | done].
    + intros c. unfold hear_message.
      destruct (_ && _); [apply handled_same | apply same_call_refl].
  - apply advances_elapse.
Qed.

Lemma advances_run actions st :
  advances st (run JSON_parse read_config valid_url actions st).
Proof. apply advances_foldl. intros. apply advances_step. Qed.

End RunFacts.

(** ** The environment of a spawned child *)

Lemma pinned_cases k :
  pinned k = true -> k = "PATH" \/ k = "SHELL" \/ k = "HOME" \/ k = "USER".
Proof.
  unfold pinned. rewrite !orb_true_iff, !String.eqb_eq. tauto.
Qed.

Lemma not_pinned k :
  pinned k = false -> k <> "PATH" /\ k <> "SHELL" /\ k <> "HOME" /\ k <> "USER".
Proof.
  unfold pinned. rewrite !orb_false_iff, !String.eqb_neq. tauto.
Qed.

(** [mergedEnv], key by key. *)
Lemma mergedEnv_lookup h (server_env : option (gmap string string)) k :
  mergedEnv h server_env !! k =
  if pinned k then Some (Js.or_string (process_env h !! k) (pinned_default h k))
  else match default ∅ server_env !! k with
       | Some v => Some v
       | None => process_env h !! k
       end.
Proof.
  unfold mergedEnv.
  destruct (pinned k) eqn:Hp.
  - apply pinned_cases in Hp as [-> | [-> | [-> | ->]]];
      by simplify_map_eq.
  - apply not_pinned in Hp as (? & ? & ? & ?).
    rewrite !lookup_insert_ne by done.
    rewrite lookup_union.
    destruct (default ∅ server_env !! k), (process_env h !! k); done.
Qed.

(** C8, as amended.  The child of a stdio provider is spawned with the
    host's environment overlaid with the configured one, the configured
    value winning on a conflict, except for PATH, SHELL, HOME and USER:
    each of these four is the host's value when the host has a
    non-empty one and the platform default otherwise, whatever the
    configuration says. *)
Theorem spawned_child_environment valid_url serverId ref server command st :
  get_server serverId st = Some (ref, server) ->
  MCPServer.transport server = "stdio" ->
  MCPServer.command server = Some command ->
  JsString.is_empty command = false ->
  exists child,
    children (connectToServer valid_url serverId st).2 = children st ++ [child] /\
    cp_command child = command /\
    cp_args child = default [] (MCPServer.args server) /\
    forall k,
      cp_env child !! k =
      if pinned k
      then Some (Js.or_string (process_env (host st) !! k) (pinned_default (host st) k))
      else match default ∅ (MCPServer.env server) !! k with
           | Some v => Some v
           | None => process_env (host st) !! k
           end.
Proof.
  intros Hs Ht Hc He. unfold connectToServer. rewrite Hs, Ht.
  change (("stdio" =? "stdio")%string) with true. cbn iota.
  unfold connectStdioServer. rewrite Hc, He. cbn.
  eexists. split; [reflexivity|]. split; [done|]. split; [done|].
  intros k. cbn. apply mergedEnv_lookup.
Qed.

Lemma spawned_child_environment_witness :
  exists child,
    children (connectToServer (fun _ => true) "fs" Examples.custom).2 = [child] /\
    cp_env child !! "TOKEN" = Some "t0" /\
    cp_env child !! "PATH" = Some "/bin" /\
    cp_env child !! "SHELL" = Some "/bin/zsh" /\
    cp_env child !! "HOME" = Some "/root" /\
    cp_env child !! "USER" = Some "root".
Proof.
  destruct (spawned_child_environment (fun _ => true) "fs" 0%nat
              (default filesystem_server (snd <$> get_server "fs" Examples.custom))
              "echo" Examples.custom)
    as (child & Hchildren & _ & _ & Henv);
    [by vm_compute | by vm_compute | by vm_compute | by vm_compute |].
  exists child. split; [exact Hchildren|].
  rewrite !Henv. by vm_compute.
Defined.

(** C8 as stated fails: with PATH set both by the host and by the
    configuration, the child gets the host's PATH, not the configured
    one. *)
Lemma child_gets_the_host_PATH :
  let env : gmap string string := {[ "PATH" := "/custom"; "TOKEN" := "t0" ]} in
  MCPServer.env <$> (snd <$> get_server "fs" Examples.custom) = Some (Some env) /\
  process_env Examples.host0 !! "PATH" = Some "/bin" /\
  spec_env Examples.host0 env !! "PATH" = Some "/custom" /\
  (fun child => cp_env child !! "PATH")
    <$> children (connectToServer (fun _ => true) "fs" Examples.custom).2
  = [Some "/bin"].
Proof.
  cbn zeta. split; [|split; [|split]]; vm_compute; reflexivity.
Qed.

(** ** [executeTool] refuses before any I/O *)

(** C5.  [executeTool] against a provider that is unknown or not in
    the [connected] status, or naming a tool that is not in its tool
    list, throws at once ("... is not connected" or "Tool ... not
    found on server ...") and leaves the whole state as it was: nothing
    is written to any process or socket. *)
Theorem executeTool_refuses_without_io serverId toolCall st :
  (forall ref server,
      get_server serverId st = Some (ref, server) ->
      MCPServer.status server <> connected \/
      find (has_name (MCPToolCall.name toolCall)) (MCPServer.tools server) = None) ->
  exists message,
    executeTool serverId toolCall st = (SendThrows message, st) /\
    (message = "Server " +:+ serverId +:+ " is not connected" \/
     message = "Tool " +:+ MCPToolCall.name toolCall +:+ " not found on server " +:+ serverId).
Proof.
  intros H. unfold executeTool.
  destruct (get_server serverId st) as [[ref server]|] eqn:Hs; [|eauto].
  destruct (H ref server eq_refl) as [Hst | Hfind].
  - destruct (MCPServer.status server); [done | cbn; eauto ..].
  - destruct (Status_eqb (MCPServer.status server) connected); cbn; [|eauto].
    rewrite Hfind. eauto.
Qed.

Lemma executeTool_refuses_without_io_witness :
  exists message,
    executeTool "fs" (Examples.call "fs_tool") Examples.loaded
    = (SendThrows message, Examples.loaded) /\
    (message = "Server fs is not connected" \/
     message = "Tool fs_tool not found on server fs").
Proof.
  apply (executeTool_refuses_without_io "fs" (Examples.call "fs_tool") Examples.loaded).
  intros ref server Hs. left. vm_compute in Hs. injection Hs as <- <-. discriminate.
Defined.

(** ** Connecting again *)

Lemma sendMessage_child serverId message caller st pid child :
  children st !! pid = Some child ->
  exists child',
    children (sendMessage serverId message caller st).2 !! pid = Some child' /\
    cp_connect child' = cp_connect child.
Proof.
  intros Hc. unfold sendMessage.
  destruct (connections st !! serverId) as [[pid'|wid]|]; cbn; [|by exists child..].
  destruct (decide (pid' = pid)) as [->|Hne].
  - rewrite list_lookup_alter_eq, Hc. by eexists.
  - rewrite list_lookup_alter_ne by done. by exists child.
Qed.

(** The promise of [connectStdioServer] is resolved with [true] by the
    [spawn] event and with [false] by the [error] event. *)
Lemma on_spawn_resolves pid child server st :
  children st !! pid = Some child ->
  store st !! cp_server child = Some server ->
  cp_connect child = None ->
  cp_connect <$> children (on_spawn pid st) !! pid = Some (Some true).
Proof.
  intros Hc Hs Hn. unfold on_spawn. rewrite Hc, Hs.
  set (st2 := Upd.on_connections _ _).
  assert (children st2 !! pid = Some child) as Hc2 by exact Hc.
  unfold initializeServerConnection.
  destruct (store st2 !! cp_server child) as [server'|].
  - destruct (sendMessage_child (MCPServer.id server') initialize_request
                (FromInitialize (cp_server child)) st2 pid child Hc2)
      as (child' & Hc' & Hn').
    unfold Upd.child. cbn [children Upd.on_children].
    rewrite list_lookup_alter_eq, Hc'. cbn. by rewrite Hn', Hn.
  - unfold Upd.child. cbn [children Upd.on_children].
    rewrite list_lookup_alter_eq, Hc2. cbn. by rewrite Hn.
Qed.

Lemma on_error_resolves pid child st :
  children st !! pid = Some child ->
  cp_connect child = None ->
  cp_connect <$> children (on_error pid st) !! pid = Some (Some false).
Proof.
  intros Hc Hn. unfold on_error. rewrite Hc.
  unfold Upd.child, Upd.status. cbn [children Upd.on_children Upd.on_store].
  rewrite list_lookup_alter_eq, Hc. cbn. by rewrite Hn.
Qed.

Lemma on_open_resolves wid ws server st :
  sockets st !! wid = Some ws ->
  store st !! ws_server ws = Some server ->
  ws_connect ws = None ->
  ws_connect <$> sockets (on_open wid st) !! wid = Some (Some true).
Proof.
  intros Hc Hs Hn. unfold on_open. rewrite Hc, Hs.
  unfold Upd.socket, Upd.status.
  cbn [sockets Upd.on_sockets Upd.on_store Upd.on_connections].
  rewrite list_lookup_alter_eq, Hc. cbn. by rewrite Hn.
Qed.

Lemma on_ws_error_resolves wid ws st :
  sockets st !! wid = Some ws ->
  ws_connect ws = None ->
  ws_connect <$> sockets (on_ws_error wid st) !! wid = Some (Some false).
Proof.
  intros Hc Hn. unfold on_ws_error. rewrite Hc.
  unfold Upd.socket, Upd.status. cbn [sockets Upd.on_sockets Upd.on_store].
  rewrite list_lookup_alter_eq, Hc. cbn. by rewrite Hn.
Qed.

(** C2, as amended.  [connectToServer] does not look at the status:
    whatever it is, for a stdio provider with a command it spawns a new
    child process, and for a websocket provider with a valid address it
    opens a new socket.  Its result awaits the events of that new
    transport: it is [true] once the process has spawned or the socket
    is open, and [false] once the process or the socket has emitted an
    error. *)
Theorem connectToServer_opens_whatever_status valid_url serverId ref server st :
  get_server serverId st = Some (ref, server) ->
  (forall command,
      MCPServer.transport server = "stdio" ->
      MCPServer.command server = Some command ->
      JsString.is_empty command = false ->
      exists child,
        let pid := length (children st) in
        let st1 := Upd.on_children (fun l => l ++ [child]) st in
        connectToServer valid_url serverId st = (ConnectAwaits (ChildProcess pid), st1) /\
        cp_server child = ref /\ cp_command child = command /\
        cp_killed child = false /\ cp_connect child = None /\
        cp_connect <$> children (on_spawn pid st1) !! pid = Some (Some true) /\
        cp_connect <$> children (on_error pid st1) !! pid = Some (Some false)) /\
  (MCPServer.transport server = "websocket" ->
   valid_url (MCPServer.url server) = true ->
   exists ws,
     let wid := length (sockets st) in
     let st1 := Upd.on_sockets (fun l => l ++ [ws]) st in
     connectToServer valid_url serverId st = (ConnectAwaits (WebSocket wid), st1) /\
     ws_server ws = ref /\ ws_url ws = MCPServer.url server /\
     ws_closed ws = false /\ ws_connect ws = None /\
     ws_connect <$> sockets (on_open wid st1) !! wid = Some (Some true) /\
     ws_connect <$> sockets (on_ws_error wid st1) !! wid = Some (Some false)).
Proof.
  intros Hs. pose proof (get_server_inv _ _ _ _ Hs) as [_ Hstore]. split.
  - intros command Ht Hc He. unfold connectToServer. rewrite Hs, Ht.
    change (("stdio" =? "stdio")%string) with true. cbn iota.
    unfold connectStdioServer. rewrite Hc, He.
    eexists. cbn zeta. split; [reflexivity|].
    split; [done|]. split; [done|]. split; [done|]. split; [done|]. split.
    + eapply on_spawn_resolves;
        [cbn; by rewrite lookup_app_r, Nat.sub_diag | exact Hstore | reflexivity].
    + eapply on_error_resolves;
        [cbn; by rewrite lookup_app_r, Nat.sub_diag | reflexivity].
  - intros Ht Hv. unfold connectToServer. rewrite Hs, Ht.
    change (("websocket" =? "stdio")%string) with false.
    change (("websocket" =? "websocket")%string) with true. cbn iota.
    unfold connectWebSocketServer. rewrite Hv.
    eexists. cbn zeta. split; [reflexivity|].
    split; [done|]. split; [done|]. split; [done|]. split; [done|]. split.
    + eapply on_open_resolves;
        [cbn; by rewrite lookup_app_r, Nat.sub_diag | exact Hstore | reflexivity].
    + eapply on_ws_error_resolves;
        [cbn; by rewrite lookup_app_r, Nat.sub_diag | reflexivity].
Qed.

Lemma connectToServer_opens_whatever_status_witness :
  exists child,
    let st1 := Upd.on_children (fun l => l ++ [child]) Examples.ready in
    connectToServer (fun _ => true) "fs" Examples.ready
    = (ConnectAwaits (ChildProcess 1), st1) /\
    cp_server child = 0%nat /\ cp_command child = "echo" /\
    cp_killed child = false /\ cp_connect child = None /\
    cp_connect <$> children (on_spawn 1 st1) !! 1%nat = Some (Some true) /\
    cp_connect <$> children (on_error 1 st1) !! 1%nat = Some (Some false).
Proof.
  destruct (connectToServer_opens_whatever_status (fun _ => true) "fs" 0%nat
              (default filesystem_server (snd <$> get_server "fs" Examples.ready))
              Examples.ready) as [Hstdio _]; [by vm_compute|].
  apply (Hstdio "echo"); by vm_compute.
Defined.

(** C2 as stated fails: connecting a provider that is already
    [connected] is not a no-op; it spawns a second process, and once
    that one has spawned two live processes exist for the provider. *)
Lemma connect_while_connected_opens_a_transport :
  MCPServer.status <$> (snd <$> get_server "fs" Examples.ready) = Some connected /\
  length (children Examples.ready) = 1%nat /\
  (connectToServer (fun _ => true) "fs" Examples.ready).1
    = ConnectAwaits (ChildProcess 1) /\
  length (children (connectToServer (fun _ => true) "fs" Examples.ready).2) = 2%nat /\
  let st := Examples.go [ConnectToServer "fs"; Spawn 1] Examples.ready in
  connections st !! "fs" = Some (ChildProcess 1) /\
  map cp_killed (children st) = [false; false].
Proof. by vm_compute. Qed.

(** ** Request ids *)




(** ** A chunk boundary inside a character *)

(** C3, on the failing input.  A response whose two-byte character is
    cut by the chunk boundary is decoded chunk by chunk into two
    replacement characters: the frame extracted from the two chunks
    differs from the frame extracted from the same bytes in one chunk. *)
Theorem split_character_changes_the_frame :
  feed JsonText.parse 7 "" [Examples.cut_head; Examples.cut_tail]
  = (let r := JObj [("id", JNum 7);
                    ("result", JStr (string_of_list_byte (Utf8.replacement ++ Utf8.replacement)))] in
     ([r], Some r)) /\
  feed JsonText.parse 7 "" [Examples.cut_head ++ Examples.cut_tail]
  = (let r := JObj [("id", JNum 7); ("result", JStr (string_of_list_byte [xc3; xa9]))] in
     ([r], Some r)) /\
  feed JsonText.parse 7 "" [Examples.cut_head; Examples.cut_tail]
  <> feed JsonText.parse 7 "" [concat [Examples.cut_head; Examples.cut_tail]].
Proof. by vm_compute. Qed.

(** ** Timeouts *)

(** The call [sendMessage] creates. *)
Lemma sendMessage_pending serverId message caller st0 k st :
  sendMessage serverId message caller st0 = (SendPending k, st) ->
  exists c,
    calls st !! k = Some c /\ clock st = clock st0 /\
    pc_message c = message /\ pc_deadline c = clock st0 + timeoutMs /\
    pc_settled c = None /\ pc_listening c = true /\ pc_timer c = true.
Proof.
  unfold sendMessage. destruct (connections st0 !! serverId) as [conn|]; [|done].
  intros [= <- <-]. eexists. split.
  - cbn. destruct conn; cbn; by rewrite lookup_app_r, Nat.sub_diag.
  - by destruct conn.
Qed.

(** C6.  A call that [sendMessage] has sent and that no response has
    resolved is unsettled as long as the timers' clock is below its
    deadline, 120000 ms after it was sent; once the clock has reached
    the deadline it is rejected with the timeout error, its handler is
    unregistered and its timer is spent.  No rejection happens before
    the deadline. *)
Theorem unanswered_call_times_out JSON_parse read_config valid_url
    serverId message caller st0 k st actions :
  sendMessage serverId message caller st0 = (SendPending k, st) ->
  let st' := run JSON_parse read_config valid_url actions st in
  exists c,
    calls st' !! k = Some c /\ pc_message c = message /\
    pc_deadline c = clock st0 + timeoutMs /\
    (forall m, pc_settled c = Some (Rejected m) ->
               clock st0 + timeoutMs <= clock st' /\ m = timeout_message c) /\
    (~ is_resolved c ->
     (clock st' < clock st0 + timeoutMs -> pc_settled c = None) /\
     (clock st0 + timeoutMs <= clock st' ->
      pc_settled c = Some (Rejected (timeout_message c)) /\
      pc_listening c = false /\ pc_timer c = false)).
Proof.
  intros Hsend st'.
  destruct (sendMessage_pending _ _ _ _ _ _ Hsend)
    as (c0 & Hk & Hclock & Hmsg & Hdl & Hset & Hlis & Htim).
  assert (call_ok (clock st) c0) as Hok0.
  { split; [unfold timeoutMs in *; lia | congruence..]. }
  destruct (adv_calls _ _ (advances_run JSON_parse read_config valid_url actions st)
              k c0 Hk Hok0) as (c & Hk' & (Hconn & Hname & Hmsg' & Hdl' & Hcaller) & [Hw Hf Hr Hs]).
  exists c. fold st' in Hk', Hw, Hf. rewrite Hdl in Hdl'. rewrite Hdl' in Hw, Hf.
  split; [done|]. split; [congruence|]. split; [done|]. split.
  - intros m Hm. destruct (Hr m Hm) as [Ht ->]. destruct (Hf Ht). done.
  - intros Hnres. split.
    + intros Hearly. destruct (pc_settled c) as [[r|m]|] eqn:E; [| |done].
      * destruct Hnres. by exists r.
      * destruct (Hr m eq_refl) as [Ht _]. destruct (Hf Ht). lia.
    + intros Hlate. destruct (pc_timer c) eqn:Ht; [specialize (Hw eq_refl); lia|].
      destruct (Hf eq_refl) as [_ Hne].
      destruct (pc_settled c) as [[r|m]|] eqn:E; [| |done].
      * destruct Hnres. by exists r.
      * destruct (Hr m eq_refl) as [_ ->]. split; [done|]. split; [|done].
        by apply Hs.
Qed.

Lemma unanswered_call_times_out_witness :
  let sent := sendMessage "fs" (tools_call 1000 (Examples.call "ls")) FromExecuteTool
                Examples.ready in
  let st' := Examples.go [Stdout 0 (Examples.line "{'jsonrpc':'2.0','id':99,'result':1}");
                          Elapse 120000 121000] sent.2 in
  sent.1 = SendPending 3 /\
  exists c,
    calls st' !! 3%nat = Some c /\
    pc_settled c = Some (Rejected "MCP request timeout after 120s for server FS") /\
    pc_listening c = false /\ pc_timer c = false.
Proof.
  cbn zeta. split; [reflexivity|].
  destruct (unanswered_call_times_out JsonText.parse Examples.read_config (fun _ => true)
              "fs" (tools_call 1000 (Examples.call "ls")) FromExecuteTool
              Examples.ready 3%nat
              (sendMessage "fs" (tools_call 1000 (Examples.call "ls")) FromExecuteTool
                 Examples.ready).2
              [Stdout 0 (Examples.line "{'jsonrpc':'2.0','id':99,'result':1}");
               Elapse 120000 121000])
    as (c & Hk & _ & _ & _ & Hun); [reflexivity|].
  exists c. split; [exact Hk|].
  assert (~ is_resolved c) as Hnres.
  { intros [r Hr]. vm_compute in Hk. injection Hk as <-. discriminate Hr. }
  destruct (Hun Hnres) as [_ Hlate].
  destruct Hlate as (Hs & Hl & Ht); [vm_compute; discriminate|].
  split; [|exact (conj Hl Ht)]. rewrite Hs.
  vm_compute in Hk. injection Hk as <-. reflexivity.
Defined.

(** ** Disconnecting *)

(** C1, as amended.  [disconnectServer] kills the process or closes
    the socket, removes the connection and sets the status to
    [disconnected]; it leaves the pending calls as they are.  A call
    that is still pending is rejected, with the timeout error, when its
    120-second timer runs. *)
Theorem disconnectServer_leaves_calls_pending serverId st :
  let st' := disconnectServer serverId st in
  connections st' !! serverId = None /\
  (forall pid child,
      connections st !! serverId = Some (ChildProcess pid) ->
      children st !! pid = Some child ->
      children st' !! pid = Some (Upd.kill child)) /\
  (forall wid ws,
      connections st !! serverId = Some (WebSocket wid) ->
      sockets st !! wid = Some ws ->
      sockets st' !! wid = Some (Upd.close ws)) /\
  (forall ref server,
      get_server serverId st = Some (ref, server) ->
      get_server serverId st' = Some (ref, MCPServer.set_status disconnected server)) /\
  calls st' = calls st /\ clock st' = clock st /\
  forall k c,
    calls st !! k = Some c -> pc_settled c = None -> pc_timer c = true ->
    forall dt now,
    exists c',
      calls (elapse dt now st') !! k = Some c' /\
      pc_settled c' = if pc_deadline c <=? clock st + Z.max 0 dt
                      then Some (Rejected (timeout_message c)) else None.
Proof.
  cbn zeta. unfold disconnectServer.
  set (st1 := match connections st !! serverId with Some _ => _ | None => _ end).
  assert (connections st1 !! serverId = None /\ calls st1 = calls st /\
          clock st1 = clock st /\ servers st1 = servers st /\ store st1 = store st /\
          (forall pid child,
              connections st !! serverId = Some (ChildProcess pid) ->
              children st !! pid = Some child ->
              children st1 !! pid = Some (Upd.kill child)) /\
          (forall wid ws,
              connections st !! serverId = Some (WebSocket wid) ->
              sockets st !! wid = Some ws ->
              sockets st1 !! wid = Some (Upd.close ws)))
    as (Hconn & Hcalls & Hclock & Hservers & Hstore & Hkill & Hclose).
  { subst st1. destruct (connections st !! serverId) as [[pid|wid]|] eqn:E; cbn.
    - rewrite lookup_delete_eq. repeat split; try done.
      intros p child [= <-] Hc. by rewrite list_lookup_alter_eq, Hc.
    - rewrite lookup_delete_eq. repeat split; try done.
      intros w ws [= <-] Hw. by rewrite list_lookup_alter_eq, Hw.
    - done. }
  assert (forall st2, calls st2 = calls st -> clock st2 = clock st ->
            forall k c, calls st !! k = Some c -> pc_settled c = None -> pc_timer c = true ->
            forall dt now, exists c',
              calls (elapse dt now st2) !! k = Some c' /\
              pc_settled c' = if pc_deadline c <=? clock st + Z.max 0 dt
                              then Some (Rejected (timeout_message c)) else None) as Htimer.
  { intros st2 Hc2 Ht2 k c Hk Hset Htim dt now.
    exists (expire (clock st + Z.max 0 dt) c). cbn.
    rewrite Hc2, Ht2, list_lookup_fmap, Hk. split; [done|].
    unfold expire. rewrite Htim. cbn [andb].
    destruct (pc_deadline c <=? clock st + Z.max 0 dt); cbn; by rewrite Hset. }
  destruct (Js.map_get serverId (servers st1)) as [ref|] eqn:Hm.
  - cbn. repeat split; try done.
    + intros r server Hg. apply get_server_inv in Hg as [Hm' Hs'].
      rewrite <- Hservers, Hm in Hm'. injection Hm' as <-.
      apply get_server_intro; cbn; [exact Hm|].
      by rewrite Hstore, list_lookup_alter_eq, Hs'.
    + by apply Htimer.
  - repeat split; try done.
    + intros r server Hg. apply get_server_inv in Hg as [Hm' _]. congruence.
    + by apply Htimer.
Qed.

(** C1 as stated fails: a tool call pending on [fs] is still pending,
    its handler registered, after [fs] is disconnected; it is rejected
    120000 ms after it was sent, not before. *)
Lemma disconnect_leaves_the_call_waiting :
  let st := Examples.go [ExecuteTool "fs" (Examples.call "ls")] Examples.ready in
  let st' := Examples.go [DisconnectServer "fs"] st in
  (fun c => (pc_connection c, pc_settled c)) <$> calls st !! 3%nat
    = Some (ChildProcess 0, None) /\
  connections st !! "fs" = Some (ChildProcess 0) /\
  connections st' !! "fs" = None /\
  (fun c => (pc_settled c, pc_listening c, pc_deadline c)) <$> calls st' !! 3%nat
    = Some (None, true, 120000) /\
  clock st' = 0 /\
  pc_settled <$> calls (Examples.go [Elapse 119999 0] st') !! 3%nat = Some None /\
  pc_settled <$> calls (Examples.go [Elapse 120000 0] st') !! 3%nat
    = Some (Some (Rejected "MCP request timeout after 120s for server FS")).
Proof. by vm_compute. Qed.

(** ** What the operations leave alone *)

Lemma frames_refl st : frames st st.
Proof. split; [done | exists []; by rewrite app_nil_r | done | done]. Qed.

Lemma frames_trans st1 st2 st3 : frames st1 st2 -> frames st2 st3 -> frames st1 st3.
Proof.
  intros [Hs1 (e1 & Hc1 & He1) Ht1 Hn1] [Hs2 (e2 & Hc2 & He2) Ht2 Hn2].
  split; [congruence | | congruence | congruence].
  exists (e1 ++ e2). split; [by rewrite Hc2, Hc1, (assoc_L (++))|].
  by apply Forall_app.
Qed.

Lemma frames_same st st' :
  servers st' = servers st -> calls st' = calls st ->
  clock st' = clock st -> Date_now st' = Date_now st -> frames st st'.
Proof. intros ? Hc ? ?. split; [done | | done | done]. exists []. by rewrite app_nil_r. Qed.

Lemma frames_foldl {A} (f : State -> A -> State) (l : list A) st :
  (forall s a, frames s (f s a)) -> frames st (foldl f st l).
Proof.
  intros Hf. revert st. induction l as [|a l IH]; intros st; [apply frames_refl|].
  cbn. eapply frames_trans; [apply Hf | apply IH].
Qed.

Lemma frames_sendMessage serverId message caller st :
  frames st (sendMessage serverId message caller st).2.
Proof.
  unfold sendMessage. destruct (connections st !! serverId) as [[pid|wid]|]; cbn [snd];
    [| |apply frames_refl];
    (split; [done | eexists; split; [reflexivity | by repeat constructor] | done | done]).
Qed.

Lemma frames_sendNotification serverId message st :
  frames st (sendNotification serverId message st).
Proof.
  unfold sendNotification.
  destruct (connections st !! serverId) as [[pid|wid]|];
    [by apply frames_same.. | apply frames_refl].
Qed.

Lemma frames_connectToServer valid_url serverId st :
  frames st (connectToServer valid_url serverId st).2.
Proof.
  unfold connectToServer.
  destruct (get_server serverId st) as [[ref server]|]; [|apply frames_refl].
  destruct (String.eqb _ "stdio").
  { unfold connectStdioServer. destruct (MCPServer.command server) as [c|].
    - by destruct (JsString.is_empty c); apply frames_same.
    - by apply frames_same. }
  destruct (String.eqb _ "websocket").
  { unfold connectWebSocketServer. destruct (valid_url _); [by apply frames_same|].
    apply frames_refl. }
  destruct (String.eqb _ "sse"); [apply frames_refl | by apply frames_same].
Qed.

Lemma frames_disconnectServer serverId st : frames st (disconnectServer serverId st).
Proof.
  unfold disconnectServer.
  set (st1 := match connections st !! serverId with Some _ => _ | None => _ end).
  assert (frames st st1) as H1.
  { subst st1. destruct (connections st !! serverId) as [[pid|wid]|];
      [by apply frames_same.. | apply frames_refl]. }
  destruct (Js.map_get serverId (servers st1)); [|done].
  eapply frames_trans; [exact H1 | by apply frames_same].
Qed.

Lemma frames_disconnectAll st : frames st (disconnectAll st).
Proof. apply frames_foldl. intros. apply frames_disconnectServer. Qed.

Lemma frames_executeTool serverId toolCall st :
  frames st (executeTool serverId toolCall st).2.
Proof.
  unfold executeTool.
  destruct (get_server serverId st) as [[ref server]|]; [|apply frames_refl].
  destruct (negb _); [apply frames_refl|].
  destruct (find _ _); [apply frames_sendMessage | apply frames_refl].
Qed.

Lemma frames_initializeServerConnection ref st :
  frames st (initializeServerConnection ref st).
Proof.
  unfold initializeServerConnection.
  destruct (store st !! ref); [apply frames_sendMessage | apply frames_refl].
Qed.

Lemma frames_on_spawn pid st : frames st (on_spawn pid st).
Proof.
  unfold on_spawn. destruct (children st !! pid) as [child|]; [|apply frames_refl].
  destruct (store st !! cp_server child) as [server|]; [|apply frames_refl].
  eapply (frames_trans _
            (Upd.on_connections (insert (MCPServer.id server) (ChildProcess pid))
               (Upd.status (cp_server child) connected st)));
    [by apply frames_same|].
  eapply frames_trans; [apply frames_initializeServerConnection|].
  by apply frames_same.
Qed.

Lemma frames_on_error pid st : frames st (on_error pid st).
Proof.
  unfold on_error. destruct (children st !! pid); [by apply frames_same | apply frames_refl].
Qed.

Lemma frames_on_exit pid st : frames st (on_exit pid st).
Proof.
  unfold on_exit. destruct (children st !! pid) as [child|]; [|apply frames_refl].
  destruct (store st !! cp_server child); [by apply frames_same | apply frames_refl].
Qed.

Lemma frames_on_open wid st : frames st (on_open wid st).
Proof.
  unfold on_open. destruct (sockets st !! wid) as [ws|]; [|apply frames_refl].
  destruct (store st !! ws_server ws); [by apply frames_same | apply frames_refl].
Qed.

Lemma frames_on_ws_error wid st : frames st (on_ws_error wid st).
Proof.
  unfold on_ws_error. destruct (sockets st !! wid); [by apply frames_same | apply frames_refl].
Qed.

Lemma frames_on_close wid st : frames st (on_close wid st).
Proof.
  unfold on_close. destruct (sockets st !! wid) as [ws|]; [|apply frames_refl].
  destruct (store st !! ws_server ws); [by apply frames_same | apply frames_refl].
Qed.

Lemma frames_resume caller response st : frames st (resume caller response st).
Proof.
  destruct caller as [|ref|ref|ref]; cbn [resume].
  - apply frames_refl.
  - destruct (store st !! ref) as [server|]; [|apply frames_refl].
    eapply frames_trans; [apply frames_sendNotification | apply frames_sendMessage].
  - destruct (store st !! ref) as [server|]; [|apply frames_refl].
    destruct (discover (MCPServer.name server) response) as [| |l].
    + apply frames_refl.
    + apply frames_sendMessage.
    + eapply (frames_trans _ (Upd.on_store (alter (MCPServer.set_tools l) ref) st));
        [by apply frames_same | apply frames_sendMessage].
  - destruct (JsValue.truthy _); [|apply frames_refl].
    destruct (result_field "resources" response); [by apply frames_same | apply frames_refl].
Qed.

Lemma frames_keeps st st' k c :
  frames st st' -> calls st !! k = Some c -> calls st' !! k = Some c.
Proof. intros [_ (extra & -> & _) _ _] H. by apply lookup_app_l_Some. Qed.

Lemma calls_updateConfig read_config configContent write_ok st :
  calls (updateConfig read_config configContent write_ok st).2 = calls st.
Proof.
  unfold updateConfig. destruct (read_config configContent) as [doc|]; [|done].
  destruct write_ok; [|done].
  destruct (config_servers doc) as [l|] eqn:E.
  - rewrite (loadServersFromConfig_installs _ _ _ E). cbn [snd].
    by destruct (set_servers_frame (installed l) (Upd.set_config_file configContent st))
      as (_ & _ & _ & -> & _).
  - unfold loadServersFromConfig. by rewrite E.
Qed.

(** ** The placeholder tool *)

Lemma getAvailableTools_connected serverId st ref server tool :
  get_server serverId st = Some (ref, server) ->
  MCPServer.status server = connected ->
  tool ∈ MCPServer.tools server ->
  tool ∈ getAvailableTools st.
Proof.
  intros Hg Hc Ht. unfold getAvailableTools.
  apply list_elem_of_In, in_concat.
  exists (MCPServer.tools server). split; [|by apply list_elem_of_In].
  apply in_map_iff. exists server. rewrite Hc. split; [done|].
  apply list_elem_of_In. by eapply get_server_listed.
Qed.

Lemma store_sendMessage serverId message caller st :
  store (sendMessage serverId message caller st).2 = store st.
Proof.
  unfold sendMessage. by destruct (connections st !! serverId) as [[pid|wid]|].
Qed.

Lemma store_sendNotification serverId message st :
  store (sendNotification serverId message st) = store st.
Proof.
  unfold sendNotification. by destruct (connections st !! serverId) as [[pid|wid]|].
Qed.

Lemma resume_replaces_tools ref response st server l :
  store st !! ref = Some server ->
  discover (MCPServer.name server) response = ReplaceTools l ->
  store (resume (FromToolsList ref) response st) !! ref
  = Some (MCPServer.set_tools l server).
Proof.
  intros Hs Hd. cbn [resume]. rewrite Hs, Hd, store_sendMessage. cbn.
  by rewrite list_lookup_alter_eq, Hs.
Qed.

(** *** The operations that leave the tools alone *)

Lemma keeps_tools_refl st : keeps_tools st st.
Proof. intros ref server H. by exists server. Qed.

Lemma keeps_tools_trans st1 st2 st3 :
  keeps_tools st1 st2 -> keeps_tools st2 st3 -> keeps_tools st1 st3.
Proof.
  intros H1 H2 ref s Hs.
  destruct (H1 ref s Hs) as (s' & Hs' & Hn & Ht).
  destruct (H2 ref s' Hs') as (s'' & Hs'' & Hn' & Ht').
  exists s''. repeat split; [done | congruence | congruence].
Qed.

Lemma keeps_tools_same st st' : store st' = store st -> keeps_tools st st'.
Proof. intros H ref server Hs. exists server. by rewrite H. Qed.

Lemma keeps_tools_alter f ref st :
  (forall s, MCPServer.name (f s) = MCPServer.name s /\
             MCPServer.tools (f s) = MCPServer.tools s) ->
  keeps_tools st (Upd.on_store (alter f ref) st).
Proof.
  intros Hf r s Hs. cbn. destruct (decide (ref = r)) as [->|Hne].
  - exists (f s). rewrite list_lookup_alter_eq, Hs. split; [done | apply Hf].
  - exists s. by rewrite list_lookup_alter_ne.
Qed.

Lemma keeps_tools_status ref v st : keeps_tools st (Upd.status ref v st).
Proof. by apply keeps_tools_alter. Qed.

Lemma keeps_tools_foldl {A} (f : State -> A -> State) (l : list A) st :
  (forall s a, keeps_tools s (f s a)) -> keeps_tools st (foldl f st l).
Proof.
  intros Hf. revert st. induction l as [|a l IH]; intros st; [apply keeps_tools_refl|].
  cbn. eapply keeps_tools_trans; [apply Hf | apply IH].
Qed.

Lemma keeps_tools_sendMessage serverId message caller st :
  keeps_tools st (sendMessage serverId message caller st).2.
Proof. apply keeps_tools_same, store_sendMessage. Qed.

Lemma keeps_tools_connectToServer valid_url serverId st :
  keeps_tools st (connectToServer valid_url serverId st).2.
Proof.
  unfold connectToServer.
  destruct (get_server serverId st) as [[ref server]|]; [|apply keeps_tools_refl].
  destruct (String.eqb _ "stdio").
  { unfold connectStdioServer. destruct (MCPServer.command server) as [c|].
    - destruct (JsString.is_empty c); [apply keeps_tools_status | by apply keeps_tools_same].
    - apply keeps_tools_status. }
  destruct (String.eqb _ "websocket").
  { unfold connectWebSocketServer. destruct (valid_url _); [by apply keeps_tools_same|].
    apply keeps_tools_refl. }
  destruct (String.eqb _ "sse"); [apply keeps_tools_refl | apply keeps_tools_status].
Qed.

Lemma keeps_tools_disconnectServer serverId st :
  keeps_tools st (disconnectServer serverId st).
Proof.
  unfold disconnectServer.
  set (st1 := match connections st !! serverId with Some _ => _ | None => _ end).
  assert (keeps_tools st st1) as H1.
  { subst st1. destruct (connections st !! serverId) as [[pid|wid]|];
      [by apply keeps_tools_same.. | apply keeps_tools_refl]. }
  destruct (Js.map_get serverId (servers st1)); [|done].
  eapply keeps_tools_trans; [exact H1 | apply keeps_tools_status].
Qed.

Lemma keeps_tools_disconnectAll st : keeps_tools st (disconnectAll st).
Proof. apply keeps_tools_foldl. intros. apply keeps_tools_disconnectServer. Qed.

Lemma keeps_tools_executeTool serverId toolCall st :
  keeps_tools st (executeTool serverId toolCall st).2.
Proof.
  unfold executeTool.
  destruct (get_server serverId st) as [[ref server]|]; [|apply keeps_tools_refl].
  destruct (negb _); [apply keeps_tools_refl|].
  destruct (find _ _); [apply keeps_tools_sendMessage | apply keeps_tools_refl].
Qed.

Lemma keeps_tools_set_server server st : keeps_tools st (set_server server st).
Proof.
  intros ref s Hs. exists s. cbn. split; [by apply lookup_app_l_Some | done].
Qed.

Lemma keeps_tools_set_servers l st : keeps_tools st (set_servers l st).
Proof. apply keeps_tools_foldl. intros. apply keeps_tools_set_server. Qed.

Lemma keeps_tools_updateConfig read_config configContent write_ok st :
  keeps_tools st (updateConfig read_config configContent write_ok st).2.
Proof.
  unfold updateConfig.
  destruct (read_config configContent) as [doc|]; [|apply keeps_tools_refl].
  destruct write_ok; [|apply keeps_tools_refl].
  assert (keeps_tools st (Upd.set_config_file configContent st)) as H0
    by by apply keeps_tools_same.
  unfold loadServersFromConfig.
  destruct (config_servers doc) as [[|s l]|]; cbn [snd]; [| |done];
    (eapply keeps_tools_trans; [exact H0 | apply keeps_tools_set_servers]).
Qed.

Lemma keeps_tools_initializeServerConnection ref st :
  keeps_tools st (initializeServerConnection ref st).
Proof.
  unfold initializeServerConnection.
  destruct (store st !! ref); [apply keeps_tools_sendMessage | apply keeps_tools_refl].
Qed.

Lemma keeps_tools_on_spawn pid st : keeps_tools st (on_spawn pid st).
Proof.
  unfold on_spawn. destruct (children st !! pid) as [child|]; [|apply keeps_tools_refl].
  destruct (store st !! cp_server child) as [server|]; [|apply keeps_tools_refl].
  eapply keeps_tools_trans; [apply (keeps_tools_status (cp_server child) connected)|].
  eapply (keeps_tools_trans _
            (Upd.on_connections (insert (MCPServer.id server) (ChildProcess pid))
               (Upd.status (cp_server child) connected st)));
    [by apply keeps_tools_same|].
  eapply keeps_tools_trans; [apply keeps_tools_initializeServerConnection|].
  by apply keeps_tools_same.
Qed.

Lemma keeps_tools_on_error pid st : keeps_tools st (on_error pid st).
Proof.
  unfold on_error. destruct (children st !! pid) as [child|]; [|apply keeps_tools_refl].
  eapply keeps_tools_trans; [apply (keeps_tools_status (cp_server child) error)|].
  by apply keeps_tools_same.
Qed.

Lemma keeps_tools_on_exit pid st : keeps_tools st (on_exit pid st).
Proof.
  unfold on_exit. destruct (children st !! pid) as [child|]; [|apply keeps_tools_refl].
  destruct (store st !! cp_server child) as [server|]; [|apply keeps_tools_refl].
  eapply keeps_tools_trans; [apply (keeps_tools_status (cp_server child) disconnected)|].
  by apply keeps_tools_same.
Qed.

Lemma keeps_tools_on_open wid st : keeps_tools st (on_open wid st).
Proof.
  unfold on_open. destruct (sockets st !! wid) as [ws|]; [|apply keeps_tools_refl].
  destruct (store st !! ws_server ws) as [server|]; [|apply keeps_tools_refl].
  eapply keeps_tools_trans; [apply (keeps_tools_status (ws_server ws) connected)|].
  by apply keeps_tools_same.
Qed.

Lemma keeps_tools_on_ws_error wid st : keeps_tools st (on_ws_error wid st).
Proof.
  unfold on_ws_error. destruct (sockets st !! wid) as [ws|]; [|apply keeps_tools_refl].
  eapply keeps_tools_trans; [apply (keeps_tools_status (ws_server ws) error)|].
  by apply keeps_tools_same.
Qed.

Lemma keeps_tools_on_close wid st : keeps_tools st (on_close wid st).
Proof.
  unfold on_close. destruct (sockets st !! wid) as [ws|]; [|apply keeps_tools_refl].
  destruct (store st !! ws_server ws) as [server|]; [|apply keeps_tools_refl].
  eapply keeps_tools_trans; [apply (keeps_tools_status (ws_server ws) disconnected)|].
  by apply keeps_tools_same.
Qed.

(** *** The history of the calls and of the tools *)

Lemma history_refl st : history st st.
Proof.
  split.
  - intros k c Hk. by exists c.
  - intros ref s Hs. exists s. repeat split; [done|]. by left.
Qed.

Lemma history_trans st1 st2 st3 : history st1 st2 -> history st2 st3 -> history st1 st3.
Proof.
  intros [Hc1 Hs1] [Hc2 Hs2]. split.
  - intros k c Hk.
    destruct (Hc1 k c Hk) as (c' & Hk' & Hcaller & Hset).
    destruct (Hc2 k c' Hk') as (c'' & Hk'' & Hcaller' & Hset').
    exists c''. repeat split; [done | congruence |].
    intros Hne. rewrite Hset', (Hset Hne); [done|]. by rewrite (Hset Hne).
  - intros ref s Hs.
    destruct (Hs1 ref s Hs) as (s' & Hs' & Hn & Ht).
    destruct (Hs2 ref s' Hs') as (s'' & Hs'' & Hn' & Ht').
    exists s''. repeat split; [done | congruence |].
    destruct Ht' as [Ht' | (k & c & response & l & Hk & Hcaller & Hres & Hnew & Hd)].
    + destruct Ht as [Ht | (k & c & response & l & Hk & Hcaller & Hres & Hnew & Hd)];
        [left; congruence|].
      right. destruct (Hc2 k c Hk) as (c' & Hk' & Hcaller' & Hset).
      exists k, c', response, l. repeat split; [done | congruence | | done | done].
      rewrite Hset; [done|]. by rewrite Hres.
    + right. exists k, c, response, l. repeat split; [done | done | done | | congruence].
      intros c0 Hk0. destruct (Hc1 k c0 Hk0) as (c1 & Hk1 & _ & Hset).
      destruct (pc_settled c0) as [s0|] eqn:E; [|done].
      rewrite (Hnew c1 Hk1) in Hset. by specialize (Hset ltac:(done)).
Qed.

(** An operation that keeps the existing calls and the tools. *)
Lemma history_quiet st st' : frames st st' -> keeps_tools st st' -> history st st'.
Proof.
  intros Hf Hk. split.
  - intros k c Hc. exists c. split; [by eapply frames_keeps | done].
  - intros ref s Hs. destruct (Hk ref s Hs) as (s' & Hs' & Hn & Ht).
    exists s'. repeat split; [done | done | by left].
Qed.

Lemma history_foldl {A} (f : State -> A -> State) (l : list A) st :
  (forall s a, history s (f s a)) -> history st (foldl f st l).
Proof.
  intros Hf. revert st. induction l as [|a l IH]; intros st; [apply history_refl|].
  cbn. eapply history_trans; [apply Hf | apply IH].
Qed.

(** What a continuation of the handshake does to a server object. *)
Lemma resume_store caller response st ref server :
  store st !! ref = Some server ->
  exists server',
    store (resume caller response st) !! ref = Some server' /\
    MCPServer.name server' = MCPServer.name server /\
    (MCPServer.tools server' = MCPServer.tools server \/
     caller = FromToolsList ref /\
     exists l, discover (MCPServer.name server) response = ReplaceTools l).
Proof.
  intros Hs.
  assert (forall st', store st' = store st ->
            exists server',
              store st' !! ref = Some server' /\
              MCPServer.name server' = MCPServer.name server /\
              (MCPServer.tools server' = MCPServer.tools server \/
               caller = FromToolsList ref /\
               exists l, discover (MCPServer.name server) response = ReplaceTools l))
    as Hsame.
  { intros st' H. exists server. rewrite H. repeat split; [done|]. by left. }
  destruct caller as [|r|r|r]; cbn [resume].
  - by apply Hsame.
  - destruct (store st !! r) as [s|]; [|by apply Hsame].
    apply Hsame. by rewrite store_sendMessage, store_sendNotification.
  - destruct (store st !! r) as [s|] eqn:Hr; [|by apply Hsame].
    destruct (discover (MCPServer.name s) response) as [| |l] eqn:Hd.
    + by apply Hsame.
    + apply Hsame. by rewrite store_sendMessage.
    + rewrite store_sendMessage. cbn. destruct (decide (r = ref)) as [->|Hne].
      * rewrite Hs in Hr. injection Hr as <-.
        exists (MCPServer.set_tools l server).
        rewrite list_lookup_alter_eq, Hs. repeat split. right. eauto.
      * exists server. rewrite list_lookup_alter_ne by done.
        repeat split; [done|]. by left.
  - destruct (JsValue.truthy _); [|by apply Hsame].
    destruct (result_field "resources" response) as [res|]; [|by apply Hsame].
    cbn. destruct (decide (r = ref)) as [->|Hne].
    + exists (MCPServer.set_resources res server).
      rewrite list_lookup_alter_eq, Hs. repeat split. by left.
    + exists server. rewrite list_lookup_alter_ne by done.
      repeat split; [done|]. by left.
Qed.

Lemma foldl_resume_store rs : forall st ref server,
  store st !! ref = Some server ->
  exists server',
    store (foldl (fun s r => resume r.1 r.2 s) st rs) !! ref = Some server' /\
    MCPServer.name server' = MCPServer.name server /\
    (MCPServer.tools server' = MCPServer.tools server \/
     exists response l,
       (FromToolsList ref, response) ∈ rs /\
       discover (MCPServer.name server) response = ReplaceTools l).
Proof.
  induction rs as [|[caller response] rs IH]; intros st ref server Hs.
  - exists server. repeat split; [done|]. by left.
  - cbn [foldl fst snd].
    destruct (resume_store caller response st ref server Hs) as (s1 & Hs1 & Hn1 & Ht1).
    destruct (IH _ ref s1 Hs1) as (s2 & Hs2 & Hn2 & Ht2).
    exists s2. repeat split; [done | congruence |].
    destruct Ht2 as [Ht2 | (r & l & Hin & Hd)].
    + destruct Ht1 as [Ht1 | (-> & l & Hd)]; [left; congruence|].
      right. exists response, l. split; [left | done].
    + right. exists r, l. split; [by right | congruence].
Qed.

Lemma newly_resolved_elem before after caller response :
  (caller, response) ∈ newly_resolved before after ->
  exists k c c',
    before !! k = Some c /\ after !! k = Some c' /\
    pc_settled c = None /\ pc_settled c' = Some (Resolved response) /\
    pc_caller c' = caller.
Proof.
  unfold newly_resolved. intros Hin.
  apply list_elem_of_omap in Hin as ([c c'] & Hz & Hp).
  apply list_elem_of_lookup in Hz as [k Hk].
  apply lookup_zip_with_Some in Hk as (x & y & [= <- <-] & Hx & Hy).
  cbn [fst snd] in Hp. exists k, c, c'.
  destruct (pc_settled c) as [?|]; [done|].
  destruct (pc_settled c') as [[r|m]|]; [|done..].
  injection Hp as <- <-. by repeat split.
Qed.

(** An event heard by the listeners. *)
Lemma history_emit hear st :
  (forall c, pc_caller (hear c) = pc_caller c /\
             (pc_settled c <> None -> pc_settled (hear c) = pc_settled c)) ->
  history st (emit hear st).
Proof.
  intros Hh. unfold emit.
  set (after := map hear (calls st)).
  set (st1 := Upd.on_calls (fun _ => after) st).
  set (rs := newly_resolved (calls st) after).
  assert (frames st1 (foldl (fun s r => resume r.1 r.2 s) st1 rs)) as Hf.
  { apply frames_foldl. intros. apply frames_resume. }
  assert (forall k c, after !! k = Some c ->
            calls (foldl (fun s r => resume r.1 r.2 s) st1 rs) !! k = Some c) as Hafter.
  { intros k c Hk. by eapply frames_keeps. }
  split.
  - intros k c Hk. exists (hear c). split; [|apply Hh].
    apply Hafter. subst after. by rewrite list_lookup_fmap, Hk.
  - intros ref server Hs.
    destruct (foldl_resume_store rs st1 ref server Hs) as (s' & Hs' & Hn & Ht).
    exists s'. repeat split; [done | done |].
    destruct Ht as [Ht | (response & l & Hin & Hd)]; [by left|]. right.
    apply newly_resolved_elem in Hin as (k & c & c' & Hk & Hk' & Hnone & Hres & Hcaller).
    exists k, c', response, l. repeat split; [by apply Hafter | done | done | | done].
    intros c0 Hk0. congruence.
Qed.

Section History.

Variable JSON_parse : string -> option Json.
Variable read_config : string -> option ConfigDoc.
Variable valid_url : string -> bool.

Lemma history_step a st : history st (step JSON_parse read_config valid_url a st).
Proof.
  destruct a; cbn [step].
  - apply history_quiet; [apply frames_connectToServer | apply keeps_tools_connectToServer].
  - apply history_quiet; [apply frames_disconnectServer | apply keeps_tools_disconnectServer].
  - apply history_quiet; [apply frames_disconnectAll | apply keeps_tools_disconnectAll].
  - apply history_quiet; [apply frames_executeTool | apply keeps_tools_executeTool].
  - split.
    + intros k c Hk. exists c. by rewrite calls_updateConfig.
    + intros ref s Hs.
      destruct (keeps_tools_updateConfig read_config configContent write_ok st ref s Hs)
        as (s' & Hs' & Hn & Ht).
      exists s'. repeat split; [done | done | by left].
  - apply history_quiet; [apply frames_on_spawn | apply keeps_tools_on_spawn].
  - apply history_quiet; [apply frames_on_error | apply keeps_tools_on_error].
  - apply history_quiet; [apply frames_on_exit | apply keeps_tools_on_exit].
  - apply history_emit. intros c. unfold hear_stdout.
    destruct (_ && _); [|done]. unfold handled. cbn. split; [done|].
    intros Hne. destruct (h_resolved _); [|done]. by destruct (pc_settled c).
  - apply history_quiet; [apply frames_on_open | apply keeps_tools_on_open].
  - apply history_quiet; [apply frames_on_ws_error | apply keeps_tools_on_ws_error].
  - apply history_quiet; [apply frames_on_close | apply keeps_tools_on_close].
  - apply history_emit. intros c. unfold hear_message.
    destruct (_ && _); [|done]. unfold handled. cbn. split; [done|].
    intros Hne. destruct (h_resolved _); [|done]. by destruct (pc_settled c).
  - split.
    + intros k c Hk. exists (expire (clock st + Z.max 0 dt) c). cbn.
      rewrite list_lookup_fmap, Hk. split; [done|]. unfold expire.
      destruct (_ && _); [|done]. cbn. split; [done|].
      intros Hne. by destruct (pc_settled c).
    + intros ref s Hs. exists s. split; [exact Hs|]. split; [done|]. by left.
Qed.

Lemma history_run actions st :
  history st (run JSON_parse read_config valid_url actions st).
Proof.
  revert st. induction actions as [|a actions IH]; intros st; [apply history_refl|].
  eapply history_trans; [apply history_step | apply IH].
Qed.

End History.

(** C9.  For an entry with a command and no tool list, the loader
    builds the single tool named "<id>_tool" with the empty object
    schema.  Along every run of the service, the server object keeps
    that tool as its only tool, and [getAvailableTools] offers it
    whenever the table gives that object for the id in the [connected]
    status, until a [tools/list] request of its handshake is answered
    by a response carrying a tools array; and such an answer replaces
    it by the tools of the array. *)
Theorem placeholder_tool_offered_until_discovery JSON_parse read_config valid_url
    id config :
  Js.truthy_string (ServerConfig.command config) = true ->
  default [] (ServerConfig.tools config) = [] ->
  let placeholder := placeholder_tool id (Js.or_string (ServerConfig.name config) id) in
  MCPTool.name placeholder = Some (JStr (id +:+ "_tool")) /\
  MCPTool.inputSchema placeholder
    = Some (JObj [("type", JStr "object"); ("properties", JObj []);
                  ("required", JArr [])]) /\
  (exists server,
      parseServerConfig id (Some config) = Some server /\
      MCPServer.id server = id /\ MCPServer.tools server = [placeholder]) /\
  (forall st ref server,
      get_server id st = Some (ref, server) ->
      MCPServer.tools server = [placeholder] ->
      MCPServer.status server = connected ->
      placeholder ∈ getAvailableTools st) /\
  (forall st ref server actions,
      store st !! ref = Some server ->
      MCPServer.tools server = [placeholder] ->
      let st' := run JSON_parse read_config valid_url actions st in
      exists server',
        store st' !! ref = Some server' /\
        (MCPServer.tools server' = [placeholder] /\
         (get_server id st' = Some (ref, server') ->
          MCPServer.status server' = connected ->
          placeholder ∈ getAvailableTools st') \/
         discovered_since st st' ref (MCPServer.name server))) /\
  (forall st ref server response l,
      store st !! ref = Some server ->
      discover (MCPServer.name server) response = ReplaceTools l ->
      MCPServer.tools <$> store (resume (FromToolsList ref) response st) !! ref
      = Some l).
Proof.
  intros Hcmd Htools placeholder. split; [done|]. split; [done|]. split; [|split; [|split]].
  - eexists. split; [reflexivity|]. split; [done|]. cbn.
    by rewrite Htools, Hcmd.
  - intros st ref server Hg Ht Hc.
    eapply getAvailableTools_connected; [done..|]. rewrite Ht. left.
  - intros st ref server actions Hs Ht. cbn zeta.
    destruct (hist_store _ _ (history_run JSON_parse read_config valid_url actions st)
                ref server Hs) as (server' & Hs' & _ & [Hsame|Hd]).
    + exists server'. split; [done|]. left. split; [congruence|].
      intros Hg Hc. eapply getAvailableTools_connected; [exact Hg | exact Hc |].
      rewrite Hsame, Ht. left.
    + exists server'. split; [done|]. by right.
  - intros st ref server response l Hs Hd.
    by rewrite (resume_replaces_tools _ _ _ _ _ Hs Hd).
Qed.

Lemma placeholder_tool_offered_until_discovery_witness :
  let placeholder :=
    placeholder_tool "fs" (Js.or_string (ServerConfig.name Examples.fs_entry) "fs") in
  let server := default filesystem_server (store Examples.loaded !! 0%nat) in
  MCPTool.name placeholder = Some (JStr "fs_tool") /\
  getAvailableTools Examples.loaded = [] /\
  (let st' := run JsonText.parse Examples.read_config (fun _ => true)
                [ConnectToServer "fs"; Spawn 0] Examples.loaded in
   exists server',
     store st' !! 0%nat = Some server' /\
     (MCPServer.tools server' = [placeholder] /\
      (get_server "fs" st' = Some (0%nat, server') ->
       MCPServer.status server' = connected ->
       placeholder ∈ getAvailableTools st') \/
      discovered_since Examples.loaded st' 0 (MCPServer.name server))) /\
  getAvailableTools Examples.spawned = [placeholder] /\
  (MCPTool.name <$> getAvailableTools Examples.ready) = [Some (JStr "ls")].
Proof.
  destruct (placeholder_tool_offered_until_discovery
              JsonText.parse Examples.read_config (fun _ => true)
              "fs" Examples.fs_entry)
    as (Hname & _ & _ & _ & Hrun & _); [reflexivity | reflexivity |].
  cbn zeta. split; [exact Hname|]. split; [reflexivity|]. split.
  - apply (Hrun Examples.loaded 0%nat
             (default filesystem_server (store Examples.loaded !! 0%nat))
             [ConnectToServer "fs"; Spawn 0]); vm_compute; reflexivity.
  - split; vm_compute; reflexivity.
Defined.

(** * Further properties *)

(** ** The response handler: what resolves a call *)

Section AnswersFacts.

Variable JSON_parse : string -> option Json.
Import JsString JsStringFacts.

Lemma split_nl_line (l rest : string) :
  contains_LF l = false ->
  split_nl (l +:+ String LF rest) = l :: split_nl rest.
Proof.
  induction l as [|c l IH]; cbn [contains_LF]; intros H.
  - reflexivity.
  - apply orb_false_iff in H as [Hc Hl]. rewrite append_cons. cbn [split_nl].
    by rewrite Hc, (IH Hl).
Qed.

Lemma scan_lines_noise id l lines :
  noise JSON_parse l = true ->
  match scan_lines JSON_parse id (l :: lines) 0 [] with
  | Matched r fs =>
      exists fs', scan_lines JSON_parse id lines 0 [] = Matched r fs' /\ fs = fs'
  | Finished _ fs =>
      exists n, scan_lines JSON_parse id lines 0 [] = Finished n fs
  end.
Proof.
  unfold noise. intros Hn. cbn [scan_lines].
  assert (scan_lines JSON_parse id (l :: lines) 0 []
          = scan_lines JSON_parse id lines (0 + (String.length l + 1)) []) as Hskip.
  { cbn [scan_lines]. destruct (is_empty (trim l)); [done|].
    by destruct (JSON_parse (trim l)). }
  cbn [scan_lines] in Hskip. rewrite Hskip, scan_lines_shift.
  destruct (scan_lines JSON_parse id lines 0 []); eauto.
Qed.

(** X1.  Lines that are blank or do not parse as JSON are skipped:
    put in front of a stream, they change neither the frames the
    handler parses nor the response it resolves with. *)
Theorem handle_raw_skips_noise id junk raw :
  Forall (fun l => contains_LF l = false /\ noise JSON_parse l = true) junk ->
  let h := handle_raw JSON_parse id EmptyString
             (join (map (fun l => l +:+ String LF EmptyString) junk) +:+ raw) in
  h_frames h = h_frames (handle_raw JSON_parse id EmptyString raw) /\
  h_resolved h = h_resolved (handle_raw JSON_parse id EmptyString raw).
Proof.
  induction 1 as [|l junk [Hl Hn] _ IH]; [done|].
  cbn zeta in *. cbn [map join].
  rewrite !handle_raw_eq in *.
  change (EmptyString +:+ ?x) with x in *.
  rewrite !append_assoc. change (String LF EmptyString +:+ ?x) with (String LF x).
  rewrite (split_nl_line _ _ Hl).
  pose proof (split_nl_nonempty (join (map (fun l0 => l0 +:+ String LF EmptyString) junk) +:+ raw)) as Hne.
  destruct (split_nl (join (map (fun l0 => l0 +:+ String LF EmptyString) junk) +:+ raw))
    as [|x xs] eqn:E; [done|].
  rewrite removelast_cons2.
  pose proof (scan_lines_noise id l (removelast (x :: xs)) Hn) as Hscan.
  destruct (scan_lines JSON_parse id (l :: removelast (x :: xs)) 0 []) as [r fs|n fs].
  - destruct Hscan as (fs' & Hs & ->). rewrite Hs in IH. exact IH.
  - destruct Hscan as (n' & Hs). rewrite Hs in IH. exact IH.
Qed.

(** The loop resolves with the first line that answers, if any. *)
Lemma scan_lines_find id lines n fs :
  match scan_lines JSON_parse id lines n fs with
  | Matched r _ =>
      exists l, find (answers JSON_parse id) lines = Some l /\
                JSON_parse (trim l) = Some r
  | Finished _ _ => find (answers JSON_parse id) lines = None
  end.
Proof.
  revert n fs. induction lines as [|l lines IH]; intros n fs; [done|].
  cbn [scan_lines find]. unfold answers at 1 3.
  destruct (is_empty (trim l)); cbn [negb andb]; [apply IH|].
  destruct (JSON_parse (trim l)) as [response|] eqn:Hp; [|apply IH].
  destruct (JsValue.get "id" response) as [rid|]; [|apply IH].
  destruct (JsValue.is_number id rid); [eauto | apply IH].
Qed.

Lemma handle_raw_first_answer id buf raw :
  h_resolved (handle_raw JSON_parse id buf raw)
  = match find (answers JSON_parse id) (removelast (split_nl (buf +:+ raw))) with
    | Some l => JSON_parse (trim l)
    | None => None
    end.
Proof.
  rewrite handle_raw_eq.
  pose proof (scan_lines_find id (removelast (split_nl (buf +:+ raw))) 0 []) as H.
  destruct (scan_lines JSON_parse id _ 0 []) as [r fs|n fs].
  - destruct H as (l & -> & Hp). by rewrite Hp.
  - by rewrite H.
Qed.

(** X2.  However stdout is cut into chunks (no character being cut
    in two), the handler resolves its call with the first complete
    line of the whole stream that parses to a value carrying the
    request's id, and with nothing else: neither a line for another
    id, nor the unfinished last line. *)
Theorem stdout_resolves_first_answer id (chunks : list (list byte)) :
  Utf8.Buffer_toString (concat chunks) = join (map Utf8.Buffer_toString chunks) ->
  (feed JSON_parse id EmptyString chunks).2
  = match find (answers JSON_parse id)
            (removelast (split_nl (Utf8.Buffer_toString (concat chunks)))) with
    | Some l => JSON_parse (trim l)
    | None => None
    end.
Proof.
  intros Hd. rewrite (feed_chunk_invariant JSON_parse id chunks Hd).
  unfold feed. cbn [map feed_raw].
  pose proof (handle_raw_first_answer id EmptyString
                (Utf8.Buffer_toString (concat chunks))) as H.
  change (EmptyString +:+ ?x) with x in H. rewrite <- H.
  by destruct (h_resolved (handle_raw JSON_parse id EmptyString
                             (Utf8.Buffer_toString (concat chunks)))).
Qed.

End AnswersFacts.

Lemma handle_raw_skips_noise_witness :
  let junk := [JsString.dq "Server listening on port 3000";
               EmptyString; JsString.dq "{'unfinished':"] in
  let raw := string_of_list_byte (Examples.line "{'id':7,'result':'ok'}") in
  h_resolved (handle_raw JsonText.parse 7 EmptyString
                (JsString.join (map (fun l => l +:+ String JsString.LF EmptyString) junk) +:+ raw))
  = Some (JObj [("id", JNum 7); ("result", JStr "ok")]).
Proof.
  cbn zeta.
  destruct (handle_raw_skips_noise JsonText.parse 7
              [JsString.dq "Server listening on port 3000";
               EmptyString; JsString.dq "{'unfinished':"]
              (string_of_list_byte (Examples.line "{'id':7,'result':'ok'}")))
    as [_ Hr].
  - repeat constructor; vm_compute; reflexivity.
  - cbn zeta in Hr. rewrite Hr. vm_compute. reflexivity.
Defined.

Lemma stdout_resolves_first_answer_witness :
  (feed JsonText.parse 7 EmptyString
     [Examples.bytes "{'id':3,'result':1}"; Examples.line "";
      Examples.bytes "{'id':7,'res"; Examples.line "ult':'ok'}";
      Examples.bytes "{'id':7,'result':'late'}"]).2
  = Some (JObj [("id", JNum 7); ("result", JStr "ok")]).
Proof.
  rewrite (stdout_resolves_first_answer JsonText.parse 7);
    vm_compute; reflexivity.
Defined.

(** ** A promise is settled once *)

Lemma keeps_settlement_refl c : keeps_settlement c c.
Proof. by repeat split. Qed.

Lemma keeps_settlement_trans c1 c2 c3 :
  keeps_settlement c1 c2 -> keeps_settlement c2 c3 -> keeps_settlement c1 c3.
Proof.
  intros (Hm & Hs & Hl & Ht) (Hm' & Hs' & Hl' & Ht'). repeat split.
  - congruence.
  - intros H. rewrite Hs', (Hs H); [done|]. by rewrite (Hs H).
  - auto.
  - auto.
Qed.

Lemma keeps_settlement_handled h c : keeps_settlement c (handled h c).
Proof.
  repeat split; cbn; try done.
  - intros H. by destruct (h_resolved h), (pc_settled c).
  - intros H. by destruct (h_resolved h).
Qed.

Lemma keeps_settlement_expire t c : keeps_settlement c (expire t c).
Proof.
  unfold expire. destruct (_ && _); [|apply keeps_settlement_refl].
  repeat split; cbn; try done. intros H. by destruct (pc_settled c).
Qed.

Section SettledOnce.

Variable JSON_parse : string -> option Json.
Variable read_config : string -> option ConfigDoc.
Variable valid_url : string -> bool.

Lemma emit_keeps_settlement hear st k c :
  (forall c0, keeps_settlement c0 (hear c0)) ->
  calls st !! k = Some c ->
  exists c', calls (emit hear st) !! k = Some c' /\ keeps_settlement c c'.
Proof.
  intros Hh Hk. exists (hear c). split; [|apply Hh].
  unfold emit. eapply frames_keeps.
  - apply frames_foldl. intros. apply frames_resume.
  - cbn. by rewrite list_lookup_fmap, Hk.
Qed.

Lemma step_keeps_settlement a st k c :
  calls st !! k = Some c ->
  exists c', calls (step JSON_parse read_config valid_url a st) !! k = Some c' /\
             keeps_settlement c c'.
Proof.
  intros Hk.
  assert (forall st', frames st st' ->
            exists c', calls st' !! k = Some c' /\ keeps_settlement c c') as Hframe.
  { intros st' Hf. exists c. split; [by eapply frames_keeps | apply keeps_settlement_refl]. }
  destruct a; cbn [step].
  - apply Hframe, frames_connectToServer.
  - apply Hframe, frames_disconnectServer.
  - apply Hframe, frames_disconnectAll.
  - apply Hframe, frames_executeTool.
  - exists c. rewrite calls_updateConfig. split; [done | apply keeps_settlement_refl].
  - apply Hframe, frames_on_spawn.
  - apply Hframe, frames_on_error.
  - apply Hframe, frames_on_exit.
  - apply emit_keeps_settlement; [|done]. intros c0. unfold hear_stdout.
    destruct (_ && _); [apply keeps_settlement_handled | apply keeps_settlement_refl].
  - apply Hframe, frames_on_open.
  - apply Hframe, frames_on_ws_error.
  - apply Hframe, frames_on_close.
  - apply emit_keeps_settlement; [|done]. intros c0. unfold hear_message.
    destruct (_ && _); [apply keeps_settlement_handled | apply keeps_settlement_refl].
  - exists (expire (clock st + Z.max 0 dt) c). cbn.
    rewrite list_lookup_fmap, Hk. split; [done | apply keeps_settlement_expire].
Qed.

(** X3.  Along every run a call stays where it is in the list of
    calls, with its request; once settled it keeps that settlement
    (a late answer or the timer changes nothing), and once its
    handler is unregistered or its timer spent they stay so. *)
Theorem call_settled_once actions st k c :
  calls st !! k = Some c ->
  exists c',
    calls (run JSON_parse read_config valid_url actions st) !! k = Some c' /\
    pc_message c' = pc_message c /\
    (pc_settled c <> None -> pc_settled c' = pc_settled c) /\
    (pc_listening c = false -> pc_listening c' = false) /\
    (pc_timer c = false -> pc_timer c' = false).
Proof.
  revert st c. induction actions as [|a actions IH]; intros st c Hk.
  - exists c. by repeat split.
  - destruct (step_keeps_settlement a st k c Hk) as (c1 & Hk1 & H1).
    destruct (IH _ _ Hk1) as (c' & Hk' & H').
    exists c'. split; [exact Hk'|].
    exact (keeps_settlement_trans _ _ _ H1 H').
Qed.

End SettledOnce.

Lemma call_settled_once_witness :
  let st := Examples.go [Stdout 0 (Examples.line "{'jsonrpc':'2.0','id':1,'result':{}}")]
              Examples.spawned in
  let late := [Stdout 0 (Examples.line "{'jsonrpc':'2.0','id':1,'result':{'late':true}}");
               Elapse 120000 121000] in
  exists c',
    calls (Examples.go late st) !! 0%nat = Some c' /\
    pc_settled c' = Some (Resolved (JObj [("jsonrpc", JStr "2.0"); ("id", JNum 1);
                                          ("result", JObj [])])).
Proof.
  cbn zeta.
  destruct (call_settled_once JsonText.parse Examples.read_config (fun _ => true)
              [Stdout 0 (Examples.line "{'jsonrpc':'2.0','id':1,'result':{'late':true}}");
               Elapse 120000 121000]
              (Examples.go [Stdout 0 (Examples.line "{'jsonrpc':'2.0','id':1,'result':{}}")]
                 Examples.spawned)
              0%nat
              (default MoreExamples.no_call
                 (calls (Examples.go [Stdout 0 (Examples.line "{'jsonrpc':'2.0','id':1,'result':{}}")]
                           Examples.spawned) !! 0%nat)))
    as (c' & Hk & _ & Hs & _); [vm_compute; reflexivity|].
  exists c'. split; [exact Hk|]. rewrite Hs; [vm_compute; reflexivity|].
  vm_compute. discriminate.
Defined.

(** ** The table of servers stays in order *)

Lemma map_set_keys {V} k (v : V) m :
  map fst (Js.map_set k v m)
  = if decide (k ∈ map fst m) then map fst m else map fst m ++ [k].
Proof.
  induction m as [|[k' v'] m IH]; cbn; [done|].
  destruct (String.eqb k k') eqn:E; cbn.
  - apply String.eqb_eq in E as <-. rewrite decide_True by left. done.
  - apply String.eqb_neq in E. rewrite IH.
    destruct (decide (k ∈ map fst m)) as [Hin|Hnin].
    + rewrite decide_True by by right. done.
    + rewrite decide_False; [done|]. intros [->|?]%elem_of_cons; done.
Qed.

Lemma map_set_elem {V} k (v : V) m k' v' :
  NoDup (map fst m) ->
  (k', v') ∈ Js.map_set k v m ->
  (k' = k /\ v' = v) \/ (k' <> k /\ (k', v') ∈ m).
Proof.
  induction m as [|[k0 v0] m IH]; cbn; intros Hnd.
  - intros [= -> ->]%list_elem_of_singleton. by left.
  - apply NoDup_cons in Hnd as [Hk0 Hnd].
    destruct (String.eqb k k0) eqn:E.
    + apply String.eqb_eq in E as <-.
      intros [[= -> ->]|Hin]%elem_of_cons; [by left|].
      right. split; [|by right]. intros ->. apply Hk0.
      apply list_elem_of_fmap. by exists (k, v').
    + apply String.eqb_neq in E.
      intros [[= -> ->]|Hin]%elem_of_cons.
      * right. split; [congruence | left].
      * destruct (IH Hnd Hin) as [?|[? ?]]; [by left|]. right. split; [done | by right].
Qed.

Lemma map_get_of_elem {V} k (v : V) m :
  NoDup (map fst m) -> (k, v) ∈ m -> Js.map_get k m = Some v.
Proof.
  unfold Js.map_get. induction m as [|[k0 v0] m IH]; cbn; intros Hnd Hin.
  - by apply elem_of_nil in Hin.
  - apply NoDup_cons in Hnd as [Hk0 Hnd].
    apply elem_of_cons in Hin as [[= <- <-]|Hin].
    + by rewrite String.eqb_refl.
    + destruct (String.eqb k k0) eqn:E; [|by apply IH].
      apply String.eqb_eq in E as <-. destruct Hk0.
      apply list_elem_of_fmap. by exists (k, v).
Qed.

Lemma table_ok_set_server server st : table_ok st -> table_ok (set_server server st).
Proof.
  intros [Hnd Hobj]. split; cbn.
  - rewrite map_set_keys. destruct (decide _) as [Hin|Hnin]; [done|].
    apply NoDup_app. split; [done|]. split; [|apply NoDup_singleton].
    intros x Hx ->%list_elem_of_singleton. done.
  - intros serverId ref Hin.
    destruct (map_set_elem _ _ _ _ _ Hnd Hin) as [[-> ->]|[Hne Hin']].
    + exists server. by rewrite lookup_app_r, Nat.sub_diag.
    + destruct (Hobj _ _ Hin') as (s & Hs & Hid).
      exists s. split; [by apply lookup_app_l_Some | done].
Qed.

Lemma table_ok_set_servers l st : table_ok st -> table_ok (set_servers l st).
Proof.
  revert st. induction l as [|s l IH]; intros st H; [done|].
  rewrite set_servers_cons. by apply IH, table_ok_set_server.
Qed.

(** A change that keeps the table and lets the objects evolve. *)
Lemma table_ok_evolves st st' :
  servers st' = servers st ->
  (forall ref server, store st !! ref = Some server ->
     exists server', store st' !! ref = Some server' /\ tools_evolve server server') ->
  table_ok st -> table_ok st'.
Proof.
  intros Hs Hstore [Hnd Hobj]. split; rewrite Hs; [done|].
  intros serverId ref Hin. destruct (Hobj _ _ Hin) as (s & Hl & Hid).
  destruct (Hstore _ _ Hl) as (s' & Hl' & Hid' & _). exists s'. split; [done | congruence].
Qed.

Lemma table_ok_frames st st' :
  frames st st' -> advances st st' -> table_ok st -> table_ok st'.
Proof. intros [Hs _ _ _] [_ _ Hstore]. by apply table_ok_evolves. Qed.

Section TableOk.

Variable JSON_parse : string -> option Json.
Variable read_config : string -> option ConfigDoc.
Variable valid_url : string -> bool.

Lemma table_ok_emit hear st :
  (forall t c, call_ok t c -> call_ok t (hear c)) ->
  (forall c, same_call c (hear c)) ->
  table_ok st -> table_ok (emit hear st).
Proof.
  intros Hok Hsame H. unfold emit.
  assert (table_ok (Upd.on_calls (fun _ => map hear (calls st)) st)) as H1 by exact H.
  revert H1. generalize (Upd.on_calls (fun _ => map hear (calls st)) st).
  induction (newly_resolved (calls st) (map hear (calls st))) as [|r rs IH];
    intros s Hs; [done|].
  cbn [foldl]. apply IH.
  eapply table_ok_frames; [apply frames_resume | apply advances_resume | done].
Qed.

Lemma table_ok_step a st :
  table_ok st -> table_ok (step JSON_parse read_config valid_url a st).
Proof.
  intros H. destruct a; cbn [step].
  - eapply table_ok_frames; [apply frames_connectToServer | apply advances_connectToServer | done].
  - eapply table_ok_frames; [apply frames_disconnectServer | apply advances_disconnectServer | done].
  - eapply table_ok_frames; [apply frames_disconnectAll | apply advances_disconnectAll | done].
  - eapply table_ok_frames; [apply frames_executeTool | apply advances_executeTool | done].
  - unfold updateConfig. destruct (read_config configContent) as [doc|]; [|done].
    destruct write_ok; [|done].
    destruct (config_servers doc) as [l|] eqn:E.
    + rewrite (loadServersFromConfig_installs _ _ _ E). cbn [snd].
      by apply table_ok_set_servers.
    + unfold loadServersFromConfig. by rewrite E.
  - eapply table_ok_frames; [apply frames_on_spawn | apply advances_on_spawn | done].
  - eapply table_ok_frames; [apply frames_on_error | apply advances_on_error | done].
  - eapply table_ok_frames; [apply frames_on_exit | apply advances_on_exit | done].
  - apply table_ok_emit; [| |done].
    + intros t c Hc. unfold hear_stdout. destruct (_ && _); [by apply handled_ok | done].
    + intros c. unfold hear_stdout.
      destruct (_ && _); [apply handled_same | apply same_call_refl].
  - eapply table_ok_frames; [apply frames_on_open | apply advances_on_open | done].
  - eapply table_ok_frames; [apply frames_on_ws_error | apply advances_on_ws_error | done].
  - eapply table_ok_frames; [apply frames_on_close | apply advances_on_close | done].
  - apply table_ok_emit; [| |done].
    + intros t c Hc. unfold hear_message. destruct (_ && _); [by apply handled_ok | done].
    + intros c. unfold hear_message.
      destruct (_ && _); [apply handled_same | apply same_call_refl].
  - exact H.
Qed.

Lemma table_ok_run actions st :
  table_ok st -> table_ok (run JSON_parse read_config valid_url actions st).
Proof.
  revert st. induction actions as [|a actions IH]; intros st H; [done|].
  apply IH, table_ok_step, H.
Qed.

End TableOk.

Lemma table_ok_new h now config : table_ok (new_MCPService h now config).
Proof.
  assert (table_ok {| servers := []; store := []; connections := ∅; children := [];
                      sockets := []; calls := []; host := h; Date_now := now;
                      clock := 0; config_file := None |}) as H0.
  { split; cbn; [constructor|]. intros ? ? Hin. by apply elem_of_nil in Hin. }
  unfold new_MCPService. destruct config as [doc|]; [|by apply table_ok_set_servers].
  destruct (config_servers doc) as [l|] eqn:E.
  - rewrite (loadServersFromConfig_installs _ _ _ E). by apply table_ok_set_servers.
  - unfold loadServersFromConfig. rewrite E. by apply table_ok_set_servers.
Qed.

Lemma table_ok_listing st :
  table_ok st ->
  map MCPServer.id (getAvailableServers st) = map fst (servers st) /\
  forall server,
    server ∈ getAvailableServers st ->
    exists ref, get_server (MCPServer.id server) st = Some (ref, server).
Proof.
  intros [Hnd Hobj]. split.
  - unfold getAvailableServers.
    assert (forall l, (forall e, e ∈ l -> e ∈ servers st) ->
              map MCPServer.id (omap (fun e => store st !! e.2) l) = map fst l) as Hl.
    { induction l as [|[k r] l IH]; intros Hsub; [done|].
      destruct (Hobj k r) as (s & Hs & Hid); [apply Hsub; left|].
      cbn. rewrite Hs. cbn. rewrite Hid, IH; [done|].
      intros e He. apply Hsub. by right. }
    by apply Hl.
  - intros server Hin. apply list_elem_of_omap in Hin as ([k r] & Hin & Hs).
    cbn in Hs. destruct (Hobj _ _ Hin) as (s & Hs' & Hid).
    rewrite Hs in Hs'. injection Hs' as <-. exists r.
    apply get_server_intro; [|done]. rewrite Hid. by apply map_get_of_elem.
Qed.

(** X4.  In every state the service reaches from its construction, the
    listing has one server per id, and each listed server is the one
    the table gives for its id. *)
Theorem listing_has_one_server_per_id
    JSON_parse read_config valid_url h now config actions :
  let st := run JSON_parse read_config valid_url actions (new_MCPService h now config) in
  NoDup (map MCPServer.id (getAvailableServers st)) /\
  forall server,
    server ∈ getAvailableServers st ->
    exists ref, get_server (MCPServer.id server) st = Some (ref, server).
Proof.
  cbn zeta.
  pose proof (table_ok_run JSON_parse read_config valid_url actions _
                (table_ok_new h now config)) as Hok.
  destruct (table_ok_listing _ Hok) as [Hids Hget].
  split; [|exact Hget]. rewrite Hids. apply Hok.
Qed.

(** ** Listing tools *)

(** X5.  [getAvailableTools] offers a tool exactly when a server of the
    table that is in the [connected] status has it in its tool list. *)
Theorem getAvailableTools_iff st tool :
  tool ∈ getAvailableTools st <->
  exists serverId ref server,
    (serverId, ref) ∈ servers st /\ store st !! ref = Some server /\
    MCPServer.status server = connected /\ tool ∈ MCPServer.tools server.
Proof.
  unfold getAvailableTools, getAvailableServers. split.
  - intros Hin. apply list_elem_of_In, in_concat in Hin as (ts & Hts & Hin).
    apply in_map_iff in Hts as (server & <- & Hs).
    apply list_elem_of_In, list_elem_of_omap in Hs as ([k r] & Hkr & Hl).
    destruct (Status_eqb (MCPServer.status server) connected) eqn:E; [|done].
    exists k, r, server. repeat split; [done | done | | by apply list_elem_of_In].
    by destruct (MCPServer.status server).
  - intros (k & r & server & Hkr & Hl & Hc & Hin).
    apply list_elem_of_In, in_concat. exists (MCPServer.tools server).
    split; [|by apply list_elem_of_In].
    apply in_map_iff. exists server. rewrite Hc. split; [done|].
    apply list_elem_of_In, list_elem_of_omap. by exists (k, r).
Qed.

(** ** Disconnecting *)

Lemma disconnectServer_connections serverId st :
  connections (disconnectServer serverId st) = delete serverId (connections st).
Proof.
  unfold disconnectServer.
  destruct (connections st !! serverId) as [[pid|wid]|] eqn:E; cbn.
  - by destruct (JsValue.assoc serverId (servers st)).
  - by destruct (JsValue.assoc serverId (servers st)).
  - rewrite delete_id by done. unfold Js.map_get.
    by destruct (JsValue.assoc serverId (servers st)).
Qed.

Lemma disconnectServer_store serverId st :
  store (disconnectServer serverId st)
  = match Js.map_get serverId (servers st) with
    | Some ref => alter (MCPServer.set_status disconnected) ref (store st)
    | None => store st
    end.
Proof.
  unfold disconnectServer.
  destruct (connections st !! serverId) as [[pid|wid]|] eqn:E; cbn;
    unfold Js.map_get; by destruct (JsValue.assoc serverId (servers st)).
Qed.

(** X6.  [disconnectServer] is idempotent: a second call changes
    nothing. *)
Theorem disconnectServer_idempotent serverId st :
  disconnectServer serverId (disconnectServer serverId st)
  = disconnectServer serverId st.
Proof.
  pose proof (disconnectServer_connections serverId st) as Hc.
  set (st1 := disconnectServer serverId st) in *.
  assert (connections st1 !! serverId = None) as Hn
    by (rewrite Hc; apply lookup_delete_eq).
  unfold disconnectServer at 1. rewrite Hn.
  assert (servers st1 = servers st) as Hs by apply frames_disconnectServer.
  destruct (Js.map_get serverId (servers st1)) as [ref|] eqn:Hm; [|done].
  assert (store st1 = alter (MCPServer.set_status disconnected) ref (store st)) as Hst.
  { subst st1. rewrite disconnectServer_store. by rewrite <- Hs, Hm. }
  destruct st1 as [sv sto cn ch so ca ho dn cl cf]. cbn in *. unfold Upd.status, Upd.on_store.
  cbn. f_equal. subst sto. rewrite list_alter_alter_eq.
  by apply list_alter_ext.
Qed.

Lemma disconnectAll_fold ids st serverId ref :
  Js.map_get serverId (servers st) = Some ref ->
  (serverId ∈ ids \/
   (connections st !! serverId = None /\
    MCPServer.status <$> store st !! ref = (fun _ => disconnected) <$> store st !! ref)) ->
  let st' := foldl (fun s i => disconnectServer i s) st ids in
  connections st' !! serverId = None /\
  MCPServer.status <$> store st' !! ref = (fun _ => disconnected) <$> store st !! ref.
Proof.
  revert st. induction ids as [|i ids IH]; intros st Hm Hin; cbn zeta.
  - destruct Hin as [Hin|Hdone]; [by apply elem_of_nil in Hin | done].
  - cbn [foldl].
    assert (servers (disconnectServer i st) = servers st) as Hs
      by apply frames_disconnectServer.
    assert ((fun _ : MCPServer.t => disconnected) <$> store (disconnectServer i st) !! ref
            = (fun _ => disconnected) <$> store st !! ref) as Hsame.
    { rewrite disconnectServer_store. destruct (Js.map_get i (servers st)) as [r|]; [|done].
      destruct (decide (r = ref)) as [->|Hne].
      - rewrite list_lookup_alter_eq. by destruct (store st !! ref).
      - by rewrite list_lookup_alter_ne. }
    rewrite <- Hsame. apply IH; [by rewrite Hs|].
    destruct (decide (i = serverId)) as [->|Hne].
    + right. split.
      * rewrite disconnectServer_connections. apply lookup_delete_eq.
      * rewrite disconnectServer_store, Hm, list_lookup_alter_eq.
        by destruct (store st !! ref).
    + destruct Hin as [[->|Hin]%elem_of_cons|[Hc Hst]]; [done | by left |].
      right. split.
      * rewrite disconnectServer_connections, lookup_delete_ne; done.
      * rewrite disconnectServer_store. destruct (Js.map_get i (servers st)) as [r|]; [|done].
        destruct (decide (r = ref)) as [->|Hne'].
        -- rewrite list_lookup_alter_eq. by destruct (store st !! ref).
        -- by rewrite list_lookup_alter_ne.
Qed.

(** X7.  After [disconnectAll], no connection is registered under any
    id of the table and every server of the table is [disconnected]. *)
Theorem disconnectAll_disconnects_all serverId ref st :
  Js.map_get serverId (servers st) = Some ref ->
  connections (disconnectAll st) !! serverId = None /\
  MCPServer.status <$> store (disconnectAll st) !! ref
  = (fun _ => disconnected) <$> store st !! ref.
Proof.
  intros Hm. apply disconnectAll_fold; [done|]. left.
  apply map_get_elem in Hm. apply list_elem_of_fmap. by exists (serverId, ref).
Qed.

Lemma disconnectAll_disconnects_all_witness :
  connections (disconnectAll Examples.both_connected) !! "git" = None /\
  MCPServer.status <$> store (disconnectAll Examples.both_connected) !! 1%nat
  = Some disconnected.
Proof.
  destruct (disconnectAll_disconnects_all "git" 1%nat Examples.both_connected)
    as [Hc Hs]; [reflexivity|].
  split; [exact Hc|]. rewrite Hs. reflexivity.
Defined.

(** ** The exit of a process that was replaced *)

(** X8.  The [exit] handler of a child removes whatever connection is
    registered under its server's id.  So when a provider was connected
    again and the first process exits, the second process is
    unregistered without being killed, the provider is [disconnected],
    and a later [disconnectServer] no longer reaches that process. *)
Theorem exit_of_replaced_child_drops_the_connection pid pid' child child' server st :
  children st !! pid = Some child ->
  store st !! cp_server child = Some server ->
  connections st !! MCPServer.id server = Some (ChildProcess pid') ->
  pid' <> pid ->
  children st !! pid' = Some child' ->
  let st' := on_exit pid st in
  connections st' !! MCPServer.id server = None /\
  MCPServer.status <$> store st' !! cp_server child = Some disconnected /\
  children st' !! pid' = Some child' /\
  children (disconnectServer (MCPServer.id server) st') !! pid' = Some child'.
Proof.
  intros Hc Hs Hconn Hne Hc'. cbn zeta.
  assert (on_exit pid st
          = Upd.on_connections (delete (MCPServer.id server))
              (Upd.status (cp_server child) disconnected st)) as ->.
  { unfold on_exit. by rewrite Hc, Hs. }
  split; [cbn; apply lookup_delete_eq|].
  split; [cbn; by rewrite list_lookup_alter_eq, Hs|].
  split; [done|].
  unfold disconnectServer. cbn [connections Upd.on_connections Upd.status Upd.on_store].
  rewrite lookup_delete_eq.
  by destruct (Js.map_get _ _).
Qed.

Lemma exit_of_replaced_child_drops_the_connection_witness :
  let st := Examples.go [ConnectToServer "fs"; Spawn 1] Examples.ready in
  let st' := on_exit 0 st in
  connections st !! "fs" = Some (ChildProcess 1) /\
  connections st' !! "fs" = None /\
  MCPServer.status <$> store st' !! 0%nat = Some disconnected /\
  cp_killed <$> children (disconnectServer "fs" st') !! 1%nat = Some false.
Proof.
  cbn zeta. split; [vm_compute; reflexivity|].
  destruct (exit_of_replaced_child_drops_the_connection 0%nat 1%nat
              (default (Upd.kill {| cp_server := 0; cp_command := ""; cp_args := [];
                                    cp_env := ∅; cp_stdin := []; cp_killed := false;
                                    cp_connect := None |})
                 (children (Examples.go [ConnectToServer "fs"; Spawn 1] Examples.ready) !! 0%nat))
              (default (Upd.kill {| cp_server := 0; cp_command := ""; cp_args := [];
                                    cp_env := ∅; cp_stdin := []; cp_killed := false;
                                    cp_connect := None |})
                 (children (Examples.go [ConnectToServer "fs"; Spawn 1] Examples.ready) !! 1%nat))
              (default filesystem_server
                 (store (Examples.go [ConnectToServer "fs"; Spawn 1] Examples.ready) !! 0%nat))
              (Examples.go [ConnectToServer "fs"; Spawn 1] Examples.ready))
    as (Hconn & Hstatus & _ & Hkept);
    [vm_compute; reflexivity | vm_compute; reflexivity | vm_compute; reflexivity
    | lia | vm_compute; reflexivity |].
  split; [exact Hconn|]. split; [exact Hstatus|].
  cbn zeta in Hkept. change (MCPServer.id _) with "fs" in Hkept.
  rewrite Hkept. vm_compute. reflexivity.
Defined.

(** ** The callers: offering tools and routing a tool call *)

Lemma find_is_Some {A} (p : A -> bool) (l : list A) :
  match find p l with Some _ => true | None => false end = existsb p l.
Proof. induction l as [|x l IH]; cbn; [done|]. by destruct (p x). Qed.

Lemma existsb_getAvailableTools n st :
  existsb (has_name n) (getAvailableTools st)
  = existsb (offers n) (getAvailableServers st).
Proof.
  unfold getAvailableTools.
  induction (getAvailableServers st) as [|server l IH]; cbn; [done|].
  rewrite existsb_app, IH. f_equal. unfold offers.
  rewrite find_is_Some.
  by destruct (Status_eqb (MCPServer.status server) connected).
Qed.

Lemma find_first {A} (p : A -> bool) (l : list A) x :
  find p l = Some x ->
  p x = true /\
  exists before after, l = before ++ x :: after /\ Forall (fun y => p y = false) before.
Proof.
  induction l as [|y l IH]; cbn; [done|].
  destruct (p y) eqn:E.
  - intros [= ->]. split; [done|]. by exists [], l.
  - intros [Hp (before & after & -> & Hb)]%IH. split; [done|].
    exists (y :: before), after. split; [done|]. by constructor.
Qed.

Lemma find_none_existsb {A} (p : A -> bool) (l : list A) :
  find p l = None -> existsb p l = false.
Proof. intros H. rewrite <- find_is_Some. by rewrite H. Qed.

Lemma find_some_existsb {A} (p : A -> bool) (l : list A) x :
  find p l = Some x -> existsb p l = true.
Proof. intros H. rewrite <- find_is_Some. by rewrite H. Qed.

Lemma Status_eqb_connected s : Status_eqb s connected = true -> s = connected.
Proof. by destruct s. Qed.

Lemma find_has_name n l tool :
  find (has_name n) l = Some tool -> tool ∈ l /\ MCPTool.name tool = Some (JStr n).
Proof.
  intros [Hin Hn]%find_some. split; [by apply list_elem_of_In|].
  unfold has_name in Hn. destruct (MCPTool.name tool) as [[]|]; try done.
  by apply String.eqb_eq in Hn as ->.
Qed.

Lemma getAvailableTools_listed st tool :
  tool ∈ getAvailableTools st ->
  exists server,
    server ∈ getAvailableServers st /\ MCPServer.status server = connected /\
    tool ∈ MCPServer.tools server.
Proof.
  unfold getAvailableTools. intros Hin.
  apply list_elem_of_In, in_concat in Hin as (ts & Hts & Hin).
  apply in_map_iff in Hts as (server & <- & Hs).
  destruct (Status_eqb (MCPServer.status server) connected) eqn:E; [|done].
  exists server. repeat split; [by apply list_elem_of_In | | by apply list_elem_of_In].
  by apply Status_eqb_connected.
Qed.

(** X9.  With a service, [formatMCPTools] gives one function per
    requested name that some connected server offers, in the order of
    the request and under that very name; each function has a schema
    for its parameters, and is the tool of a listed server in the
    [connected] status.  A name no connected server offers is dropped. *)
Theorem formatMCPTools_offers_connected_tools toolNames st :
  map FunctionTool.name (formatMCPTools toolNames (Some st))
  = map (fun n => Some (JStr n))
        (List.filter (fun n => existsb (has_name n) (getAvailableTools st)) toolNames) /\
  forall f,
    f ∈ formatMCPTools toolNames (Some st) ->
    JsValue.truthy (FunctionTool.parameters f) = true /\
    exists server tool,
      server ∈ getAvailableServers st /\ MCPServer.status server = connected /\
      tool ∈ MCPServer.tools server /\ f = formatted tool.
Proof.
  cbn [formatMCPTools]. split.
  - induction toolNames as [|n l IH]; [done|]. cbn.
    rewrite <- find_is_Some.
    destruct (find (has_name n) (getAvailableTools st)) as [tool|] eqn:E; cbn.
    + apply find_has_name in E as [_ ->]. by rewrite IH.
    + exact IH.
  - intros f Hf. apply list_elem_of_omap in Hf as (n & _ & Hf).
    destruct (find (has_name n) (getAvailableTools st)) as [tool|] eqn:E; [|done].
    cbn in Hf. injection Hf as <-. split.
    + cbn. by destruct (JsValue.truthy (MCPTool.inputSchema tool)) eqn:T.
    + apply find_has_name in E as [Hin _].
      apply getAvailableTools_listed in Hin as (server & Hs & Hc & Ht).
      by exists server, tool.
Qed.

(** X10.  In every state the service reaches from its construction,
    [executeToolCall] throws its own error and does nothing when no
    connected server offers a tool of the name called.  Otherwise it
    picks the first listed server that is connected and has the tool;
    with that server, wrong arguments throw and do nothing, and parsed
    ones go to [sendMessage]: the two refusals of [executeTool] cannot
    occur. *)
Theorem executeToolCall_routes_to_first_offer
    JSON_parse read_config valid_url h now config actions toolCall :
  let st := run JSON_parse read_config valid_url actions (new_MCPService h now config) in
  let toolName := ToolCall.name toolCall in
  if existsb (has_name toolName) (getAvailableTools st) then
    exists before server after,
      getAvailableServers st = before ++ server :: after /\
      Forall (fun s => offers toolName s = false) before /\
      MCPServer.status server = connected /\
      existsb (has_name toolName) (MCPServer.tools server) = true /\
      executeToolCall JSON_parse toolCall st
      = match parsedArguments JSON_parse (ToolCall.arguments toolCall) with
        | inl parsed =>
            sendMessage (MCPServer.id server)
              (tools_call (Date_now st)
                 {| MCPToolCall.id := ToolCall.id toolCall;
                    MCPToolCall.name := toolName;
                    MCPToolCall.arguments := parsed |})
              FromExecuteTool st
        | inr message => (SendThrows message, st)
        end
  else
    executeToolCall JSON_parse toolCall st
    = (SendThrows ("Tool " +:+ toolName +:+ " not found on any connected server"), st).
Proof.
  cbn zeta.
  pose proof (table_ok_run JSON_parse read_config valid_url actions _
                (table_ok_new h now config)) as Hok.
  set (st := run JSON_parse read_config valid_url actions (new_MCPService h now config)) in *.
  destruct (table_ok_listing _ Hok) as [_ Hget].
  rewrite existsb_getAvailableTools. unfold executeToolCall.
  destruct (find (offers (ToolCall.name toolCall)) (getAvailableServers st))
    as [server|] eqn:E.
  - rewrite (find_some_existsb _ _ _ E).
    destruct (find_first _ _ _ E) as [Hoff (before & after & Hl & Hb)].
    unfold offers in Hoff. apply andb_prop in Hoff as [Hc Ht].
    rewrite find_is_Some in Ht.
    exists before, server, after. repeat split; [done | done | | done |].
    { by apply Status_eqb_connected. }
    destruct (parsedArguments JSON_parse (ToolCall.arguments toolCall)) as [parsed|m];
      [|done].
    destruct (Hget server) as [ref Hs].
    { rewrite Hl. apply elem_of_app. right. left. }
    unfold executeTool. rewrite Hs, Hc. cbn [negb MCPToolCall.name].
    rewrite <- find_is_Some in Ht.
    by destruct (find (has_name (ToolCall.name toolCall)) (MCPServer.tools server)).
  - by rewrite (find_none_existsb _ _ E).
Qed.

(** ** The repair of tool-call arguments *)

Module JsRegExpFacts.
Import JsString JsRegExp JsStringFacts.

Lemma strip_prefix_app_eq p y : strip_prefix p (p +:+ y) = Some y.
Proof.
  induction p as [|a p IH]; [by destruct y|].
  rewrite append_cons. cbn. by rewrite Ascii.eqb_refl.
Qed.

(** A prefix that lacks [c] cannot reach into what follows [c]. *)
Lemma strip_prefix_before c p q t r :
  occurs c p = false ->
  strip_prefix p (q +:+ String c t) = Some r ->
  exists q', r = q' +:+ String c t.
Proof.
  revert q. induction p as [|a p IH]; intros q Hc H.
  - exists q. destruct (q +:+ String c t); cbn in H; congruence.
  - cbn in Hc. apply orb_false_elim in Hc as [Hac Hc].
    destruct q as [|b q].
    + change (EmptyString +:+ String c t) with (String c t) in H.
      cbn in H. by rewrite Hac in H.
    + rewrite append_cons in H. cbn in H.
      destruct (Ascii.eqb a b); [by apply (IH q)|done].
Qed.

Lemma strip_any_before c ps q t r :
  forallb (fun p => negb (occurs c p)) ps = true ->
  strip_any ps (q +:+ String c t) = Some r ->
  exists q', r = q' +:+ String c t.
Proof.
  induction ps as [|p ps IH]; [done|]. cbn.
  intros [Hp Hps]%andb_prop H.
  destruct (strip_prefix p (q +:+ String c t)) as [r'|] eqn:E.
  - injection H as <-. apply (strip_prefix_before c p q t r'); [|done].
    by destruct (occurs c p).
  - by apply IH.
Qed.

Lemma trim_start_fuel_before c ps fuel q t :
  forallb (fun p => negb (occurs c p)) ps = true ->
  exists q', trim_start_fuel fuel ps (q +:+ String c t) = q' +:+ String c t.
Proof.
  intros Hps. revert q. induction fuel as [|f IH]; intros q; [by exists q|].
  cbn. destruct (strip_any ps (q +:+ String c t)) as [r|] eqn:E; [|by exists q].
  destruct (strip_any_before c ps q t r Hps E) as [q' ->]. apply IH.
Qed.

Lemma skip_space_before_comma q t :
  exists q', skip_space (q +:+ String ","%char t) = q' +:+ String ","%char t.
Proof. by apply trim_start_fuel_before. Qed.

(** After a comma no match of the tail can start before that comma. *)
Lemma workingDir_tail_before_comma q t :
  workingDir_tail (q +:+ String ","%char t) = false.
Proof.
  unfold workingDir_tail.
  destruct (skip_space_before_comma q t) as [q1 ->].
  destruct (strip_prefix workingDir_brace (q1 +:+ String ","%char t)) as [r|] eqn:E;
    [|done].
  apply strip_prefix_before in E as [q2 ->]; [|done].
  destruct (skip_space_before_comma q2 t) as [q3 ->]. by destruct q3.
Qed.

Lemma strip_prefix_app p w r x :
  strip_prefix p w = Some r -> strip_prefix p (w +:+ x) = Some (r +:+ x).
Proof.
  revert w. induction p as [|a p IH]; intros w H.
  - destruct w; cbn in H; injection H as <-; by destruct x.
  - destruct w as [|b w]; [done|]. rewrite append_cons. cbn in *.
    destruct (Ascii.eqb a b); [by apply IH|done].
Qed.

Lemma strip_prefix_app_none c p w t :
  occurs c p = false ->
  strip_prefix p w = None -> strip_prefix p (w +:+ String c t) = None.
Proof.
  revert w. induction p as [|a p IH]; intros w Hc H; [by destruct w|].
  cbn in Hc. apply orb_false_elim in Hc as [Hac Hc].
  destruct w as [|b w].
  - change (EmptyString +:+ String c t) with (String c t). cbn. by rewrite Hac.
  - rewrite append_cons. cbn in *. destruct (Ascii.eqb a b); [by apply IH|done].
Qed.

Lemma strip_any_app c ps w t :
  forallb (fun p => negb (occurs c p)) ps = true ->
  strip_any ps (w +:+ String c t)
  = (fun r => r +:+ String c t) <$> strip_any ps w.
Proof.
  induction ps as [|p ps IH]; [done|]. cbn. intros [Hp Hps]%andb_prop.
  destruct (strip_prefix p w) as [r|] eqn:E.
  - by rewrite (strip_prefix_app _ _ _ _ E).
  - rewrite (strip_prefix_app_none c p w t); [by apply IH | | done].
    by destruct (occurs c p).
Qed.

(** White space before a character that is in no white-space
    sequence is skipped whole. *)
Lemma trim_start_fuel_white c ps fuel fuel' w t :
  forallb (fun p => negb (occurs c p)) ps = true ->
  strip_any ps EmptyString = None ->
  trim_start_fuel fuel ps w = EmptyString -> (fuel <= fuel')%nat ->
  trim_start_fuel fuel' ps (w +:+ String c t) = String c t.
Proof.
  intros Hps He. revert fuel' w. induction fuel as [|f IH]; intros fuel' w H Hle.
  - cbn in H. subst w. destruct fuel' as [|f']; [done|].
    pose proof (strip_any_app c ps EmptyString t Hps) as Hx.
    change (EmptyString +:+ String c t) with (String c t) in *.
    cbn. by rewrite Hx, He.
  - destruct fuel' as [|f']; [lia|]. cbn [trim_start_fuel] in *.
    rewrite (strip_any_app c ps) by done.
    destruct (strip_any ps w) as [r|] eqn:E; cbn.
    + apply IH; [done | lia].
    + subst w. by rewrite He in E.
Qed.

Lemma length_append a b :
  String.length (a +:+ b) = (String.length a + String.length b)%nat.
Proof. induction a as [|c a IH]; [done|]. rewrite append_cons. cbn. by rewrite IH. Qed.

Lemma skip_space_white w t :
  is_white w = true ->
  skip_space (w +:+ String DQUOTE t) = String DQUOTE t.
Proof.
  unfold is_white, skip_space, trim_start. intros H.
  apply (trim_start_fuel_white _ _ (String.length w)); [done | done | |].
  - by destruct (trim_start_fuel (String.length w) white_space w).
  - rewrite length_append. lia.
Qed.

Lemma workingDir_tail_white w1 w2 :
  is_white w1 = true -> is_white w2 = true ->
  workingDir_tail (w1 +:+ workingDir_brace +:+ w2) = true.
Proof.
  intros H1 H2. unfold workingDir_tail.
  change (workingDir_brace +:+ w2) with (String DQUOTE (dq "workingDir'}" +:+ w2)).
  rewrite (skip_space_white _ _ H1).
  change (String DQUOTE (dq "workingDir'}" +:+ w2)) with (workingDir_brace +:+ w2).
  by rewrite strip_prefix_app_eq.
Qed.

Lemma replace_workingDir_cut p w1 w2 :
  is_white w1 = true -> is_white w2 = true ->
  replace_workingDir (p +:+ "," +:+ w1 +:+ workingDir_brace +:+ w2) = p +:+ "}".
Proof.
  intros H1 H2. induction p as [|c p IH].
  - change (EmptyString +:+ "," +:+ w1 +:+ workingDir_brace +:+ w2)
      with (String ","%char (w1 +:+ workingDir_brace +:+ w2)).
    cbn [replace_workingDir]. by rewrite workingDir_tail_white.
  - rewrite !append_cons. cbn [replace_workingDir].
    change ("," +:+ w1 +:+ workingDir_brace +:+ w2)
      with (String ","%char (w1 +:+ workingDir_brace +:+ w2)).
    rewrite workingDir_tail_before_comma, andb_false_r.
    f_equal. exact IH.
Qed.

Lemma includes_app sub a b : includes sub (a +:+ sub +:+ b) = true.
Proof.
  induction a as [|c a IH].
  - change (EmptyString +:+ sub +:+ b) with (sub +:+ b).
    destruct (sub +:+ b) eqn:E; cbn; rewrite <- E, strip_prefix_app_eq; done.
  - rewrite append_cons. cbn.
    by destruct (strip_prefix sub (String c (a +:+ sub +:+ b))).
Qed.

End JsRegExpFacts.

(** X11.  Arguments cut off after the key [workingDir], as in
    [{..., 'workingDir'}] with double quotes, are repaired before they
    are parsed: when the text before the last comma, closed by a brace,
    is JSON, [executeToolCall] passes that value on.  White space may
    stand after the comma and after the brace. *)
Theorem cut_workingDir_is_dropped JSON_parse p w1 w2 v :
  JsRegExp.is_white w1 = true -> JsRegExp.is_white w2 = true ->
  JSON_parse (p +:+ "}") = Some v ->
  parsedArguments JSON_parse
    (JStr (p +:+ "," +:+ w1 +:+ JsRegExp.workingDir_brace +:+ w2))
  = inl v.
Proof.
  intros H1 H2 Hv. unfold parsedArguments.
  replace (p +:+ "," +:+ w1 +:+ JsRegExp.workingDir_brace +:+ w2)
    with ((p +:+ "," +:+ w1) +:+ JsRegExp.workingDir_brace +:+ w2) at 1
    by (by rewrite !JsStringFacts.append_assoc).
  rewrite JsRegExpFacts.includes_app.
  by rewrite JsRegExpFacts.replace_workingDir_cut, Hv.
Qed.

Lemma cut_workingDir_is_dropped_witness :
  parsedArguments JsonText.parse (JStr MoreExamples.cut_arguments)
  = inl (JObj [("command", JStr "ls -la")]).
Proof.
  apply (cut_workingDir_is_dropped JsonText.parse
           (JsString.dq "{'command': 'ls -la'") " " "");
    vm_compute; reflexivity.
Defined.

(** ** The configuration document *)

Lemma parseServerConfig_id id c :
  exists server,
    parseServerConfig id (Some c) = Some server /\ MCPServer.id server = id.
Proof. eexists. split; reflexivity. Qed.




Lemma parse_items_null items : forall index,
  None ∈ items -> parse_items index items = None.
Proof.
  induction items as [|[c|] items IH]; intros index Hin; cbn [parse_items].
  - by apply elem_of_nil in Hin.
  - apply elem_of_cons in Hin as [?|Hin]; [done|]. by rewrite (IH _ Hin).
  - done.
Qed.

(** ** The listing after an installation *)







(** X14.  An update whose document is an array with a null item fails
    after the file has been written: the new text is in the file, the
    table of servers and everything else is as before; and a service
    constructed from that file lists the two built-in servers only. *)
Theorem updateConfig_null_item_is_written_not_loaded
    read_config configContent items st h now :
  read_config configContent = Some (DirectArray items) ->
  None ∈ items ->
  updateConfig read_config configContent true st
  = (UpdateThrows, Upd.set_config_file configContent st) /\
  getAvailableServers (new_MCPService h now (read_config configContent))
  = exampleServers.
Proof.
  intros Hr Hnull. split.
  - unfold updateConfig, loadServersFromConfig. rewrite Hr. cbn.
    by rewrite (parse_items_null _ _ Hnull).
  - rewrite Hr. unfold new_MCPService, loadServersFromConfig. cbn [config_servers].
    rewrite (parse_items_null _ _ Hnull). reflexivity.
Qed.

Lemma updateConfig_null_item_is_written_not_loaded_witness :
  let content := JsString.dq "[{'id':'fs','command':'node'}, null]" in
  updateConfig Examples.read_config content true Examples.both_connected
  = (UpdateThrows, Upd.set_config_file content Examples.both_connected).
Proof.
  cbn zeta. eapply proj1.
  eapply (updateConfig_null_item_is_written_not_loaded Examples.read_config
            (JsString.dq "[{'id':'fs','command':'node'}, null]")
            _ Examples.both_connected Examples.host0 0).
  - vm_compute. reflexivity.
  - right. left.
Defined.

(** ** The socket handler *)

Section WsFacts.

Variable JSON_parse : string -> option Json.
Import JsString JsStringFacts.

Lemma wsResponseHandler_eq id buf data :
  h_buffer (wsResponseHandler JSON_parse id buf data) = buf +:+ data /\
  h_resolved (wsResponseHandler JSON_parse id buf data)
  = if ws_answers JSON_parse id (buf +:+ data) then JSON_parse (buf +:+ data)
    else None.
Proof.
  unfold wsResponseHandler, ws_answers. cbn zeta.
  destruct (JSON_parse (buf +:+ data)) as [response|]; [|done].
  destruct (JsValue.get "id" response) as [rid|]; [|done].
  by destruct (JsValue.is_number id rid).
Qed.

(** X15.  The socket handler never empties its buffer: what it parses
    at the n-th message is everything received since the request was
    sent.  The call resolves at the first message at which all the
    messages so far, put end to end, parse to a value carrying the
    request's id; a message is not parsed on its own unless it is
    the first. *)
Theorem ws_feed_parses_all_messages_so_far id messages : forall buf,
  match ws_feed JSON_parse id buf messages with
  | Some r =>
      exists n,
        (0 < n <= length messages)%nat /\
        JSON_parse (buf +:+ join (take n messages)) = Some r /\
        ws_answers JSON_parse id (buf +:+ join (take n messages)) = true /\
        forall k, (0 < k < n)%nat ->
          ws_answers JSON_parse id (buf +:+ join (take k messages)) = false
  | None =>
      forall n, (0 < n <= length messages)%nat ->
        ws_answers JSON_parse id (buf +:+ join (take n messages)) = false
  end.
Proof.
  induction messages as [|m ms IH]; intros buf; cbn [ws_feed].
  - intros n Hn. cbn in Hn. lia.
  - destruct (wsResponseHandler_eq id buf m) as [Hb Hr]. rewrite Hb, Hr.
    destruct (ws_answers JSON_parse id (buf +:+ m)) eqn:Ha.
    + unfold ws_answers in Ha.
      destruct (JSON_parse (buf +:+ m)) as [r|] eqn:Hp; [|done].
      exists 1%nat. cbn [take join length]. rewrite append_empty_r.
      repeat split; [lia | lia | done | | intros k Hk; lia].
      unfold ws_answers. by rewrite Hp.
    + specialize (IH (buf +:+ m)).
      assert (forall k, buf +:+ join (take (S k) (m :: ms))
                        = (buf +:+ m) +:+ join (take k ms)) as Hshift.
      { intros k. cbn [take join]. by rewrite append_assoc. }
      destruct (ws_feed JSON_parse id (buf +:+ m) ms) as [r|].
      * destruct IH as (n & Hn & Hp & Hans & Hmin).
        exists (S n). rewrite Hshift. cbn [length].
        repeat split; [lia | lia | done | done |].
        intros [|k] Hk; [lia|]. destruct k as [|k].
        -- cbn [take join]. by rewrite append_empty_r.
        -- rewrite Hshift. apply Hmin. lia.
      * intros [|n] Hn; [lia|]. cbn [length] in Hn. destruct n as [|n].
        -- cbn [take join]. by rewrite append_empty_r.
        -- rewrite Hshift. apply IH. lia.
Qed.

End WsFacts.

(** ** Discovery *)




(** ** The auto-start test *)

Lemma existsb_eqb_elem s l : existsb (String.eqb s) l = true <-> s ∈ l.
Proof.
  rewrite existsb_exists. split.
  - intros (x & Hin & ->%String.eqb_eq). by apply list_elem_of_In.
  - intros Hin. exists s. split; [by apply list_elem_of_In | apply String.eqb_refl].
Qed.

Lemma existsb_eqb_not_elem s l : existsb (String.eqb s) l = false <-> s ∉ l.
Proof.
  rewrite <- existsb_eqb_elem. by destruct (existsb (String.eqb s) l).
Qed.

(** X17.  [shouldAutoStart] answers yes only for a server that is not
    disabled, with settings that could be loaded, and whose id or name
    is among the activated servers. *)
Theorem shouldAutoStart_only_activated server settings update_ok :
  (shouldAutoStart server settings update_ok).1 = true ->
  MCPServer.disabled server <> Some true /\
  exists activatedMCPServers,
    settings = Some activatedMCPServers /\
    (MCPServer.id server ∈ activatedMCPServers \/
     MCPServer.name server ∈ activatedMCPServers).
Proof.
  unfold shouldAutoStart.
  destruct (bool_decide (MCPServer.disabled server = Some true)) eqn:Hd; [done|].
  apply bool_decide_eq_false in Hd.
  destruct settings as [activated|]; [|done]. cbn zeta.
  destruct (existsb (String.eqb (MCPServer.id server)) activated) eqn:Hid;
    destruct (existsb (String.eqb (MCPServer.name server)) activated) eqn:Hname;
    cbn; intros H; try done; (split; [done|]); exists activated; (split; [done|]).
  - left. by apply existsb_eqb_elem.
  - left. by apply existsb_eqb_elem.
  - right. by apply existsb_eqb_elem.
Qed.

Lemma shouldAutoStart_only_activated_witness :
  MCPServer.disabled filesystem_server <> Some true /\
  exists activatedMCPServers,
    Some ["other"; MCPServer.name filesystem_server] = Some activatedMCPServers /\
    (MCPServer.id filesystem_server ∈ activatedMCPServers \/
     MCPServer.name filesystem_server ∈ activatedMCPServers).
Proof.
  apply (shouldAutoStart_only_activated filesystem_server
           (Some ["other"; MCPServer.name filesystem_server]) true).
  vm_compute. reflexivity.
Defined.

(** X18.  A server activated by its name alone is started, and the
    list of activated servers is rewritten: the name goes, the id is
    added, everything else stays.  With the rewritten list the server
    is started by its id and the list is not rewritten again.  When
    the rewritten list cannot be saved the server is not started. *)
Theorem shouldAutoStart_rewrites_the_name_once server activatedMCPServers :
  MCPServer.disabled server <> Some true ->
  MCPServer.name server ∈ activatedMCPServers ->
  MCPServer.id server ∉ activatedMCPServers ->
  exists updatedServers,
    shouldAutoStart server (Some activatedMCPServers) true = (true, Some updatedServers) /\
    shouldAutoStart server (Some activatedMCPServers) false = (false, Some updatedServers) /\
    MCPServer.id server ∈ updatedServers /\
    (MCPServer.name server ∉ updatedServers) /\
    (forall s, s <> MCPServer.name server -> s <> MCPServer.id server ->
               (s ∈ updatedServers <-> s ∈ activatedMCPServers)) /\
    forall update_ok,
      shouldAutoStart server (Some updatedServers) update_ok = (true, None).
Proof.
  intros Hd Hname Hid.
  assert (MCPServer.id server <> MCPServer.name server) as Hne.
  { intros Heq. by rewrite Heq in Hid. }
  set (updated := filter (fun s => s <> MCPServer.name server) activatedMCPServers
                  ++ [MCPServer.id server]).
  assert (MCPServer.id server ∈ updated) as Hin.
  { apply elem_of_app. right. left. }
  assert (MCPServer.name server ∉ updated) as Hnin.
  { intros Hx. apply elem_of_app in Hx as [Hx|Hx].
    - by apply list_elem_of_filter in Hx as [? _].
    - by apply list_elem_of_singleton in Hx. }
  exists updated. unfold shouldAutoStart.
  rewrite (bool_decide_eq_false_2 _ Hd). cbn zeta.
  rewrite (proj2 (existsb_eqb_elem _ _) Hname), (proj2 (existsb_eqb_not_elem _ _) Hid).
  rewrite (proj2 (existsb_eqb_elem _ _) Hin), (proj2 (existsb_eqb_not_elem _ _) Hnin).
  cbn. repeat split; try done.
  - intros Hx. apply elem_of_app in Hx as [Hx|Hx].
    + by apply list_elem_of_filter in Hx as [_ ?].
    + by apply list_elem_of_singleton in Hx.
  - intros Hs. apply elem_of_app. left. by apply list_elem_of_filter.
Qed.

Lemma shouldAutoStart_rewrites_the_name_once_witness :
  exists updatedServers,
    shouldAutoStart filesystem_server (Some ["other"; MCPServer.name filesystem_server]) true
    = (true, Some updatedServers) /\
    updatedServers = ["other"; MCPServer.id filesystem_server].
Proof.
  destruct (shouldAutoStart_rewrites_the_name_once filesystem_server
              ["other"; MCPServer.name filesystem_server])
    as (updated & H & _).
  - vm_compute. discriminate.
  - right. left.
  - vm_compute. intros H. apply list_elem_of_In in H. cbn in H.
    destruct H as [H|[H|[]]]; discriminate H.
  - exists updated. split; [exact H|].
    vm_compute in H. by injection H as <-.
Defined.

(** ** What settles a promise *)

Section SettledOk.

Variable JSON_parse : string -> option Json.
Variable read_config : string -> option ConfigDoc.
Variable valid_url : string -> bool.

Lemma responseHandler_carries_id id buf data r :
  h_resolved (responseHandler JSON_parse id buf data) = Some r ->
  carries_id id r = true.
Proof.
  unfold responseHandler. rewrite handle_raw_first_answer.
  destruct (find (answers JSON_parse id) _) as [l|] eqn:E; [|done].
  apply find_some in E as [_ Ha]. intros Hp. unfold answers in Ha.
  rewrite Hp in Ha. by apply andb_prop in Ha as [_ Ha].
Qed.

Lemma wsResponseHandler_carries_id id buf data r :
  h_resolved (wsResponseHandler JSON_parse id buf data) = Some r ->
  carries_id id r = true.
Proof.
  rewrite (proj2 (wsResponseHandler_eq JSON_parse id buf data)).
  unfold ws_answers.
  destruct (JSON_parse (buf +:+ data)) as [response|]; [|done].
  destruct (JsValue.get "id" response) as [rid|] eqn:G; [|done].
  destruct (JsValue.is_number id rid) eqn:E; [|done].
  intros [= <-]. unfold carries_id. by rewrite G.
Qed.

Lemma settled_ok_handled h c :
  (forall r, h_resolved h = Some r -> carries_id (req_id (pc_message c)) r = true) ->
  settled_ok c -> settled_ok (handled h c).
Proof.
  unfold settled_ok, handled, timeout_message. cbn. intros Hh Hc.
  destruct (h_resolved h) as [r|]; [|done].
  destruct (pc_settled c) as [[]|]; [done | done | by apply Hh].
Qed.

Lemma settled_ok_expire t c : settled_ok c -> settled_ok (expire t c).
Proof.
  unfold expire. destruct (_ && _); [|done].
  unfold settled_ok, timed_out, timeout_message. cbn.
  by destruct (pc_settled c) as [[]|].
Qed.

Lemma settled_ok_frames st st' :
  frames st st' -> Forall settled_ok (calls st) -> Forall settled_ok (calls st').
Proof.
  intros [_ (extra & -> & He) _ _] H. apply Forall_app. split; [done|].
  eapply Forall_impl; [exact He|]. intros c Hc. unfold settled_ok. by rewrite Hc.
Qed.

Lemma settled_ok_emit hear st :
  (forall c, settled_ok c -> settled_ok (hear c)) ->
  Forall settled_ok (calls st) -> Forall settled_ok (calls (emit hear st)).
Proof.
  intros Hh H. unfold emit. eapply settled_ok_frames.
  - apply frames_foldl. intros. apply frames_resume.
  - cbn. apply Forall_fmap. eapply Forall_impl; [exact H|]. exact Hh.
Qed.

Lemma settled_ok_step a st :
  Forall settled_ok (calls st) ->
  Forall settled_ok (calls (step JSON_parse read_config valid_url a st)).
Proof.
  intros H. destruct a; cbn [step].
  - eapply settled_ok_frames; [apply frames_connectToServer | done].
  - eapply settled_ok_frames; [apply frames_disconnectServer | done].
  - eapply settled_ok_frames; [apply frames_disconnectAll | done].
  - eapply settled_ok_frames; [apply frames_executeTool | done].
  - by rewrite calls_updateConfig.
  - eapply settled_ok_frames; [apply frames_on_spawn | done].
  - eapply settled_ok_frames; [apply frames_on_error | done].
  - eapply settled_ok_frames; [apply frames_on_exit | done].
  - apply settled_ok_emit; [|done]. intros c Hc. unfold hear_stdout.
    destruct (_ && _); [|done]. apply settled_ok_handled; [|done].
    intros r. apply responseHandler_carries_id.
  - eapply settled_ok_frames; [apply frames_on_open | done].
  - eapply settled_ok_frames; [apply frames_on_ws_error | done].
  - eapply settled_ok_frames; [apply frames_on_close | done].
  - apply settled_ok_emit; [|done]. intros c Hc. unfold hear_message.
    destruct (_ && _); [|done]. apply settled_ok_handled; [|done].
    intros r. apply wsResponseHandler_carries_id.
  - cbn. apply Forall_fmap. eapply Forall_impl; [exact H|].
    intros c. apply settled_ok_expire.
Qed.

Lemma settled_ok_run actions st :
  Forall settled_ok (calls st) ->
  Forall settled_ok (calls (run JSON_parse read_config valid_url actions st)).
Proof.
  revert st. induction actions as [|a actions IH]; intros st H; [done|].
  apply IH. by apply settled_ok_step.
Qed.

Lemma calls_new_MCPService h now config : calls (new_MCPService h now config) = [].
Proof.
  unfold new_MCPService.
  set (st0 := {| servers := []; store := []; connections := ∅; children := [];
                 sockets := []; calls := []; host := h; Date_now := now;
                 clock := 0; config_file := None |}).
  assert (forall l, calls (set_servers l st0) = []) as Hl.
  { intros l. by destruct (set_servers_frame l st0) as (_ & _ & _ & -> & _). }
  destruct config as [doc|]; [|apply Hl].
  destruct (config_servers doc) as [l|] eqn:E.
  - rewrite (loadServersFromConfig_installs _ _ _ E). apply Hl.
  - unfold loadServersFromConfig. rewrite E. apply Hl.
Qed.

(** X19.  In every state the service reaches from its construction,
    a call that is resolved holds a response carrying the id of its
    own request, and a call that is rejected holds the message of
    its timer: nothing else ever settles a call, neither a
    disconnection nor the exit of the process nor an answer to
    another request. *)
Theorem calls_settle_by_answer_or_timer h now config actions k c :
  let st := run JSON_parse read_config valid_url actions (new_MCPService h now config) in
  calls st !! k = Some c ->
  match pc_settled c with
  | Some (Resolved response) => carries_id (req_id (pc_message c)) response = true
  | Some (Rejected message) => message = timeout_message c
  | None => True
  end.
Proof.
  cbn zeta. intros Hk.
  pose proof (settled_ok_run actions (new_MCPService h now config)) as H.
  rewrite calls_new_MCPService in H. specialize (H (List.Forall_nil _)).
  rewrite Forall_lookup in H. exact (H k c Hk).
Qed.

End SettledOk.

Lemma calls_settle_by_answer_or_timer_witness :
  let st :=
    run JsonText.parse Examples.read_config (fun _ => true)
      [ConnectToServer "fs"; Spawn 0;
       Stdout 0 (Examples.line "{'jsonrpc':'2.0','id':1,'result':{}}");
       ExecuteTool "fs" (Examples.call "fs_tool"); Elapse 120000 200000]
      (new_MCPService Examples.host0 1000 (Examples.read_config Examples.fs_json)) in
  let c := default MoreExamples.no_call (calls st !! 2%nat) in
  match pc_settled c with
  | Some (Resolved response) => carries_id (req_id (pc_message c)) response = true
  | Some (Rejected message) => message = timeout_message c
  | None => True
  end.
Proof.
  cbn zeta.
  apply (calls_settle_by_answer_or_timer JsonText.parse Examples.read_config
           (fun _ => true) Examples.host0 1000
           (Examples.read_config Examples.fs_json)
           [ConnectToServer "fs"; Spawn 0;
            Stdout 0 (Examples.line "{'jsonrpc':'2.0','id':1,'result':{}}");
            ExecuteTool "fs" (Examples.call "fs_tool"); Elapse 120000 200000]
           2%nat).
  vm_compute. reflexivity.
Defined.
